(** * generate_world_tiles: tile indexing, metadata inference and validation

    A shallow embedding of [src/data/generate_world_tiles.cc] and the
    properties of its passes.  C++ [int] values are modelled as [Z]; the
    metadata bit masks are the source's constants, and the bit operations
    are those of [Z] ([~m] is [Z.lnot m], two's complement on both sides).
    A [TileMap] is a list of rows; the source's [output[y][x]] is
    [cell output x y].  The only [int] expression that can leave 32 bits,
    the packed pair of [WriteNonblankTile], is wrapped with [int32].

    Loops over the grid are folds over the cells in raster order, with the
    variables the loop changes as the state.  Output printed to the
    terminal is a list of [Diag].  An [assert] that inputs can reach (the
    blank-run bound of [WriteTileTable]) makes the result an [option];
    the asserts that the program's own data always satisfy are stated as
    predicates and proved of that data ([shapes_ok], [start_asserts],
    [teleport_asserts]). *)

From Stdlib Require Import ZArith Lia Bool Ascii.
From stdpp Require Import base numbers list list_numbers gmap.

Local Open Scope Z_scope.

(** ** Constants *)

Definition kTileSize : Z := 32.
Definition kTilesPerRow : Z := 60.
Definition kMaxCollectibleObstacles : Z := 12 * 7.
Definition kMaxTileCount : Z := 32767.
Definition kBlankTile : Z := -1.

Definition kCollisionMask : Z := 0x07.
Definition kCollisionNone : Z := 0x00.
Definition kCollisionSquare : Z := 0x01.
Definition kCollisionUpLeft : Z := 0x02.
Definition kCollisionUpRight : Z := 0x03.
Definition kCollisionDownLeft : Z := 0x04.
Definition kCollisionDownRight : Z := 0x05.

Definition kMountUp : Z := 0x10.
Definition kMountDown : Z := 0x20.
Definition kMountLeft : Z := 0x40.
Definition kMountRight : Z := 0x80.
Definition kMountMask : Z :=
  Z.lor (Z.lor (Z.lor kMountUp kMountDown) kMountLeft) kMountRight.

Definition kBreakableTile : Z := 0x08.
Definition kGhostCollisionTile : Z := 0x4000.

Definition kCollectibleTileUp : Z := 0x100.
Definition kCollectibleTileDown : Z := 0x200.
Definition kCollectibleTileLeft : Z := 0x400.
Definition kCollectibleTileRight : Z := 0x800.

Definition kChainReaction : Z := 0x1000.
Definition kTerminalReaction : Z := 0x2000.

Definition kCollectibleTileMask : Z :=
  Z.lor (Z.lor (Z.lor kCollectibleTileUp kCollectibleTileDown)
               kCollectibleTileLeft) kCollectibleTileRight.

(** ** Tile maps *)

Abbreviation TileRow := (list Z).
Abbreviation TileMap := (list (list Z)).

(** [tiles[y][x]].  The source indexes vectors without a bounds check and
    guards every access by a range test of its own; outside the grid the
    model reads 0. *)
Definition cell (t : TileMap) (x y : Z) : Z :=
  if (x <? 0) || (y <? 0) then 0
  else match t !! Z.to_nat y with
       | Some row => default 0 (row !! Z.to_nat x)
       | None => 0
       end.

(** [tiles[y][x] = v].  Outside the grid the model leaves the map as it is
    (undefined behaviour in the source, which never writes there). *)
Definition set_cell (t : TileMap) (x y v : Z) : TileMap :=
  if (x <? 0) || (y <? 0) then t
  else alter (fun row : list Z => <[Z.to_nat x := v]> row) (Z.to_nat y) t.

(** A map of [h] rows of [w] cells each, as [ResizeOutput] allocates it. *)
Definition rect (w h : Z) (t : TileMap) : Prop :=
  Z.of_nat (length t) = h ∧ Forall (fun row : list Z => Z.of_nat (length row) = w) t.

(** [ResizeOutput] on a fresh map: [height] rows of [width] zero cells. *)
Definition ResizeOutput (image_width image_height : Z) : TileMap :=
  replicate (Z.to_nat (image_height / kTileSize))
            (replicate (Z.to_nat (image_width / kTileSize)) 0).

(** ** Loops *)

(** [for(int i = 0; i < n; i++) body(i)] over a state. *)
Definition for_loop {S : Type} (n : Z) (body : Z -> S -> S) (s : S) : S :=
  foldl (fun acc i => body i acc) s (seqZ 0 n).

(** The raster scan [for(y...) for(x...) body(x, y)]. *)
Definition raster_loop {S : Type} (w h : Z) (body : Z -> Z -> S -> S) (s : S) : S :=
  for_loop h (fun y => for_loop w (fun x => body x y)) s.

(** The cells a raster scan visits, in order. *)
Definition raster (w h : Z) : list (Z * Z) :=
  y ← seqZ 0 h; (fun x => (x, y)) <$> seqZ 0 w.

(** A loop body run over a list of cells. *)
Definition run_cells {S : Type} (body : Z -> Z -> S -> S)
    (l : list (Z * Z)) (s : S) : S :=
  foldl (fun acc p => body p.1 p.2 acc) s l.

(** Two grids agree on what [view] keeps of each cell. *)
Definition same_view (view : Z -> Z) (g g0 : TileMap) : Prop :=
  forall x y, view (cell g x y) = view (cell g0 x y).

(** ** Ghost cleanup *)

(** One iteration of the loop body of [RemoveGhosts]. *)
Definition RemoveGhosts_cell (x y : Z) (output : TileMap) : TileMap :=
  let tile := cell output x y in
  if negb (Z.land tile kGhostCollisionTile =? 0)
  then set_cell output x y
         (Z.land tile (Z.lnot (Z.lor kGhostCollisionTile kCollisionMask)))
  else output.

Definition RemoveGhosts (grid_width grid_height : Z) (output : TileMap)
  : bool * TileMap :=
  (true, raster_loop grid_width grid_height RemoveGhosts_cell output).

(** ** Mount detection *)

(** [IsEmptyOrBreakable]. *)
Definition IsEmptyOrBreakable (tile_map : TileMap)
    (grid_width grid_height x y : Z) : bool :=
  if (x <? 0) || (x >=? grid_width) || (y <? 0) || (y >=? grid_height)
  then false
  else
    let tile_bits := cell tile_map x y in
    (Z.land tile_bits kCollisionMask =? kCollisionNone)
    || negb (Z.land tile_bits kBreakableTile =? 0).

(** The macros of [AssignMountAttributes], with the variables they capture
    ([output], the grid size, the cell and the normal) as parameters. *)
Definition NEIGHBOR_COLLISION (output : TileMap)
    (grid_width grid_height x y dx dy : Z) : Z :=
  if (x + dx >=? 0) && (x + dx <? grid_width)
     && (y + dy >=? 0) && (y + dy <? grid_height)
  then Z.land (cell output (x + dx) (y + dy)) kCollisionMask
  else -1.

Definition IS_EMPTY_OR_BREAKABLE (output : TileMap)
    (grid_width grid_height x y dx dy : Z) : bool :=
  IsEmptyOrBreakable output grid_width grid_height (x + dx) (y + dy).

Definition HAS_ENOUGH_CLEARANCE (output : TileMap)
    (grid_width grid_height x y normal_dx normal_dy base_x base_y : Z) : bool :=
  IS_EMPTY_OR_BREAKABLE output grid_width grid_height x y
    (base_x + normal_dx) (base_y + normal_dy)
  && IS_EMPTY_OR_BREAKABLE output grid_width grid_height x y
       (base_x + normal_dx * 2) (base_y + normal_dy * 2).

(** [AssignMountAttributes]: the grid is returned unchanged on the early
    [return] and when a condition fails. *)
Definition AssignMountAttributes (mount_mask normal_dx normal_dy
    grid_width grid_height x y : Z) (output : TileMap) : TileMap :=
  let empty := IS_EMPTY_OR_BREAKABLE output grid_width grid_height x y in
  let clearance :=
    HAS_ENOUGH_CLEARANCE output grid_width grid_height x y normal_dx normal_dy in
  let neighbor := NEIGHBOR_COLLISION output grid_width grid_height x y in
  if negb (empty normal_dx normal_dy)
     || negb (empty (normal_dx * 2) (normal_dy * 2))
  then output
  else
    let post_x := normal_dy in
    let post_y := - normal_dx in
    let pre_x := - normal_dy in
    let pre_y := normal_dx in
    let c := Z.land (cell output x y) kCollisionMask in
    if (neighbor pre_x pre_y =? c) && (neighbor post_x post_y =? c)
       && clearance pre_x pre_y && clearance post_x post_y
    then
      if (normal_dx =? 0) || (normal_dy =? 0)
      then set_cell output x y (Z.lor (cell output x y) mount_mask)
      else
        let ky := - normal_dy in
        let kx := - normal_dx in
        if clearance (pre_x + kx) pre_y && clearance pre_x (pre_y + ky)
           && clearance (post_x + kx) post_y && clearance post_x (post_y + ky)
        then set_cell output x y (Z.lor (cell output x y) mount_mask)
        else output
    else output.

(** The loop body of [DetectMountPoints].  The [default] branch of the
    source's switch is [assert(false)], marked unreachable: collision
    values 6 and 7 are never produced by [ProcessAnnotations]
    (see [shapes_ok]); the model leaves the grid as it is there. *)
Definition DetectMountPoints_cell (grid_width grid_height x y : Z)
    (output : TileMap) : TileMap :=
  let assign m dx dy := AssignMountAttributes m dx dy grid_width grid_height x y in
  if negb (Z.land (cell output x y) kBreakableTile =? 0) then output
  else
    let c := Z.land (cell output x y) kCollisionMask in
    if c =? kCollisionNone then output
    else if c =? kCollisionSquare then
      assign kMountRight 1 0
        (assign kMountLeft (-1) 0
           (assign kMountDown 0 1
              (assign kMountUp 0 (-1) output)))
    else if c =? kCollisionUpLeft then
      assign (Z.lor kMountUp kMountLeft) (-1) (-1) output
    else if c =? kCollisionUpRight then
      assign (Z.lor kMountUp kMountRight) 1 (-1) output
    else if c =? kCollisionDownLeft then
      assign (Z.lor kMountDown kMountLeft) (-1) 1 output
    else if c =? kCollisionDownRight then
      assign (Z.lor kMountDown kMountRight) 1 1 output
    else output.

Definition DetectMountPoints (grid_width grid_height : Z)
    (output : TileMap) : TileMap :=
  raster_loop grid_width grid_height
    (DetectMountPoints_cell grid_width grid_height) output.

(** Every cell has one of the six collision shapes. *)
Definition shapes_ok (g : TileMap) : Prop :=
  Forall (Forall (fun t => Z.land t kCollisionMask <= kCollisionDownRight)) g.

(** The four axis directions of a square cell's mounts. *)
Inductive Direction : Type := Up | Down | Left | Right.

Definition normal (d : Direction) : Z * Z :=
  match d with
  | Up => (0, -1)
  | Down => (0, 1)
  | Left => (-1, 0)
  | Right => (1, 0)
  end.

Definition mount_bit (d : Direction) : Z :=
  match d with
  | Up => kMountUp
  | Down => kMountDown
  | Left => kMountLeft
  | Right => kMountRight
  end.

(** The two cells stepping outward from [(x, y)] along [d] are both empty
    or breakable. *)
Definition clear_ahead (g : TileMap) (w h x y : Z) (d : Direction) : bool :=
  IsEmptyOrBreakable g w h (x + (normal d).1) (y + (normal d).2)
  && IsEmptyOrBreakable g w h (x + 2 * (normal d).1) (y + 2 * (normal d).2).

(** The neighbour of [(x, y)] at offset [(lx, ly)] lies in the grid and
    has the collision shape of [(x, y)]. *)
Definition same_shape_beside (g : TileMap) (w h x y lx ly : Z) : bool :=
  NEIGHBOR_COLLISION g w h x y lx ly =? Z.land (cell g x y) kCollisionMask.

(** What the code requires of a square cell to be mountable along [d]:
    clearance in front of it, both lateral neighbours (the normal turned by
    a quarter either way) of the same shape, and clearance in front of
    each of them. *)
Definition square_mountable (g : TileMap) (w h x y : Z) (d : Direction) : bool :=
  let nx := (normal d).1 in
  let ny := (normal d).2 in
  clear_ahead g w h x y d
  && (same_shape_beside g w h x y (- ny) nx
      && same_shape_beside g w h x y ny (- nx)
      && clear_ahead g w h (x + - ny) (y + nx) d
      && clear_ahead g w h (x + ny) (y + - nx) d).

(** The whole condition under which [AssignMountAttributes] sets the mask. *)
Definition mountable (g : TileMap) (w h x y dx dy : Z) : bool :=
  let empty := IS_EMPTY_OR_BREAKABLE g w h x y in
  let clearance := HAS_ENOUGH_CLEARANCE g w h x y dx dy in
  let neighbor := NEIGHBOR_COLLISION g w h x y in
  let c := Z.land (cell g x y) kCollisionMask in
  empty dx dy && empty (dx * 2) (dy * 2)
  && ((neighbor (- dy) dx =? c) && (neighbor dy (- dx) =? c)
      && clearance (- dy) dx && clearance dy (- dx))
  && ((dx =? 0) || (dy =? 0)
      || (clearance (- dy + - dx) dx && clearance (- dy) (dx + - dy)
          && clearance (dy + - dx) (- dx) && clearance dy (- dx + - dy))).

(** The bits of a cell that mount detection reads: collision and breakable. *)
Definition shape_view (t : Z) : Z := Z.land t (Z.lor kCollisionMask kBreakableTile).

(** The value [DetectMountPoints_cell] leaves in a cell holding [t], the
    conditions being read from the grid [g0]. *)
Definition detect_value (g0 : TileMap) (w h x y t : Z) : Z :=
  let add m dx dy (t : Z) := if mountable g0 w h x y dx dy then Z.lor t m else t in
  if negb (Z.land t kBreakableTile =? 0) then t
  else
    let c := Z.land t kCollisionMask in
    if c =? kCollisionNone then t
    else if c =? kCollisionSquare then
      add kMountRight 1 0 (add kMountLeft (-1) 0 (add kMountDown 0 1 (add kMountUp 0 (-1) t)))
    else if c =? kCollisionUpLeft then add (Z.lor kMountUp kMountLeft) (-1) (-1) t
    else if c =? kCollisionUpRight then add (Z.lor kMountUp kMountRight) 1 (-1) t
    else if c =? kCollisionDownLeft then add (Z.lor kMountDown kMountLeft) (-1) 1 t
    else if c =? kCollisionDownRight then add (Z.lor kMountDown kMountRight) 1 1 t
    else t.

(** A 5x5 grid whose only collision cell is a square in the centre. *)
Definition lone_square : TileMap :=
  [ [0; 0; 0; 0; 0];
    [0; 0; 0; 0; 0];
    [0; 0; 1; 0; 0];
    [0; 0; 0; 0; 0];
    [0; 0; 0; 0; 0] ].

(** A 5x5 grid with a horizontal wall of three squares in the middle row. *)
Definition short_wall : TileMap :=
  [ [0; 0; 0; 0; 0];
    [0; 0; 0; 0; 0];
    [0; 1; 1; 1; 0];
    [0; 0; 0; 0; 0];
    [0; 0; 0; 0; 0] ].

(** ** Validation *)

(** The diagnostics the validator prints.  Each [printf] of the source is
    one constructor; the arguments are the tile row and column (and, for
    mount points, the pixel position).  The pixel centre that the source
    prints after them is [x * kTileSize + kTileSize / 2] and adds nothing. *)
Inductive Diag : Type :=
  | BreakableNeedsCollision (y x : Z)
  | CollectibleOverlap (y x : Z)
  | CollectibleNearEdge (y x : Z)
  | CollectibleNeedsSquare (y x : Z)
  | CollectibleNeedsOneWall (y x : Z)
  | CollectibleNeedsThreeEmpty (y x : Z)
  | TooManyCollectibles (y x : Z)
  | NoMountAt (tile_y tile_x x y : Z)
  | TerminalNeedsChain (y x : Z).

(** The local variables of [AdjustObstacles], with the grid it edits and
    what it has printed. *)
Record AdjustState : Type := mkAdjust
  { output : TileMap;
    success_status : bool;
    collectible_obstacles : Z;
    printed : list Diag }.

(** [printf(...); success_status = false;] *)
Definition report (d : Diag) (st : AdjustState) : AdjustState :=
  {| output := output st;
     success_status := false;
     collectible_obstacles := collectible_obstacles st;
     printed := printed st ++ [d] |}.

(** The macros of [AdjustObstacles]. *)
Module Obstacle.
Definition METADATA_BITS (g : TileMap) (x y dx dy : Z) : Z :=
  cell g (x + dx) (y + dy).
Definition IS_BREAKABLE (g : TileMap) (x y dx dy : Z) : bool :=
  negb (Z.land (METADATA_BITS g x y dx dy) kBreakableTile =? 0).
Definition IS_EMPTY_OR_BREAKABLE (g : TileMap) (x y dx dy : Z) : bool :=
  (Z.land (METADATA_BITS g x y dx dy) kCollisionMask =? kCollisionNone)
  || IS_BREAKABLE g x y dx dy.
Definition IS_UNBREAKABLE_SQUARE (g : TileMap) (x y dx dy : Z) : bool :=
  Z.land (METADATA_BITS g x y dx dy) (Z.lor kBreakableTile kCollisionMask)
  =? kCollisionSquare.
End Obstacle.

(** [*tile &= ~kCollectibleTileMask; *tile |= dir;] *)
Definition point_collectible (x y dir : Z) (st : AdjustState) : AdjustState :=
  let tile := cell (output st) x y in
  {| output := set_cell (output st) x y
                 (Z.lor (Z.land tile (Z.lnot kCollectibleTileMask)) dir);
     success_status := success_status st;
     collectible_obstacles := collectible_obstacles st;
     printed := printed st |}.

(** The tail of the loop body: count the collectible and check the cap. *)
Definition count_collectible (x y : Z) (st : AdjustState) : AdjustState :=
  let st' :=
    {| output := output st;
       success_status := success_status st;
       collectible_obstacles := collectible_obstacles st + 1;
       printed := printed st |} in
  if collectible_obstacles st' >? kMaxCollectibleObstacles
  then report (TooManyCollectibles y x) st'
  else st'.

(** The loop body of [AdjustObstacles]; each [continue] ends the body. *)
Definition AdjustObstacles_cell (grid_width grid_height x y : Z)
    (st : AdjustState) : AdjustState :=
  let g := output st in
  let tile := cell g x y in
  let st :=
    if negb (Z.land tile kBreakableTile =? 0)
       && (Z.land tile (Z.lor (Z.lor kCollisionMask kChainReaction)
                              kTerminalReaction) =? 0)
    then report (BreakableNeedsCollision y x) st
    else st in
  if Z.land tile kCollectibleTileMask =? 0 then st
  else if negb (Z.land tile
                  (Z.lnot (Z.lor kCollectibleTileMask kTerminalReaction)) =? 0)
  then report (CollectibleOverlap y x) st
  else if (x =? 0) || (x =? grid_width - 1) || (y =? 0) || (y =? grid_height - 1)
  then report (CollectibleNearEdge y x) st
  else
    let open := Obstacle.IS_EMPTY_OR_BREAKABLE g x y in
    let wall := Obstacle.IS_UNBREAKABLE_SQUARE g x y in
    let brk := Obstacle.IS_BREAKABLE g x y in
    let empty_count :=
      Z.b2z (open (-1) 0) + Z.b2z (open 1 0)
      + Z.b2z (open 0 (-1)) + Z.b2z (open 0 1) in
    let point dir := count_collectible x y (point_collectible x y dir st) in
    if empty_count =? 3 then
      if wall 0 1 then point kCollectibleTileUp
      else if wall 0 (-1) then point kCollectibleTileDown
      else if wall 1 0 then point kCollectibleTileLeft
      else if wall (-1) 0 then point kCollectibleTileRight
      else report (CollectibleNeedsSquare y x) st
    else if empty_count =? 4 then
      if brk 0 1 && negb (brk 0 (-1)) && negb (brk 1 0) && negb (brk (-1) 0)
      then point kCollectibleTileUp
      else if negb (brk 0 1) && brk 0 (-1) && negb (brk 1 0) && negb (brk (-1) 0)
      then point kCollectibleTileDown
      else if negb (brk 0 1) && negb (brk 0 (-1)) && brk 1 0 && negb (brk (-1) 0)
      then point kCollectibleTileLeft
      else if negb (brk 0 1) && negb (brk 0 (-1)) && negb (brk 1 0) && brk (-1) 0
      then point kCollectibleTileRight
      else report (CollectibleNeedsOneWall y x) st
    else report (CollectibleNeedsThreeEmpty y x) st.

(** [AdjustObstacles]: the final state holds the returned [success_status],
    the adjusted grid and the output printed. *)
Definition AdjustObstacles (grid_width grid_height : Z) (g : TileMap)
  : AdjustState :=
  raster_loop grid_width grid_height
    (AdjustObstacles_cell grid_width grid_height)
    {| output := g; success_status := true;
       collectible_obstacles := 0; printed := [] |}.

(** A check that does not edit the grid: its status and its output. *)
Record CheckState : Type := mkCheck
  { check_status : bool; check_printed : list Diag }.

Definition check_report (d : Diag) (st : CheckState) : CheckState :=
  {| check_status := false; check_printed := check_printed st ++ [d] |}.

Definition check_start : CheckState :=
  {| check_status := true; check_printed := [] |}.

(** [PositionList]. *)
Abbreviation PositionList := (list (Z * Z)).

(** [CheckStartingPoints].  The asserts of the source (the position is the
    right-edge midpoint of a tile of the grid, [start_asserts]) hold for
    every position [ProcessAnnotations] records; [/] on [int] is
    [Z.quot]. *)
Definition CheckStartingPoints (start : PositionList) (tiles : TileMap)
  : CheckState :=
  foldl (fun st '(x, y) =>
           let tile_x := Z.quot x kTileSize in
           let tile_y := Z.quot (y - Z.quot kTileSize 2) kTileSize in
           let mounts := Z.land (cell tiles tile_x tile_y) kMountMask in
           if negb (mounts =? kMountRight)
              && negb (mounts =? Z.lor kMountLeft kMountRight)
           then check_report (NoMountAt tile_y tile_x x y) st
           else st)
        check_start start.

(** [CheckTeleportPoints]. *)
Definition CheckTeleportPoints (start : PositionList) (tiles : TileMap)
  : CheckState :=
  foldl (fun st '(x, y) =>
           let tile_x := Z.quot (x - Z.quot kTileSize 2) kTileSize in
           let tile_y := Z.quot y kTileSize in
           let mounts := Z.land (cell tiles tile_x tile_y) kMountMask in
           if negb (mounts =? kMountUp)
              && negb (mounts =? Z.lor kMountUp kMountDown)
           then check_report (NoMountAt tile_y tile_x x y) st
           else st)
        check_start start.

(** The local [adjacent_to_chain_reaction] of [CheckTerminalReactions]. *)
Definition adjacent_to_chain_reaction (grid_width grid_height : Z)
    (tiles : TileMap) (x y : Z) : bool :=
  ((y >? 0) && negb (Z.land (cell tiles x (y - 1)) kChainReaction =? 0))
  || ((y <? grid_height - 1)
      && negb (Z.land (cell tiles x (y + 1)) kChainReaction =? 0))
  || ((x >? 0) && negb (Z.land (cell tiles (x - 1) y) kChainReaction =? 0))
  || ((x <? grid_width - 1)
      && negb (Z.land (cell tiles (x + 1) y) kChainReaction =? 0)).

Definition CheckTerminalReactions_cell (grid_width grid_height : Z)
    (tiles : TileMap) (x y : Z) (st : CheckState) : CheckState :=
  if negb (Z.land (cell tiles x y) kTerminalReaction =? 0)
  then
    if negb (adjacent_to_chain_reaction grid_width grid_height tiles x y)
    then check_report (TerminalNeedsChain y x) st
    else st
  else st.

(** [CheckTerminalReactions]. *)
Definition CheckTerminalReactions (grid_width grid_height : Z)
    (tiles : TileMap) : CheckState :=
  raster_loop grid_width grid_height
    (CheckTerminalReactions_cell grid_width grid_height tiles) check_start.

(** A loop over a list that reports [diag a] for each [a] that is [bad]. *)
Definition check_each {A : Type} (bad : A -> bool) (diag : A -> Diag)
    (st : CheckState) (a : A) : CheckState :=
  if bad a then check_report (diag a) st else st.

(** A terminal-reaction cell without a chain-reaction cell next to it. *)
Definition lonely_terminal (w h : Z) (g : TileMap) (p : Z * Z) : bool :=
  negb (Z.land (cell g p.1 p.2) kTerminalReaction =? 0)
  && negb (adjacent_to_chain_reaction w h g p.1 p.2).

(** Some cell of the grid orthogonally next to [(x, y)] carries the
    chain-reaction flag. *)
Definition chain_neighbor (w h : Z) (g : TileMap) (x y : Z) : Prop :=
  exists x' y', (0 <= x' < w /\ 0 <= y' < h)
    /\ Z.abs (x' - x) + Z.abs (y' - y) = 1
    /\ Z.land (cell g x' y') kChainReaction <> 0.

(** A row of two squares mounted up and right; the first is a ghost. *)
Definition ghost_row : TileMap := [ [0x4091; 0x91] ].

(** *** Collectible neighbours *)

(** [normal d] is also the offset of the neighbour on side [d] of a cell
    (the grid's y grows downwards). *)
Definition open_at (g : TileMap) (x y : Z) (d : Direction) : bool :=
  Obstacle.IS_EMPTY_OR_BREAKABLE g x y (normal d).1 (normal d).2.

Definition wall_at (g : TileMap) (x y : Z) (d : Direction) : bool :=
  Obstacle.IS_UNBREAKABLE_SQUARE g x y (normal d).1 (normal d).2.

Definition breakable_at (g : TileMap) (x y : Z) (d : Direction) : bool :=
  Obstacle.IS_BREAKABLE g x y (normal d).1 (normal d).2.

Definition directions : list Direction := [Up; Down; Left; Right].

Definition others (d : Direction) : list Direction :=
  match d with
  | Up => [Down; Left; Right]
  | Down => [Up; Left; Right]
  | Left => [Up; Down; Right]
  | Right => [Up; Down; Left]
  end.

(** Pattern (i): the neighbour on side [d] is an unbreakable square and the
    other three are empty or breakable. *)
Definition wall_pattern (g : TileMap) (x y : Z) (d : Direction) : bool :=
  wall_at g x y d && forallb (open_at g x y) (others d).

(** Pattern (ii): all four neighbours are empty or breakable, and the one
    on side [d] is the only breakable one. *)
Definition breakable_pattern (g : TileMap) (x y : Z) (d : Direction) : bool :=
  forallb (open_at g x y) directions
  && breakable_at g x y d
  && forallb (fun d' => negb (breakable_at g x y d')) (others d).

Definition opposite (d : Direction) : Direction :=
  match d with
  | Up => Down
  | Down => Up
  | Left => Right
  | Right => Left
  end.

Definition collectible_bit (d : Direction) : Z :=
  match d with
  | Up => kCollectibleTileUp
  | Down => kCollectibleTileDown
  | Left => kCollectibleTileLeft
  | Right => kCollectibleTileRight
  end.

(** The three diagnostics for a collectible whose neighbours fit no
    pattern. *)
Definition neighbor_diags (x y : Z) : list Diag :=
  [ CollectibleNeedsSquare y x;
    CollectibleNeedsOneWall y x;
    CollectibleNeedsThreeEmpty y x ].

(** A 3x3 grid: a collectible in the centre, an unbreakable square on its
    left. *)
Definition wall_on_left : TileMap :=
  [ [0; 0; 0];
    [1; 0xF00; 0];
    [0; 0; 0] ].

(** What the loop body of [AdjustObstacles] decides for a cell, read off
    the grid alone: leave it, report it, or point it in a direction. *)
Inductive Verdict : Type :=
  | Keep
  | Reject (d : Diag)
  | Point (dir : Z).

Definition verdict (w h x y : Z) (g : TileMap) : Verdict :=
  let tile := cell g x y in
  if Z.land tile kCollectibleTileMask =? 0 then Keep
  else if negb (Z.land tile
                  (Z.lnot (Z.lor kCollectibleTileMask kTerminalReaction)) =? 0)
  then Reject (CollectibleOverlap y x)
  else if (x =? 0) || (x =? w - 1) || (y =? 0) || (y =? h - 1)
  then Reject (CollectibleNearEdge y x)
  else
    let open := Obstacle.IS_EMPTY_OR_BREAKABLE g x y in
    let wall := Obstacle.IS_UNBREAKABLE_SQUARE g x y in
    let brk := Obstacle.IS_BREAKABLE g x y in
    let empty_count :=
      Z.b2z (open (-1) 0) + Z.b2z (open 1 0)
      + Z.b2z (open 0 (-1)) + Z.b2z (open 0 1) in
    if empty_count =? 3 then
      if wall 0 1 then Point kCollectibleTileUp
      else if wall 0 (-1) then Point kCollectibleTileDown
      else if wall 1 0 then Point kCollectibleTileLeft
      else if wall (-1) 0 then Point kCollectibleTileRight
      else Reject (CollectibleNeedsSquare y x)
    else if empty_count =? 4 then
      if brk 0 1 && negb (brk 0 (-1)) && negb (brk 1 0) && negb (brk (-1) 0)
      then Point kCollectibleTileUp
      else if negb (brk 0 1) && brk 0 (-1) && negb (brk 1 0) && negb (brk (-1) 0)
      then Point kCollectibleTileDown
      else if negb (brk 0 1) && negb (brk 0 (-1)) && brk 1 0 && negb (brk (-1) 0)
      then Point kCollectibleTileLeft
      else if negb (brk 0 1) && negb (brk 0 (-1)) && negb (brk 1 0) && brk (-1) 0
      then Point kCollectibleTileRight
      else Reject (CollectibleNeedsOneWall y x)
    else Reject (CollectibleNeedsThreeEmpty y x).

(** A breakable tile with no collision bits that is part of no reaction. *)
Definition breakable_bad (tile : Z) : bool :=
  negb (Z.land tile kBreakableTile =? 0)
  && (Z.land tile (Z.lor (Z.lor kCollisionMask kChainReaction)
                         kTerminalReaction) =? 0).

Definition apply_verdict (x y : Z) (v : Verdict) (st : AdjustState)
  : AdjustState :=
  match v with
  | Keep => st
  | Reject d => report d st
  | Point dir => count_collectible x y (point_collectible x y dir st)
  end.

(** What [AdjustObstacles] never changes of a cell: all but the collectible
    direction bits. *)
Definition keep_view (t : Z) : Z := Z.land t (Z.lnot kCollectibleTileMask).


(** The part of an [AdjustState] that is not the grid. *)
Definition adjust_aux (st : AdjustState) : bool * Z * list Diag :=
  (success_status st, collectible_obstacles st, printed st).

Definition adjust_state (g : TileMap) (a : bool * Z * list Diag) : AdjustState :=
  {| output := g; success_status := a.1.1;
     collectible_obstacles := a.1.2; printed := a.2 |}.


(** One iteration of [AdjustObstacles] on the variables other than the
    grid, reading a grid [g] that stays as it is. *)
Definition adjust_step (w h : Z) (g : TileMap) (a : bool * Z * list Diag)
    (p : Z * Z) : bool * Z * list Diag :=
  adjust_aux (AdjustObstacles_cell w h p.1 p.2 (adjust_state g a)).

Definition is_reject (v : Verdict) : bool :=
  match v with Reject _ => true | _ => false end.

Definition is_point (v : Verdict) : bool :=
  match v with Point _ => true | _ => false end.

(** The cell breaks a placement rule of [AdjustObstacles]. *)
Definition cell_violation (w h : Z) (g : TileMap) (p : Z * Z) : bool :=
  breakable_bad (cell g p.1 p.2) || is_reject (verdict w h p.1 p.2 g).

(** The cell is a collectible that gets its direction. *)
Definition resolved (w h : Z) (g : TileMap) (p : Z * Z) : bool :=
  is_point (verdict w h p.1 p.2 g).

Definition resolved_count (w h : Z) (g : TileMap) (l : list (Z * Z)) : Z :=
  Z.of_nat (length (List.filter (resolved w h g) l)).

(** What [AdjustObstacles] prints for one cell, [count] collectibles having
    been counted before it. *)
Definition cell_diags (w h : Z) (g : TileMap) (count : Z) (p : Z * Z)
  : list Diag :=
  (if breakable_bad (cell g p.1 p.2)
   then [BreakableNeedsCollision p.2 p.1] else [])
  ++ match verdict w h p.1 p.2 g with
     | Keep => []
     | Reject d => [d]
     | Point _ =>
         if count + 1 >? kMaxCollectibleObstacles
         then [TooManyCollectibles p.2 p.1] else []
     end.

Fixpoint diags_from (w h : Z) (g : TileMap) (count : Z) (l : list (Z * Z))
  : list Diag :=
  match l with
  | [] => []
  | p :: l =>
      cell_diags w h g count p
      ++ diags_from w h g (count + Z.b2z (resolved w h g p)) l
  end.

Definition no_diags (ds : list Diag) : bool :=
  match ds with [] => true | _ => false end.


(** ** Images *)

(** [InputImage]: the size of the decoded image and its pixel buffer, one
    [Z] in 0..255 per byte, rows top to bottom. *)
Record InputImage : Type := mkImage
  { image_width : Z;
    image_height : Z;
    pixels : list Z }.

(** [PNG_IMAGE_SAMPLE_SIZE] of the two formats: gray and alpha (the source
    asserts 2), and red, green, blue and alpha. *)
Definition kBytesPerPixelGA : Z := 2.
Definition kBytesPerPixelRGBA : Z := 4.

(** The byte at an offset of the pixel buffer; the source reads inside the
    buffer only, the model reads 0 outside. *)
Definition byte_at (source : InputImage) (off : Z) : Z :=
  if off <? 0 then 0 else default 0 (pixels source !! Z.to_nat off).

(** [GenericBlock<bpp>::GetPixel] of the block at [(x, y)]: the [bpp] bytes
    of the pixel packed little-endian, as an unsigned 32-bit value. *)
Definition GetPixel (bpp : Z) (source : InputImage) (x y bx by_ : Z) : Z :=
  let row_size := image_width source * bpp in
  let base := (y + by_) * row_size + (x + bx) * bpp in
  foldl (fun p i => Z.lor p (Z.shiftl (byte_at source (base + i)) (i * 8)))
        0 (seqZ 0 bpp).

(** ** Annotation *)

(** A [MetadataBlock]: its source and the pixel offset of the tile. *)
Record MetadataBlock : Type := mkBlock
  { source : InputImage; block_x : Z; block_y : Z }.

Definition metadata_pixel (block : MetadataBlock) (bx by_ : Z) : Z :=
  GetPixel kBytesPerPixelRGBA (source block) (block_x block) (block_y block)
           bx by_.

Definition IsOpaque (block : MetadataBlock) (bx by_ : Z) : bool :=
  negb (Z.land (metadata_pixel block bx by_) 0xff000000 =? 0).

Definition IsBreakable (block : MetadataBlock) (bx by_ : Z) : bool :=
  let pixel := metadata_pixel block bx by_ in
  (Z.land pixel 0x0000ff >? 0x00007f)
  && (Z.land pixel 0x00ff00 <? 0x008000)
  && (Z.land pixel 0xff0000 <? 0x800000).

Definition IsCollectible (block : MetadataBlock) (bx by_ : Z) : bool :=
  let pixel := metadata_pixel block bx by_ in
  (Z.land pixel 0x0000ff <? 0x000080)
  && (Z.land pixel 0x00ff00 >? 0x007f00)
  && (Z.land pixel 0xff0000 <? 0x800000).

Definition IsStartingPosition (block : MetadataBlock) (bx by_ : Z) : bool :=
  let pixel := metadata_pixel block bx by_ in
  (Z.land pixel 0x0000ff <? 0x000080)
  && (Z.land pixel 0x00ff00 <? 0x008000)
  && (Z.land pixel 0xff0000 >? 0x7f0000).

Definition IsThrowableTile (block : MetadataBlock) (bx by_ : Z) : bool :=
  let pixel := metadata_pixel block bx by_ in
  (Z.land pixel 0x0000ff >? 0x00007f)
  && (Z.land pixel 0x00ff00 >? 0x007f00)
  && (Z.land pixel 0xff0000 <? 0x800000).

Definition IsChainReactionTrigger (block : MetadataBlock) (bx by_ : Z) : bool :=
  let pixel := metadata_pixel block bx by_ in
  (Z.land pixel 0x0000ff <? 0x000080)
  && (Z.land pixel 0x00ff00 >? 0x007f00)
  && (Z.land pixel 0xff0000 >? 0x7f0000).

Definition IsChainReactionEffect (block : MetadataBlock) (bx by_ : Z) : bool :=
  let pixel := metadata_pixel block bx by_ in
  (Z.land pixel 0x0000ff >? 0x00007f)
  && (Z.land pixel 0x00ff00 <? 0x008000)
  && (Z.land pixel 0xff0000 >? 0x7f0000).

(** The sample points of [ProcessAnnotations]. *)
Definition kMargin : Z := 2.
Definition kLPointX : Z := kMargin.
Definition kLPointY : Z := Z.quot kTileSize 2.
Definition kRPointX : Z := kTileSize - 1 - kMargin.
Definition kRPointY : Z := Z.quot kTileSize 2.
Definition kUPointX : Z := Z.quot kTileSize 2.
Definition kUPointY : Z := kMargin.
Definition kDPointX : Z := Z.quot kTileSize 2.
Definition kDPointY : Z := kTileSize - 1 - kMargin.
Definition kCPointX : Z := Z.quot kTileSize 2.
Definition kCPointY : Z := Z.quot kTileSize 2.
Definition kOPointX : Z := Z.quot kTileSize 4 + 1.
Definition kOPointY : Z := Z.quot kTileSize 4 + 1.

(** The occupancy pattern [collision_bits] of a tile. *)
Definition collision_bits (tile : MetadataBlock) : Z :=
  Z.lor (Z.lor (Z.lor (if IsOpaque tile kUPointX kUPointY then 1 else 0)
                      (if IsOpaque tile kDPointX kDPointY then 2 else 0))
               (if IsOpaque tile kLPointX kLPointY then 4 else 0))
        (if IsOpaque tile kRPointX kRPointY then 8 else 0).

(** The [switch] on [collision_bits]; [tile_bits] starts as 0 and the
    [default] branch leaves it so. *)
Definition collision_shape (bits : Z) : Z :=
  if bits =? 0 then kCollisionNone
  else if bits =? 15 then kCollisionSquare
  else if bits =? 5 then kCollisionDownRight
  else if bits =? 9 then kCollisionDownLeft
  else if bits =? 6 then kCollisionUpRight
  else if bits =? 10 then kCollisionUpLeft
  else 0.

(** The output grid and the three position lists of [ProcessAnnotations]. *)
Record Annotated : Type := mkAnnotated
  { grid : TileMap;
    start : PositionList;
    teleport : PositionList;
    throwables : PositionList }.

(** The loop body of [ProcessAnnotations] for the tile at pixel [(x, y)]. *)
Definition ProcessAnnotations_tile (input : InputImage) (x y : Z)
    (st : Annotated) : Annotated :=
  let tile := {| source := input; block_x := x; block_y := y |} in
  let tile_bits := collision_shape (collision_bits tile) in
  let start' :=
    if IsStartingPosition tile kRPointX kRPointY
    then start st ++ [(x + kTileSize - 1, y + Z.quot kTileSize 2)]
    else start st in
  let teleport' :=
    if IsStartingPosition tile kUPointX kUPointY
    then teleport st ++ [(x + Z.quot kTileSize 2, y)]
    else teleport st in
  let '(tile_bits, throwables') :=
    if IsBreakable tile kCPointX kCPointY then
      (if IsBreakable tile kOPointX kOPointY
       then Z.lor tile_bits kGhostCollisionTile
       else Z.lor tile_bits kBreakableTile, throwables st)
    else if IsCollectible tile kCPointX kCPointY then
      (if IsCollectible tile kOPointX kOPointY
       then Z.lor tile_bits (Z.lor kCollectibleTileMask kTerminalReaction)
       else Z.lor tile_bits kCollectibleTileMask, throwables st)
    else if IsThrowableTile tile kCPointX kCPointY then
      (tile_bits,
       throwables st ++ [(x + Z.quot kTileSize 2, y + Z.quot kTileSize 2)])
    else if IsChainReactionTrigger tile kCPointX kCPointY then
      (if IsChainReactionTrigger tile kOPointX kOPointY
       then Z.lor tile_bits kTerminalReaction
       else Z.lor tile_bits kChainReaction, throwables st)
    else if IsChainReactionEffect tile kCPointX kCPointY then
      (if IsChainReactionEffect tile kOPointX kOPointY
       then Z.lor tile_bits (Z.lor kTerminalReaction kBreakableTile)
       else Z.lor tile_bits (Z.lor kChainReaction kBreakableTile),
       throwables st)
    else (tile_bits, throwables st) in
  {| grid := set_cell (grid st) (Z.quot x kTileSize) (Z.quot y kTileSize)
                      tile_bits;
     start := start';
     teleport := teleport';
     throwables := throwables' |}.

(** The number of iterations of [for(v = 0; v < n; v += kTileSize)]. *)
Definition tile_steps (n : Z) : Z := (n + kTileSize - 1) / kTileSize.

(** [ProcessAnnotations]: the loops step over the pixel offsets of the
    tiles, [tx * kTileSize] and [ty * kTileSize]. *)
Definition ProcessAnnotations (input : InputImage) (st : Annotated)
  : Annotated :=
  raster_loop (tile_steps (image_width input)) (tile_steps (image_height input))
    (fun tx ty => ProcessAnnotations_tile input (tx * kTileSize) (ty * kTileSize))
    st.

(** ** The metadata layer *)

(** What [ProcessMetadataImage] returns and leaves behind: its result, the
    grid, the position lists, and what was printed. *)
Record MetadataResult : Type := mkMetadataResult
  { m_ok : bool;
    m_output : TileMap;
    m_start : PositionList;
    m_teleport : PositionList;
    m_throwables : PositionList;
    m_printed : list Diag }.

(** [ProcessMetadataImage].  The [&&] chain of the source evaluates a check
    only when all checks before it returned true.  The map is a fresh one
    ([main] makes one per layer). *)
Definition ProcessMetadataImage (input : InputImage)
    (start0 teleport0 throwables0 : PositionList) : MetadataResult :=
  let a := ProcessAnnotations input
             {| grid := ResizeOutput (image_width input) (image_height input);
                start := start0; teleport := teleport0;
                throwables := throwables0 |} in
  let grid_width := Z.quot (image_width input) kTileSize in
  let grid_height := Z.quot (image_height input) kTileSize in
  let mounted := DetectMountPoints grid_width grid_height (grid a) in
  let adjusted := AdjustObstacles grid_width grid_height mounted in
  let result ok g log :=
    {| m_ok := ok; m_output := g; m_start := start a;
       m_teleport := teleport a; m_throwables := throwables a;
       m_printed := log |} in
  let g := output adjusted in
  if negb (success_status adjusted) then result false g (printed adjusted)
  else
    let s := CheckStartingPoints (start a) g in
    let log := printed adjusted ++ check_printed s in
    if negb (check_status s) then result false g log
    else
      let t := CheckTeleportPoints (teleport a) g in
      let log := log ++ check_printed t in
      if negb (check_status t) then result false g log
      else
        let r := CheckTerminalReactions grid_width grid_height g in
        let log := log ++ check_printed r in
        if negb (check_status r) then result false g log
        else
          let '(ok, g) := RemoveGhosts grid_width grid_height g in
          result ok g log.


(** The bits that the colour of the centre and off-centre samples adds to
    a tile, whatever its collision shape. *)
Definition special_tags (tile : MetadataBlock) : Z :=
  if IsBreakable tile kCPointX kCPointY then
    if IsBreakable tile kOPointX kOPointY
    then kGhostCollisionTile else kBreakableTile
  else if IsCollectible tile kCPointX kCPointY then
    if IsCollectible tile kOPointX kOPointY
    then Z.lor kCollectibleTileMask kTerminalReaction
    else kCollectibleTileMask
  else if IsThrowableTile tile kCPointX kCPointY then 0
  else if IsChainReactionTrigger tile kCPointX kCPointY then
    if IsChainReactionTrigger tile kOPointX kOPointY
    then kTerminalReaction else kChainReaction
  else if IsChainReactionEffect tile kCPointX kCPointY then
    if IsChainReactionEffect tile kOPointX kOPointY
    then Z.lor kTerminalReaction kBreakableTile
    else Z.lor kChainReaction kBreakableTile
  else 0.

(** The six occupancy patterns that [ProcessAnnotations] recognizes. *)
Definition recognized_patterns : list Z := [0; 15; 5; 9; 6; 10].

(** The tile of [input] at tile coordinates [(tx, ty)]. *)
Definition tile_at (input : InputImage) (tx ty : Z) : MetadataBlock :=
  {| source := input; block_x := tx * kTileSize; block_y := ty * kTileSize |}.

(** The image is made of whole tiles: [main] refuses any other. *)
Definition whole_tiles (input : InputImage) (gw gh : Z) : Prop :=
  0 <= gw /\ 0 <= gh
  /\ image_width input = gw * kTileSize /\ image_height input = gh * kTileSize.


(** An image given by a function from pixel coordinates to the bytes of
    the pixel. *)
Definition paint (w h : Z) (px : Z -> Z -> list Z) : InputImage :=
  {| image_width := w; image_height := h;
     pixels := y ← seqZ 0 h; x ← seqZ 0 w; px x y |}.

(** A fresh state for [ProcessAnnotations] on [input]. *)
Definition blank_annotated (input : InputImage) : Annotated :=
  {| grid := ResizeOutput (image_width input) (image_height input);
     start := []; teleport := []; throwables := [] |}.

(** One metadata tile, transparent but for an opaque red pixel at the top
    sample point: the occupancy pattern is 1. *)
Definition top_dot : InputImage :=
  paint 32 32 (fun x y => if (x =? 16) && (y =? 2)
                          then [255; 0; 0; 255] else [0; 0; 0; 0]).


(** *** Violations, read off the grid *)

(** The tile of a starting position lacks the mounts it needs. *)
Definition bad_start (g : TileMap) (p : Z * Z) : bool :=
  let tile_x := Z.quot p.1 kTileSize in
  let tile_y := Z.quot (p.2 - Z.quot kTileSize 2) kTileSize in
  let mounts := Z.land (cell g tile_x tile_y) kMountMask in
  negb (mounts =? kMountRight) && negb (mounts =? Z.lor kMountLeft kMountRight).

Definition start_diag (p : Z * Z) : Diag :=
  NoMountAt (Z.quot (p.2 - Z.quot kTileSize 2) kTileSize)
            (Z.quot p.1 kTileSize) p.1 p.2.

(** The tile of a teleport station lacks the mounts it needs. *)
Definition bad_teleport (g : TileMap) (p : Z * Z) : bool :=
  let tile_x := Z.quot (p.1 - Z.quot kTileSize 2) kTileSize in
  let tile_y := Z.quot p.2 kTileSize in
  let mounts := Z.land (cell g tile_x tile_y) kMountMask in
  negb (mounts =? kMountUp) && negb (mounts =? Z.lor kMountUp kMountDown).

Definition teleport_diag (p : Z * Z) : Diag :=
  NoMountAt (Z.quot p.2 kTileSize)
            (Z.quot (p.1 - Z.quot kTileSize 2) kTileSize) p.1 p.2.

(** The diagnostics of each check, one per violation, in scan order. *)
Definition obstacle_violations (w h : Z) (g : TileMap) : list Diag :=
  diags_from w h g 0 (raster w h).

Definition start_violations (g : TileMap) (l : PositionList) : list Diag :=
  List.map start_diag (List.filter (bad_start g) l).

Definition teleport_violations (g : TileMap) (l : PositionList) : list Diag :=
  List.map teleport_diag (List.filter (bad_teleport g) l).

Definition terminal_violations (w h : Z) (g : TileMap) : list Diag :=
  List.map (fun p => TerminalNeedsChain p.2 p.1)
           (List.filter (lonely_terminal w h g) (raster w h)).

(** The diagnostics of the first group that has any. *)
Fixpoint first_failure (groups : list (list Diag)) : list Diag :=
  match groups with
  | [] => []
  | ds :: rest => if no_diags ds then first_failure rest else ds
  end.

(** The grid that the validator receives for [input]: annotated, then
    mount detection. *)
Definition mounted_grid (input : InputImage)
    (start0 teleport0 throwables0 : PositionList) : TileMap :=
  DetectMountPoints (Z.quot (image_width input) kTileSize)
    (Z.quot (image_height input) kTileSize)
    (grid (ProcessAnnotations input
             {| grid := ResizeOutput (image_width input) (image_height input);
                start := start0; teleport := teleport0;
                throwables := throwables0 |})).

(** A 3x3 metadata image, all transparent: the tile in the top left corner
    is cyan all over (a terminal-reaction tile), the centre tile has a
    green centre pixel (a collectible). *)
Definition lonely_pair : InputImage :=
  paint 96 96
    (fun x y =>
       if (x <? 32) && (y <? 32) then [0; 255; 255; 0]
       else if (x =? 48) && (y =? 48) then [0; 255; 0; 0]
       else [0; 0; 0; 0]).


(** ** Tile indexing *)

(** [TileBlock::Pixels]: the rows of a tile, each a view of
    [kTileSize * bpp] bytes of the pixel buffer. *)
Abbreviation Pixels := (list (list Z)).

(** [GenericBlock<bpp>::GetPixels] of the block at pixel [(x, y)]. *)
Definition GetPixels (bpp : Z) (source : InputImage) (x y : Z) : Pixels :=
  let row_size := image_width source * bpp in
  (fun i =>
     take (Z.to_nat (kTileSize * bpp))
          (drop (Z.to_nat (y * row_size + x * bpp + i * row_size))
                (pixels source)))
  <$> seqZ 0 kTileSize.

(** The inner loop of [IsBlank]: the bytes at odd offsets are the alpha
    channel. *)
Fixpoint row_is_blank (row : list Z) : bool :=
  match row with
  | _ :: alpha :: rest => (alpha =? 0) && row_is_blank rest
  | _ => true
  end.

(** [IsBlank]. *)
Definition IsBlank (pixels : Pixels) : bool := forallb row_is_blank pixels.

(** [TileBlockSet]: the unordered map from tiles to 0-based indices.  Its
    hash and equality are those of the tile's pixel rows, so the key of the
    model is the content itself. *)
Abbreviation TileBlockSet := (gmap (list (list Z)) Z).

(** [unique_tiles->insert(std::make_pair(tile, unique_tiles->size()))]:
    the map after the call, and the index [p.first->second] of the entry
    found or made. *)
Definition insert_tile (tile : Pixels) (unique_tiles : TileBlockSet)
  : TileBlockSet * Z :=
  let tile_index := Z.of_nat (size unique_tiles) in
  match unique_tiles !! tile with
  | Some i => (unique_tiles, i)
  | None => (<[tile := tile_index]> unique_tiles, tile_index)
  end.

(** The loop body of [ProcessImage] for the tile at pixel [(x, y)]. *)
Definition ProcessImage_tile (input : InputImage) (x y : Z)
    (st : TileBlockSet * TileMap) : TileBlockSet * TileMap :=
  let pixels := GetPixels kBytesPerPixelGA input x y in
  if IsBlank pixels
  then (st.1, set_cell st.2 (Z.quot x kTileSize) (Z.quot y kTileSize) kBlankTile)
  else
    let p := insert_tile pixels st.1 in
    (p.1, set_cell st.2 (Z.quot x kTileSize) (Z.quot y kTileSize) (p.2 + 1)).

(** [ProcessImage]: the table after the image, and the image's grid. *)
Definition ProcessImage (input : InputImage) (unique_tiles : TileBlockSet)
  : TileBlockSet * TileMap :=
  raster_loop (tile_steps (image_width input)) (tile_steps (image_height input))
    (fun tx ty => ProcessImage_tile input (tx * kTileSize) (ty * kTileSize))
    (unique_tiles, ResizeOutput (image_width input) (image_height input)).

(** The loop of [main] over the art layers, in input order: the shared
    table, and the grid of each layer. *)
Definition ProcessImages (inputs : list InputImage)
  : TileBlockSet * list TileMap :=
  foldl (fun acc input =>
           let r := ProcessImage input acc.1 in (r.1, acc.2 ++ [r.2]))
        (∅, []) inputs.

(** The art tile of [input] at tile coordinates [(tx, ty)]. *)
Definition art_tile (input : InputImage) (p : Z * Z) : Pixels :=
  GetPixels kBytesPerPixelGA input (p.1 * kTileSize) (p.2 * kTileSize).

(** The tiles of an image of [gw] by [gh] tiles, in raster order, and
    those of a list of such images, in input order. *)
Definition tiles_of (gw gh : Z) (input : InputImage) : list Pixels :=
  art_tile input <$> raster gw gh.

Definition tile_stream (gw gh : Z) (inputs : list InputImage) : list Pixels :=
  inputs ≫= tiles_of gw gh.

(** The distinct elements of a list, in the order of their first
    occurrence. *)
Definition see {A : Type} `{EqDecision A} (seen : list A) (a : A) : list A :=
  if decide (a ∈ seen) then seen else seen ++ [a].

Definition first_seen {A : Type} `{EqDecision A} (l : list A) : list A :=
  foldl see [] l.

Definition nonblank (l : list Pixels) : list Pixels :=
  List.filter (fun k => negb (IsBlank k)) l.

(** The table numbers the tiles [ks] by position. *)
Definition numbered (tbl : TileBlockSet) (ks : list Pixels) : Prop :=
  NoDup ks /\ size tbl = length ks
  /\ forall k i, tbl !! k = Some i <-> (0 <= i /\ ks !! Z.to_nat i = Some k).

(** The table after the tiles of a stream, blank ones skipped. *)
Definition intern_stream (tbl : TileBlockSet) (cs : list Pixels) : TileBlockSet :=
  foldl (fun t k => if IsBlank k then t else (insert_tile k t).1) tbl cs.

(** One iteration of the loop of [ProcessImages]. *)
Definition ProcessImages_step (acc : TileBlockSet * list TileMap)
    (input : InputImage) : TileBlockSet * list TileMap :=
  let r := ProcessImage input acc.1 in (r.1, acc.2 ++ [r.2]).

(** Two art layers of two tiles each: one fully transparent, one with the
    same opaque pattern in both tiles. *)
Definition clear_layer : InputImage :=
  paint 64 32 (fun x y => [0; 0]).

Definition twin_layer : InputImage :=
  paint 64 32 (fun x y => [(x mod 32 + y) mod 256; 255]).

(** The alpha byte of the pixel at pixel coordinates [(px, py)] of a
    gray-alpha image: the second of its two bytes. *)
Definition alpha_at (input : InputImage) (px py : Z) : Z :=
  byte_at input
    (py * (image_width input * kBytesPerPixelGA) + px * kBytesPerPixelGA + 1).

(** Every pixel of the tile at tile coordinates [(tx, ty)] has alpha 0. *)
Definition transparent_tile (input : InputImage) (tx ty : Z) : bool :=
  forallb (fun by_ =>
             forallb (fun bx =>
                        alpha_at input (tx * kTileSize + bx)
                                       (ty * kTileSize + by_) =? 0)
                     (seqZ 0 kTileSize))
          (seqZ 0 kTileSize).


(** ** Serialization of an art layer *)

(** A row has a cell that is not blank. *)
Definition row_has_tile (row : list Z) : bool :=
  existsb (fun cell => negb (cell =? kBlankTile)) row.

(** The loop of [IndexOfLastRow], from [row] down to 1. *)
Fixpoint IndexOfLastRow_from (tiles : TileMap) (row : nat) : Z :=
  match row with
  | O => 0
  | S below =>
      if row_has_tile (default [] (tiles !! row)) then Z.of_nat row
      else IndexOfLastRow_from tiles below
  end.

(** [IndexOfLastRow]. *)
Definition IndexOfLastRow (tiles : TileMap) : Z :=
  IndexOfLastRow_from tiles (length tiles - 1).

(** A C++ [int]: the value of a 32-bit two's complement result. *)
Definition int32 (z : Z) : Z := (z + 2 ^ 31) mod 2 ^ 32 - 2 ^ 31.

(** [TableWriter]: the values written so far and the buffered tile.  The
    member [text_row_size_] only places line breaks in the text and is left
    out. *)
Record TableWriter : Type := mkWriter
  { written : list Z;
    value_pair_buffer_ : Z }.

Definition Write (value : Z) (t : TableWriter) : TableWriter :=
  {| written := written t ++ [value];
     value_pair_buffer_ := value_pair_buffer_ t |}.

Definition FlushBufferedNonblankValue (t : TableWriter) : TableWriter :=
  if negb (value_pair_buffer_ t =? 0)
  then {| written := written t ++ [value_pair_buffer_ t];
          value_pair_buffer_ := 0 |}
  else t.

Definition WriteBlankRun (count : Z) (t : TableWriter) : TableWriter :=
  Write (- count) (FlushBufferedNonblankValue t).

Definition WriteNonblankTile (tile : Z) (t : TableWriter) : TableWriter :=
  if value_pair_buffer_ t =? 0
  then {| written := written t; value_pair_buffer_ := tile |}
  else {| written :=
            written t
            ++ [int32 (Z.lor (Z.shiftl (value_pair_buffer_ t) 16) tile)];
          value_pair_buffer_ := 0 |}.

Definition Flush (t : TableWriter) : TableWriter :=
  FlushBufferedNonblankValue t.

(** The longest run of blank cells the packer accepts: the loop asserts
    [blank_count < 0x7fff] before it counts a blank cell. *)
Definition kMaxBlankRun : Z := 0x7fff.

(** The loop body of [WriteTileTable] for one cell, on the writer and
    [blank_count]; [None] is the failed assertion. *)
Definition pack_cell (st : option (TableWriter * Z)) (cell : Z)
  : option (TableWriter * Z) :=
  match st with
  | None => None
  | Some (output_table, blank_count) =>
      if cell =? kBlankTile then
        if blank_count <? kMaxBlankRun
        then Some (output_table, blank_count + 1)
        else None
      else
        let '(output_table, blank_count) :=
          if blank_count >? 0
          then (WriteBlankRun blank_count output_table, 0)
          else (output_table, blank_count) in
        Some (WriteNonblankTile cell output_table, blank_count)
  end.

(** The cells that [WriteTileTable] scans: the rows up to the last one
    that has a tile. *)
Definition scanned_cells (tiles : TileMap) : list Z :=
  concat (take (Z.to_nat (IndexOfLastRow tiles + 1)) tiles).

(** [WriteTileTable]: the cell count written in the header, and the
    entries of the table, or [None] when the assertion fails. *)
Definition WriteTileTable (tiles : TileMap) : Z * option (list Z) :=
  let scan_limit := IndexOfLastRow tiles + 1 in
  let header := scan_limit * Z.of_nat (length (default [] (head tiles))) in
  (header,
   match foldl pack_cell (Some ({| written := []; value_pair_buffer_ := 0 |}, 0))
               (scanned_cells tiles) with
   | None => None
   | Some (output_table, blank_count) =>
       let output_table :=
         if blank_count >? 0 then WriteBlankRun blank_count output_table
         else output_table in
       Some (written (Flush output_table))
   end).

(** Modelled from the spec: the unpacker of the packed table is not in the
    source.  A negative value expands to that many blank cells; a value of
    at least 2^16 splits into two indices, high half first; any other
    value is a single index. *)
Definition unpack_entry (v : Z) : list Z :=
  if v <? 0 then replicate (Z.to_nat (- v)) kBlankTile
  else if v >=? 2 ^ 16 then [Z.shiftr v 16; Z.land v 0xffff]
  else [v].

Definition unpack (table : list Z) : list Z := table ≫= unpack_entry.

(** A cell of an art layer: blank, or a 1-based index within the limit. *)
Definition art_cell (c : Z) : Prop :=
  c = kBlankTile \/ 1 <= c <= kMaxTileCount.

(** No run of blank cells, counting [run] blank cells before the list, is
    longer than [limit]. *)
Fixpoint runs_within (limit run : Z) (cells : list Z) : bool :=
  match cells with
  | [] => true
  | c :: cells =>
      if c =? kBlankTile
      then (run <? limit) && runs_within limit (run + 1) cells
      else runs_within limit 0 cells
  end.

(** What a writer state stands for: the cells packed so far. *)
Definition unpacked_state (st : TableWriter * Z) : list Z :=
  unpack (written st.1)
  ++ (if value_pair_buffer_ st.1 =? 0 then [] else [value_pair_buffer_ st.1])
  ++ replicate (Z.to_nat st.2) kBlankTile.

(** Indices 3, 5, 7 followed by 40 blank cells, in rows of 43. *)
Definition three_then_blank : TileMap :=
  [ [3; 5; 7] ++ replicate 40 kBlankTile ].

(** Three rows of 16384 cells, blank but for the very last cell. *)
Definition long_blank_run : TileMap :=
  [ replicate (Z.to_nat 16384) kBlankTile;
    replicate (Z.to_nat 16384) kBlankTile;
    replicate (Z.to_nat 16383) kBlankTile ++ [1] ].

(** The writer state is sound: the buffer is empty or holds an index, and
    the count of blank cells is not negative. *)
Definition good_state (st : TableWriter * Z) : Prop :=
  (value_pair_buffer_ st.1 = 0 \/ 1 <= value_pair_buffer_ st.1 <= kMaxTileCount)
  /\ 0 <= st.2.

(** Every cell of the grid is blank. *)
Definition all_blank (tiles : TileMap) : Prop :=
  Forall (Forall (fun c => c = kBlankTile)) tiles.

(** An all-blank layer of 3 by 2 cells, and one of a single row of 32768. *)
Definition blank_layer : TileMap := replicate 2 (replicate 3 kBlankTile).

Definition wide_blank_layer : TileMap :=
  [ replicate (Z.to_nat 32768) kBlankTile ].


(** What [CheckStartingPoints] asserts of a starting position: it is the
    right-edge midpoint of a tile of the grid. *)
Definition start_asserts (gw gh : Z) (p : Z * Z) : Prop :=
  Z.rem p.1 kTileSize = kTileSize - 1
  /\ Z.rem p.2 kTileSize = Z.quot kTileSize 2
  /\ 0 <= Z.quot (p.2 - Z.quot kTileSize 2) kTileSize < gh
  /\ 0 <= Z.quot p.1 kTileSize < gw.

(** What [CheckTeleportPoints] asserts of a teleport station: it is the
    top-edge midpoint of a tile of the grid. *)
Definition teleport_asserts (gw gh : Z) (p : Z * Z) : Prop :=
  Z.rem p.1 kTileSize = Z.quot kTileSize 2
  /\ Z.rem p.2 kTileSize = 0
  /\ 0 <= Z.quot p.2 kTileSize < gh
  /\ 0 <= Z.quot (p.1 - Z.quot kTileSize 2) kTileSize < gw.


(** ** Further definitions for mount detection *)




(** ** Map statistics *)



(** A 3x3 grid: a breakable cell without collision bits in the centre. *)
Definition loose_breakable : TileMap :=
  [ [0; 0; 0];
    [0; 8; 0];
    [0; 0; 0] ].

(** A 3x3 grid: a collectible in the top left corner. *)
Definition corner_collectible : TileMap :=
  [ [0xF00; 0; 0];
    [0; 0; 0];
    [0; 0; 0] ].


(** A 3x3 metadata image: the tile on the left of the middle row is opaque
    all over (a square) and the centre tile has a green centre pixel (a
    collectible); the rest is transparent. *)
Definition walled_item : InputImage :=
  paint 96 96
    (fun x y =>
       if (x <? 32) && (32 <=? y) && (y <? 64) then [0; 0; 0; 255]
       else if (x =? 48) && (y =? 48) then [0; 255; 0; 0]
       else [0; 0; 0; 0]).


(** ** Colours and positions of annotations *)

(** The top bit of each of the three colour channels of a pixel. *)
Definition kChannelTopBits : Z := 0x808080.

(** The six colour predicates, in the order of the summary in the source:
    red, green, blue, yellow, cyan, magenta. *)
Definition color_classes (block : MetadataBlock) (bx by_ : Z) : list bool :=
  [ IsBreakable block bx by_; IsCollectible block bx by_;
    IsStartingPosition block bx by_; IsThrowableTile block bx by_;
    IsChainReactionTrigger block bx by_; IsChainReactionEffect block bx by_ ].

(** The positions that [ProcessAnnotations] records for the tile at tile
    coordinates [p]: a starting position at the middle of its right edge, a
    teleport station at the middle of its top edge, a throwable at its
    centre. *)
Definition start_of (p : Z * Z) : Z * Z :=
  (p.1 * kTileSize + kTileSize - 1, p.2 * kTileSize + Z.quot kTileSize 2).

Definition teleport_of (p : Z * Z) : Z * Z :=
  (p.1 * kTileSize + Z.quot kTileSize 2, p.2 * kTileSize).

Definition throwable_of (p : Z * Z) : Z * Z :=
  (p.1 * kTileSize + Z.quot kTileSize 2, p.2 * kTileSize + Z.quot kTileSize 2).

(** The values of the tag bits and of the collision shape that annotation
    can give a cell. *)
Definition annotation_tags : list Z :=
  [ 0; kBreakableTile; kGhostCollisionTile;
    kCollectibleTileMask; Z.lor kCollectibleTileMask kTerminalReaction;
    kChainReaction; kTerminalReaction;
    Z.lor kChainReaction kBreakableTile;
    Z.lor kTerminalReaction kBreakableTile ].

Definition annotation_shapes : list Z :=
  [ kCollisionNone; kCollisionSquare; kCollisionUpLeft; kCollisionUpRight;
    kCollisionDownLeft; kCollisionDownRight ].

(** A 2x1 metadata image, all transparent: the first tile is blue at the
    right sample point, the second is yellow at the centre. *)
Definition start_and_ball : InputImage :=
  paint 64 32
    (fun x y =>
       if (x =? 29) && (y =? 16) then [0; 0; 255; 0]
       else if (x =? 48) && (y =? 16) then [255; 255; 0; 0]
       else [0; 0; 0; 0]).


(** ** The shape of a packed table *)

(** An entry of the packed table: a run of blank cells (the negated
    count), a single index, or a pair of indices. *)
Definition table_entry (v : Z) : Prop :=
  (- kMaxBlankRun <= v <= -1) \/ (1 <= v <= kMaxTileCount)
  \/ (2 ^ 16 <= v < 2 ^ 31).

(** The entries a writer state stands for: those written, the buffered
    index, and the run of blank cells being counted. *)
Definition pending (st : TableWriter * Z) : Z :=
  Z.of_nat (length (written st.1))
  + (if value_pair_buffer_ st.1 =? 0 then 0 else 1)
  + (if st.2 >? 0 then 1 else 0).

(** The packed table of [three_then_blank]: the pair of 3 and 5, the
    single 7, the run of 40 blank cells. *)
Definition three_then_blank_table : list Z := [196613; 7; -40].

(** A layer of two rows with a tile in the first row only. *)
Definition top_heavy : TileMap := [ [1; kBlankTile]; [kBlankTile; kBlankTile] ].


(** ** The image table *)

(** [kBytesPerRow] of [WriteOutputImageTable]: the bytes of one row of
    pixels of the output image. *)
Definition kBytesPerRow : Z := kTileSize * kTilesPerRow * kBytesPerPixelGA.

(** [memcpy(pixels + off, src.data(), src.size())] into the output buffer.
    In the source a copy that leaves the buffer is undefined; the model
    writes the bytes that fit. *)
Definition memcpy (dst : list Z) (off : Z) (src : list Z) : list Z :=
  list_inserts (Z.to_nat off) src dst.

(** The body of the loop over the table of [WriteOutputImageTable] for one
    entry, a tile's rows and its index; [%] and [/] on [int] are [Z.rem]
    and [Z.quot]. *)
Definition copy_tile (pixels : list Z) (entry : Pixels * Z) : list Z :=
  let tile_rows := entry.1 in
  let index := entry.2 in
  let x0 := Z.rem index kTilesPerRow * kTileSize in
  let y0 := Z.quot index kTilesPerRow * kTileSize in
  for_loop (Z.of_nat (length tile_rows))
    (fun y px =>
       memcpy px ((y0 + y) * kBytesPerRow + x0 * kBytesPerPixelGA)
              (default [] (tile_rows !! Z.to_nat y)))
    pixels.

(** The height of the output image for [count] tiles. *)
Definition atlas_height (count : Z) : Z :=
  Z.quot (count + kTilesPerRow - 1) kTilesPerRow * kTileSize.

(** The image that [WriteOutputImageTable] hands to the PNG writer, the
    entries of the table being visited in the order [order]: a buffer of
    zero bytes with every tile copied in. *)
Definition atlas (order : list (Pixels * Z)) (count : Z) : InputImage :=
  let width := kTileSize * kTilesPerRow in
  let height := atlas_height count in
  {| image_width := width;
     image_height := height;
     pixels :=
       foldl copy_tile
         (replicate (Z.to_nat (width * height * kBytesPerPixelGA)) 0) order |}.

(** [WriteOutputImageTable], up to the writing of the file.  The order in
    which an [unordered_map] is visited is not specified; the model visits
    the entries in the order of [map_to_list]. *)
Definition WriteOutputImageTable (tiles : TileBlockSet) : InputImage :=
  atlas (map_to_list tiles) (Z.of_nat (size tiles)).

(** A tile as [GetPixels] returns it from a buffer that holds all of it:
    [kTileSize] rows of [kTileSize] gray-alpha pixels. *)
Definition tile_shaped (tile : Pixels) : Prop :=
  Z.of_nat (length tile) = kTileSize
  /\ Forall (fun row : list Z =>
               Z.of_nat (length row) = kTileSize * kBytesPerPixelGA) tile.

(** The offset in the output buffer of byte [j] of row [r] of the tile
    with index [index]. *)
Definition atlas_offset (index r j : Z) : Z :=
  (Z.quot index kTilesPerRow * kTileSize + r) * kBytesPerRow
  + Z.rem index kTilesPerRow * kTileSize * kBytesPerPixelGA + j.

(** The pixel buffer of the image holds all its pixels. *)
Definition full_buffer (input : InputImage) : Prop :=
  Z.of_nat (length (pixels input))
  = image_width input * image_height input * kBytesPerPixelGA.


(** A gray-alpha layer of 2 by 1 tiles with two different opaque tiles. *)
Definition two_tile_layer : InputImage :=
  paint 64 32 (fun x y => [(x + y) mod 256; 255]).


(** ** File names and layer names *)

(** A [std::string], or the [std::string_view] of one: its characters. *)
Abbreviation Name := (list ascii).

(** [s.rfind(c)]: the last position of the character [c] in [s]; [None]
    is [npos]. *)
Fixpoint rfind (c : ascii) (s : Name) : option nat :=
  match s with
  | [] => None
  | a :: rest =>
      match rfind c rest with
      | Some n => Some (S n)
      | None => if Ascii.eqb a c then Some 0%nat else None
      end
  end.

(** [s] begins with the characters of [needle]. *)
Fixpoint starts_with (needle s : Name) : bool :=
  match needle, s with
  | [], _ => true
  | _ :: _, [] => false
  | a :: needle', b :: s' => Ascii.eqb a b && starts_with needle' s'
  end.

(** [s.find(needle)]: the first position at which [needle] occurs in [s];
    [None] is [npos]. *)
Fixpoint find (needle s : Name) : option nat :=
  if starts_with needle s then Some 0%nat
  else match s with
       | [] => None
       | _ :: rest => S <$> find needle rest
       end.

(** The marker of a metadata layer. *)
Definition kMetadata : Name := ["m"; "e"; "t"; "a"; "d"; "a"; "t"; "a"]%char.

(** [IsMetadataFile]. *)
Definition IsMetadataFile (filename : Name) : bool :=
  match find kMetadata filename with
  | Some _ => true
  | None => false
  end.

(** [GenerateLayerName]: [erase(d)] keeps the first [d] characters,
    [erase(0, s + 1)] drops the first [s + 1]. *)
Definition GenerateLayerName (filename : Name) : Name :=
  let filename :=
    match rfind "."%char filename with
    | Some d => take d filename
    | None => filename
    end in
  match rfind "/"%char filename with
  | Some s => drop (s + 1) filename
  | None => filename
  end.

(** The path [world/metadata.png]. *)
Definition metadata_path : Name :=
  ["w"; "o"; "r"; "l"; "d"; "/"; "m"; "e"; "t"; "a"; "d"; "a"; "t"; "a";
   "."; "p"; "n"; "g"]%char.
(** * Properties *)

(** ** Cells *)

Lemma rect_lookup w h t (x y : Z) :
  rect w h t -> 0 <= x < w -> 0 <= y < h ->
  exists row, t !! Z.to_nat y = Some row /\ Z.of_nat (length row) = w
              /\ is_Some (row !! Z.to_nat x).
Proof.
  intros [Hh Hw] Hx Hy.
  destruct (lookup_lt_is_Some_2 t (Z.to_nat y)) as [row Hrow]; [lia|].
  exists row. split; [done|].
  pose proof (proj1 (Forall_lookup _ _) Hw _ _ Hrow) as Hlen; simpl in Hlen.
  split; [done|]. apply lookup_lt_is_Some_2. lia.
Qed.

Lemma rect_set_cell w h t x y v : rect w h t -> rect w h (set_cell t x y v).
Proof.
  intros [Hh Hw]. unfold set_cell.
  destruct ((x <? 0) || (y <? 0)); [done|].
  split; [by rewrite length_alter|].
  apply Forall_lookup. intros i row Hrow.
  destruct (decide (i = Z.to_nat y)) as [->|Hne].
  - rewrite list_lookup_alter_eq in Hrow.
    destruct (t !! Z.to_nat y) as [r|] eqn:Hr; simplify_eq/=.
    rewrite length_insert. exact (proj1 (Forall_lookup _ _) Hw _ _ Hr).
  - rewrite list_lookup_alter_ne in Hrow by done.
    exact (proj1 (Forall_lookup _ _) Hw _ _ Hrow).
Qed.

Lemma cell_set_cell_eq w h t x y v :
  rect w h t -> 0 <= x < w -> 0 <= y < h -> cell (set_cell t x y v) x y = v.
Proof.
  intros Hr Hx Hy.
  destruct (rect_lookup _ _ _ _ _ Hr Hx Hy) as (row & Hrow & _ & Hc).
  unfold cell, set_cell.
  replace ((x <? 0) || (y <? 0)) with false
    by (symmetry; apply orb_false_iff; split; apply Z.ltb_ge; lia).
  rewrite list_lookup_alter_eq, Hrow. simpl.
  rewrite list_lookup_insert_eq; [done|]. by apply lookup_lt_is_Some.
Qed.

Lemma cell_set_cell_ne t x y v x' y' :
  (x', y') <> (x, y) -> cell (set_cell t x y v) x' y' = cell t x' y'.
Proof.
  intros Hne. unfold cell, set_cell.
  destruct ((x' <? 0) || (y' <? 0)) eqn:Hneg'; [done|].
  destruct ((x <? 0) || (y <? 0)) eqn:Hneg; [done|].
  apply orb_false_iff in Hneg' as [Hx' Hy'], Hneg as [Hx Hy].
  apply Z.ltb_ge in Hx', Hy', Hx, Hy.
  destruct (decide (Z.to_nat y = Z.to_nat y')) as [Hy_eq|Hy_ne].
  - rewrite <- Hy_eq, list_lookup_alter_eq.
    destruct (t !! Z.to_nat y) as [row|]; [|done]. simpl.
    rewrite list_lookup_insert_ne; [done|].
    intros Hx_eq. apply Hne. f_equal; lia.
  - by rewrite list_lookup_alter_ne.
Qed.

Lemma cell_outside w h t x y :
  rect w h t -> ~ (0 <= x < w /\ 0 <= y < h) -> cell t x y = 0.
Proof.
  intros [Hh Hw] Hout. unfold cell.
  destruct ((x <? 0) || (y <? 0)) eqn:Hneg; [done|].
  apply orb_false_iff in Hneg as [Hx Hy]. apply Z.ltb_ge in Hx, Hy.
  destruct (t !! Z.to_nat y) as [row|] eqn:Hrow; [|done].
  pose proof (proj1 (Forall_lookup _ _) Hw _ _ Hrow) as Hlen; simpl in Hlen.
  apply lookup_lt_Some in Hrow.
  rewrite lookup_ge_None_2; [done|]. lia.
Qed.

Ltac concrete_grid := split; [reflexivity | repeat constructor].

(** ** Raster scans *)

Lemma foldl_ext {A B : Type} (f g : A -> B -> A) l a :
  (forall a b, f a b = g a b) -> foldl f a l = foldl g a l.
Proof.
  intros Hfg. revert a. induction l as [|b l IH]; intros a; [done|].
  simpl. by rewrite Hfg, IH.
Qed.

Lemma run_cells_cons {S : Type} (body : Z -> Z -> S -> S) x y l s :
  run_cells body ((x, y) :: l) s = run_cells body l (body x y s).
Proof. done. Qed.

Lemma run_cells_app {S : Type} (body : Z -> Z -> S -> S) l1 l2 s :
  run_cells body (l1 ++ l2) s = run_cells body l2 (run_cells body l1 s).
Proof. apply foldl_app. Qed.

Lemma raster_loop_run {S : Type} w h (body : Z -> Z -> S -> S) s :
  raster_loop w h body s = run_cells body (raster w h) s.
Proof.
  unfold raster_loop, raster, for_loop.
  generalize (seqZ 0 h) as ys. intros ys. revert s.
  induction ys as [|y ys IH]; intros s; [done|].
  simpl. rewrite run_cells_app, IH. f_equal.
  generalize (seqZ 0 w) as xs. intros xs. revert s.
  induction xs as [|x xs IHx]; intros s; [done|].
  rewrite fmap_cons, run_cells_cons. simpl. apply IHx.
Qed.

Lemma elem_of_raster w h x y :
  (x, y) ∈ raster w h <-> 0 <= x < w /\ 0 <= y < h.
Proof.
  unfold raster. rewrite list_elem_of_bind. split.
  - intros (y' & Hx & Hy). apply list_elem_of_fmap in Hx as (x' & Heq & Hx).
    simplify_eq. apply elem_of_seqZ in Hx, Hy. lia.
  - intros [Hx Hy]. exists y. split; [|apply elem_of_seqZ; lia].
    apply list_elem_of_fmap. exists x. split; [done|]. apply elem_of_seqZ; lia.
Qed.

Lemma NoDup_raster w h : NoDup (raster w h).
Proof.
  unfold raster. generalize (NoDup_seqZ 0 h). generalize (seqZ 0 h) as ys.
  induction ys as [|y ys IH]; intros Hnd; [constructor|].
  apply NoDup_cons in Hnd as [Hy Hnd]. simpl.
  apply NoDup_app. split; [|split; [|by apply IH]].
  - apply NoDup_fmap_2; [|apply NoDup_seqZ]. intros a b Hab. by simplify_eq.
  - intros p Hp Hp'. apply list_elem_of_fmap in Hp as (x & -> & _).
    apply list_elem_of_bind in Hp' as (y' & Hp' & Hy').
    apply list_elem_of_fmap in Hp' as (x' & Heq & _). by simplify_eq.
Qed.

Lemma raster_split w h x y :
  0 <= x < w -> 0 <= y < h ->
  exists l1 l2, raster w h = l1 ++ (x, y) :: l2 /\ ((x, y) ∉ l1) /\ ((x, y) ∉ l2).
Proof.
  intros Hx Hy.
  destruct (list_elem_of_split (raster w h) (x, y)) as (l1 & l2 & Heq);
    [by apply elem_of_raster|].
  exists l1, l2. split; [done|].
  pose proof (NoDup_raster w h) as Hnd. rewrite Heq in Hnd.
  apply NoDup_app in Hnd as (_ & Hdisj & Hnd2).
  apply NoDup_cons in Hnd2 as [Hnot2 _].
  split; [|done]. intros Hin. apply (Hdisj _ Hin). left.
Qed.

(** A pass over the grid whose body rewrites only its own cell, and reads
    of the other cells only a [view] that no iteration changes: every cell
    ends as one application of the body to the initial grid leaves it. *)
Section Pass.
Context {St : Type}.
Variable grid : St -> TileMap.
Variables w h : Z.
Variable body : Z -> Z -> St -> St.
Variable view : Z -> Z.

Hypothesis body_rect : forall x y st,
  rect w h (grid st) -> rect w h (grid (body x y st)).
Hypothesis body_frame : forall x y st x' y',
  (x', y') <> (x, y) -> cell (grid (body x y st)) x' y' = cell (grid st) x' y'.
Hypothesis body_view : forall x y st,
  rect w h (grid st) -> 0 <= x < w -> 0 <= y < h ->
  view (cell (grid (body x y st)) x y) = view (cell (grid st) x y).
Hypothesis body_local : forall x y st st0,
  rect w h (grid st) -> rect w h (grid st0) ->
  0 <= x < w -> 0 <= y < h ->
  same_view view (grid st) (grid st0) ->
  cell (grid st) x y = cell (grid st0) x y ->
  cell (grid (body x y st)) x y = cell (grid (body x y st0)) x y.

Lemma run_rect l st :
  rect w h (grid st) -> rect w h (grid (run_cells body l st)).
Proof.
  revert st. induction l as [|[x y] l IH]; intros st Hr; [done|].
  rewrite run_cells_cons. apply IH. by apply body_rect.
Qed.

Lemma run_frame l st x y :
  (x, y) ∉ l -> cell (grid (run_cells body l st)) x y = cell (grid st) x y.
Proof.
  revert st. induction l as [|[x' y'] l IH]; intros st Hnot; [done|].
  apply not_elem_of_cons in Hnot as [Hne Hnot].
  rewrite run_cells_cons, IH by done. by apply body_frame.
Qed.

Lemma body_same_view x y st :
  rect w h (grid st) -> same_view view (grid (body x y st)) (grid st).
Proof.
  intros Hr x' y'. destruct (decide ((x', y') = (x, y))) as [Heq|Hne].
  - simplify_eq.
    destruct (decide (0 <= x < w /\ 0 <= y < h)) as [[Hx Hy]|Hout].
    + by apply body_view.
    + rewrite !(cell_outside w h) by (try apply body_rect; done). done.
  - by rewrite body_frame.
Qed.

Lemma run_same_view l st :
  rect w h (grid st) -> same_view view (grid (run_cells body l st)) (grid st).
Proof.
  revert st. induction l as [|[x y] l IH]; intros st Hr; [done|].
  intros x' y'. rewrite run_cells_cons.
  rewrite IH by by apply body_rect. by apply body_same_view.
Qed.

Lemma pass_rect st :
  rect w h (grid st) -> rect w h (grid (raster_loop w h body st)).
Proof. rewrite raster_loop_run. apply run_rect. Qed.

Lemma pass_same_view st :
  rect w h (grid st) ->
  same_view view (grid (raster_loop w h body st)) (grid st).
Proof. rewrite raster_loop_run. apply run_same_view. Qed.

Lemma pass_cell st x y :
  rect w h (grid st) -> 0 <= x < w -> 0 <= y < h ->
  cell (grid (raster_loop w h body st)) x y = cell (grid (body x y st)) x y.
Proof.
  intros Hr Hx Hy. rewrite raster_loop_run.
  destruct (raster_split w h x y Hx Hy) as (l1 & l2 & -> & Hn1 & Hn2).
  rewrite run_cells_app, run_cells_cons, run_frame by done.
  apply body_local; [by apply run_rect|done|done|done|by apply run_same_view|].
  by apply run_frame.
Qed.

Lemma pass_cell_outside st x y :
  ~ (0 <= x < w /\ 0 <= y < h) ->
  cell (grid (raster_loop w h body st)) x y = cell (grid st) x y.
Proof.
  intros Hout. rewrite raster_loop_run. apply run_frame.
  by rewrite elem_of_raster.
Qed.
End Pass.

(** ** Bit groups *)

Lemma land_lnot_disjoint t m k :
  Z.land k m = 0 -> Z.land (Z.land t (Z.lnot m)) k = Z.land t k.
Proof.
  intros Hkm. apply Z.bits_inj'. intros n Hn.
  rewrite !Z.land_spec, Z.lnot_spec by done.
  assert (Z.testbit k n && Z.testbit m n = false) as Hb
    by (rewrite <- Z.land_spec, Hkm; apply Z.bits_0).
  destruct (Z.testbit t n), (Z.testbit k n), (Z.testbit m n); done.
Qed.

Lemma land_lnot_same t m : Z.land (Z.land t (Z.lnot m)) m = 0.
Proof.
  apply Z.bits_inj'. intros n Hn.
  rewrite !Z.land_spec, Z.lnot_spec, Z.bits_0 by done.
  destruct (Z.testbit t n), (Z.testbit m n); done.
Qed.

Lemma land_lnot_within t m k :
  Z.land k (Z.lnot m) = 0 -> Z.land (Z.land t (Z.lnot m)) k = 0.
Proof.
  intros Hkm. apply Z.bits_inj'. intros n Hn.
  rewrite !Z.land_spec, Z.lnot_spec, Z.bits_0 by done.
  assert (Z.testbit k n && negb (Z.testbit m n) = false) as Hb
    by (rewrite <- Z.lnot_spec, <- Z.land_spec, Hkm by done; apply Z.bits_0).
  destruct (Z.testbit t n), (Z.testbit k n), (Z.testbit m n); done.
Qed.

Lemma lor_land_disjoint t m k :
  Z.land m k = 0 -> Z.land (Z.lor t m) k = Z.land t k.
Proof.
  intros Hmk. apply Z.bits_inj'. intros n Hn.
  rewrite !Z.land_spec, Z.lor_spec.
  assert (Z.testbit m n && Z.testbit k n = false) as Hb
    by (rewrite <- Z.land_spec, Hmk; apply Z.bits_0).
  destruct (Z.testbit t n), (Z.testbit k n), (Z.testbit m n); done.
Qed.

(** ** Ghost cleanup *)

Lemma RemoveGhosts_cell_rect w h x y g :
  rect w h g -> rect w h (RemoveGhosts_cell x y g).
Proof.
  intros Hr. unfold RemoveGhosts_cell.
  destruct (negb _); [by apply rect_set_cell|done].
Qed.

Lemma RemoveGhosts_cell_frame x y g x' y' :
  (x', y') <> (x, y) -> cell (RemoveGhosts_cell x y g) x' y' = cell g x' y'.
Proof.
  intros Hne. unfold RemoveGhosts_cell.
  destruct (negb _); [by apply cell_set_cell_ne|done].
Qed.

Lemma RemoveGhosts_cell_eq w h x y g :
  rect w h g -> 0 <= x < w -> 0 <= y < h ->
  cell (RemoveGhosts_cell x y g) x y =
  if Z.land (cell g x y) kGhostCollisionTile =? 0 then cell g x y
  else Z.land (cell g x y) (Z.lnot (Z.lor kGhostCollisionTile kCollisionMask)).
Proof.
  intros Hr Hx Hy. unfold RemoveGhosts_cell.
  destruct (Z.land (cell g x y) kGhostCollisionTile =? 0); simpl; [done|].
  by rewrite (cell_set_cell_eq w h).
Qed.

Lemma RemoveGhosts_cell_final w h g x y :
  rect w h g -> 0 <= x < w -> 0 <= y < h ->
  cell (RemoveGhosts w h g).2 x y = cell (RemoveGhosts_cell x y g) x y.
Proof.
  intros Hr Hx Hy. unfold RemoveGhosts. simpl.
  apply (pass_cell (fun g : TileMap => g) w h RemoveGhosts_cell (fun _ => 0));
    try done.
  - intros; by apply RemoveGhosts_cell_rect.
  - intros; by apply RemoveGhosts_cell_frame.
  - intros x0 y0 st st0 Hr1 Hr0 Hx0 Hy0 _ Heq.
    by rewrite !(RemoveGhosts_cell_eq w h), Heq.
Qed.

(** C9.  The ghost-cleanup pass always succeeds; a cell carrying the ghost
    flag loses exactly that flag and its collision-shape bits, every other
    bit group of it (mount flags, breakable, collectible directions, chain
    and terminal reaction) and every bit outside the two cleared groups
    keeps its value; a cell without the ghost flag is unchanged. *)
Theorem RemoveGhosts_clears_ghost_shape_only w h g :
  rect w h g ->
  (RemoveGhosts w h g).1 = true /\
  rect w h (RemoveGhosts w h g).2 /\
  forall x y,
    let before := cell g x y in
    let after := cell (RemoveGhosts w h g).2 x y in
    (Z.land before kGhostCollisionTile = 0 -> after = before) /\
    (Z.land before kGhostCollisionTile <> 0 ->
       Z.land after kGhostCollisionTile = 0 /\
       Z.land after kCollisionMask = 0 /\
       Z.land after kMountMask = Z.land before kMountMask /\
       Z.land after kBreakableTile = Z.land before kBreakableTile /\
       Z.land after kCollectibleTileMask = Z.land before kCollectibleTileMask /\
       Z.land after kChainReaction = Z.land before kChainReaction /\
       Z.land after kTerminalReaction = Z.land before kTerminalReaction /\
       forall n, Z.testbit (Z.lor kGhostCollisionTile kCollisionMask) n = false ->
                 Z.testbit after n = Z.testbit before n).
Proof.
  intros Hr. split; [done|]. split.
  { unfold RemoveGhosts. simpl.
    apply (pass_rect (fun g : TileMap => g) w h RemoveGhosts_cell); [|done].
    intros; by apply RemoveGhosts_cell_rect. }
  intros x y before after. subst before after.
  destruct (decide (0 <= x < w /\ 0 <= y < h)) as [[Hx Hy]|Hout].
  - rewrite (RemoveGhosts_cell_final w h), (RemoveGhosts_cell_eq w h) by done.
    split.
    + intros ->. done.
    + intros Hg. apply Z.eqb_neq in Hg. rewrite Hg.
      repeat split; try (by apply land_lnot_disjoint).
      * by apply land_lnot_within.
      * by apply land_lnot_within.
      * intros n Hn. destruct (decide (0 <= n)) as [Hn0|Hn0].
        -- rewrite Z.land_spec, Z.lnot_spec, Hn by done. simpl.
           apply andb_true_r.
        -- rewrite !Z.testbit_neg_r by lia. done.
  - assert (cell (RemoveGhosts w h g).2 x y = cell g x y) as ->.
    { unfold RemoveGhosts. simpl.
      apply (pass_cell_outside (fun g : TileMap => g) w h RemoveGhosts_cell);
        [|done].
      intros; by apply RemoveGhosts_cell_frame. }
    split; [done|]. intros Hg.
    rewrite (cell_outside w h) in * by done. done.
Qed.

Lemma RemoveGhosts_clears_ghost_shape_only_witness :
  rect 2 1 ghost_row /\
  (RemoveGhosts 2 1 ghost_row).1 = true /\
  rect 2 1 (RemoveGhosts 2 1 ghost_row).2 /\
  forall x y,
    let before := cell ghost_row x y in
    let after := cell (RemoveGhosts 2 1 ghost_row).2 x y in
    (Z.land before kGhostCollisionTile = 0 -> after = before) /\
    (Z.land before kGhostCollisionTile <> 0 ->
       Z.land after kGhostCollisionTile = 0 /\
       Z.land after kCollisionMask = 0 /\
       Z.land after kMountMask = Z.land before kMountMask /\
       Z.land after kBreakableTile = Z.land before kBreakableTile /\
       Z.land after kCollectibleTileMask = Z.land before kCollectibleTileMask /\
       Z.land after kChainReaction = Z.land before kChainReaction /\
       Z.land after kTerminalReaction = Z.land before kTerminalReaction /\
       forall n, Z.testbit (Z.lor kGhostCollisionTile kCollisionMask) n = false ->
                 Z.testbit after n = Z.testbit before n).
Proof.
  split; [concrete_grid|].
  apply (RemoveGhosts_clears_ghost_shape_only 2 1 ghost_row). concrete_grid.
Defined.

(** ** Mount detection *)

Lemma AssignMountAttributes_unfold m dx dy w h x y g :
  AssignMountAttributes m dx dy w h x y g =
  if mountable g w h x y dx dy
  then set_cell g x y (Z.lor (cell g x y) m) else g.
Proof.
  unfold AssignMountAttributes, mountable.
  destruct (IS_EMPTY_OR_BREAKABLE g w h x y dx dy); [|done].
  destruct (IS_EMPTY_OR_BREAKABLE g w h x y (dx * 2) (dy * 2)); [|done].
  cbv zeta. simpl.
  destruct (_ && _ && _ && _); [|done]. simpl.
  destruct ((dx =? 0) || (dy =? 0)); [done|]. simpl.
  by destruct (_ && _ && _ && _).
Qed.

Lemma shape_view_collision t :
  Z.land t kCollisionMask = Z.land (shape_view t) kCollisionMask.
Proof. unfold shape_view. by rewrite <- Z.land_assoc. Qed.

Lemma shape_view_breakable t :
  Z.land t kBreakableTile = Z.land (shape_view t) kBreakableTile.
Proof. unfold shape_view. by rewrite <- Z.land_assoc. Qed.

Lemma IsEmptyOrBreakable_ext g g0 w h x y :
  same_view shape_view g g0 ->
  IsEmptyOrBreakable g w h x y = IsEmptyOrBreakable g0 w h x y.
Proof.
  intros Hv. unfold IsEmptyOrBreakable.
  rewrite (shape_view_collision (cell g x y)), (shape_view_breakable (cell g x y)).
  rewrite (shape_view_collision (cell g0 x y)), (shape_view_breakable (cell g0 x y)).
  by rewrite (Hv x y).
Qed.

Lemma NEIGHBOR_COLLISION_ext g g0 w h x y dx dy :
  same_view shape_view g g0 ->
  NEIGHBOR_COLLISION g w h x y dx dy = NEIGHBOR_COLLISION g0 w h x y dx dy.
Proof.
  intros Hv. unfold NEIGHBOR_COLLISION.
  rewrite (shape_view_collision (cell g _ _)), (shape_view_collision (cell g0 _ _)).
  by rewrite (Hv _ _).
Qed.

Lemma mountable_ext g g0 w h x y dx dy :
  same_view shape_view g g0 ->
  mountable g w h x y dx dy = mountable g0 w h x y dx dy.
Proof.
  intros Hv. unfold mountable, HAS_ENOUGH_CLEARANCE, IS_EMPTY_OR_BREAKABLE.
  rewrite !(IsEmptyOrBreakable_ext g g0) by done.
  rewrite !(NEIGHBOR_COLLISION_ext g g0) by done.
  rewrite (shape_view_collision (cell g x y)), (shape_view_collision (cell g0 x y)).
  by rewrite (Hv x y).
Qed.

Section AssignMount.
Variables w h x y : Z.
Hypothesis Hx : 0 <= x < w.
Hypothesis Hy : 0 <= y < h.

Lemma AssignMountAttributes_rect m dx dy g :
  rect w h g -> rect w h (AssignMountAttributes m dx dy w h x y g).
Proof.
  intros Hr. rewrite AssignMountAttributes_unfold.
  destruct (mountable _ _ _ _ _ _ _); [by apply rect_set_cell|done].
Qed.

Lemma AssignMountAttributes_frame m dx dy g x' y' :
  (x', y') <> (x, y) ->
  cell (AssignMountAttributes m dx dy w h x y g) x' y' = cell g x' y'.
Proof.
  intros Hne. rewrite AssignMountAttributes_unfold.
  destruct (mountable _ _ _ _ _ _ _); [by apply cell_set_cell_ne|done].
Qed.

Lemma AssignMountAttributes_cell m dx dy g g0 :
  rect w h g -> same_view shape_view g g0 ->
  cell (AssignMountAttributes m dx dy w h x y g) x y =
  if mountable g0 w h x y dx dy then Z.lor (cell g x y) m else cell g x y.
Proof.
  intros Hr Hv. rewrite AssignMountAttributes_unfold, (mountable_ext g g0) by done.
  destruct (mountable _ _ _ _ _ _ _); [by apply (cell_set_cell_eq w h)|done].
Qed.

Lemma AssignMountAttributes_view m dx dy g g0 :
  rect w h g -> Z.land m (Z.lor kCollisionMask kBreakableTile) = 0 ->
  same_view shape_view g g0 ->
  same_view shape_view (AssignMountAttributes m dx dy w h x y g) g0.
Proof.
  intros Hr Hm Hv x' y'. rewrite <- (Hv x' y').
  destruct (decide ((x', y') = (x, y))) as [Heq|Hne].
  - simplify_eq. rewrite (AssignMountAttributes_cell _ _ _ g g) by done.
    destruct (mountable _ _ _ _ _ _ _); [|done].
    unfold shape_view. by apply lor_land_disjoint.
  - by rewrite AssignMountAttributes_frame.
Qed.
End AssignMount.

Lemma DetectMountPoints_cell_rect w h x y g :
  rect w h g -> rect w h (DetectMountPoints_cell w h x y g).
Proof.
  intros Hr. unfold DetectMountPoints_cell.
  repeat case_match; auto using AssignMountAttributes_rect.
Qed.

Lemma DetectMountPoints_cell_frame w h x y g x' y' :
  (x', y') <> (x, y) -> cell (DetectMountPoints_cell w h x y g) x' y' = cell g x' y'.
Proof.
  intros Hne. unfold DetectMountPoints_cell.
  repeat case_match; rewrite ?AssignMountAttributes_frame; done.
Qed.

Lemma same_view_refl view g : same_view view g g.
Proof. done. Qed.

Lemma DetectMountPoints_cell_same_view w h x y g g0 :
  rect w h g -> 0 <= x < w -> 0 <= y < h ->
  same_view shape_view g g0 ->
  same_view shape_view (DetectMountPoints_cell w h x y g) g0.
Proof.
  intros Hr Hx Hy Hv. unfold DetectMountPoints_cell.
  repeat case_match; try done;
    repeat (apply AssignMountAttributes_view; try done;
            auto using AssignMountAttributes_rect).
Qed.

Ltac mount_side :=
  repeat first
    [ done
    | apply AssignMountAttributes_rect
    | apply AssignMountAttributes_view ].

Lemma DetectMountPoints_cell_value w h x y g g0 :
  rect w h g -> 0 <= x < w -> 0 <= y < h ->
  same_view shape_view g g0 ->
  cell (DetectMountPoints_cell w h x y g) x y = detect_value g0 w h x y (cell g x y).
Proof.
  intros Hr Hx Hy Hv. unfold DetectMountPoints_cell, detect_value. cbv zeta.
  destruct (negb _); [done|].
  repeat (destruct (_ =? _); [try done|]); [..|done];
    by rewrite !(AssignMountAttributes_cell w h x y Hx Hy _ _ _ _ g0)
      by mount_side.
Qed.

Lemma DetectMountPoints_rect w h g :
  rect w h g -> rect w h (DetectMountPoints w h g).
Proof.
  apply (pass_rect (fun g : TileMap => g) w h (DetectMountPoints_cell w h)).
  intros; by apply DetectMountPoints_cell_rect.
Qed.

Lemma DetectMountPoints_cell_final w h g x y :
  rect w h g -> 0 <= x < w -> 0 <= y < h ->
  cell (DetectMountPoints w h g) x y = detect_value g w h x y (cell g x y).
Proof.
  intros Hr Hx Hy. unfold DetectMountPoints.
  rewrite (pass_cell (fun g : TileMap => g) w h (DetectMountPoints_cell w h) shape_view);
    try done.
  - by apply DetectMountPoints_cell_value.
  - intros; by apply DetectMountPoints_cell_rect.
  - intros; by apply DetectMountPoints_cell_frame.
  - intros x0 y0 st Hr0 Hx0 Hy0.
    by apply (DetectMountPoints_cell_same_view w h x0 y0 st st).
  - intros x0 y0 st st0 Hr1 Hr0 Hx0 Hy0 Hv Heq.
    rewrite (DetectMountPoints_cell_value w h x0 y0 st st0) by done.
    rewrite (DetectMountPoints_cell_value w h x0 y0 st0 st0) by done.
    by rewrite Heq.
Qed.


Lemma IsEmptyOrBreakable_coords g w h a b a' b' :
  a = a' -> b = b' -> IsEmptyOrBreakable g w h a b = IsEmptyOrBreakable g w h a' b'.
Proof. by intros -> ->. Qed.

Lemma mountable_axis g w h x y d :
  mountable g w h x y (normal d).1 (normal d).2 = square_mountable g w h x y d.
Proof.
  unfold mountable, square_mountable, same_shape_beside, clear_ahead,
    HAS_ENOUGH_CLEARANCE, IS_EMPTY_OR_BREAKABLE.
  destruct d; simpl normal; cbn [fst snd]; cbv zeta;
    rewrite ?orb_true_r; simpl (_ || _); rewrite ?andb_true_r;
    repeat match goal with
      | |- andb _ _ = andb _ _ => apply (f_equal2 andb)
      | |- IsEmptyOrBreakable _ _ _ _ _ = _ =>
          apply IsEmptyOrBreakable_coords; lia
      | |- _ => reflexivity
      end.
Qed.

Lemma mount_bit_clear t d :
  Z.land t kMountMask = 0 -> Z.land t (mount_bit d) = 0.
Proof.
  intros Ht.
  replace (mount_bit d) with (Z.land kMountMask (mount_bit d)) by by destruct d.
  by rewrite Z.land_assoc, Ht.
Qed.

(** C1, as the code has it.  In a grid of the six shapes whose mount bits
    are still clear, a square cell that is not breakable gets the mount bit
    of an axis direction exactly when the two cells stepping outward along
    it are both empty or breakable and, besides, each of its two lateral
    neighbours (the normal turned by a quarter either way) lies in the
    grid, has the square shape too, and has the same two cells of
    clearance in front of it. *)
Theorem square_mount_bit_iff w h g x y d :
  rect w h g -> shapes_ok g ->
  0 <= x < w -> 0 <= y < h ->
  Z.land (cell g x y) kCollisionMask = kCollisionSquare ->
  Z.land (cell g x y) kBreakableTile = 0 ->
  Z.land (cell g x y) kMountMask = 0 ->
  Z.land (cell (DetectMountPoints w h g) x y) (mount_bit d) <> 0
  <-> square_mountable g w h x y d = true.
Proof.
  intros Hr _ Hx Hy Hsq Hbr Hmt.
  rewrite DetectMountPoints_cell_final by done.
  unfold detect_value. rewrite Hbr, Hsq. cbn [negb Z.eqb kCollisionSquare
    kCollisionNone Pos.eqb]. cbv zeta.
  change (mountable g w h x y 0 (-1)) with
    (mountable g w h x y (normal Up).1 (normal Up).2).
  change (mountable g w h x y 0 1) with
    (mountable g w h x y (normal Down).1 (normal Down).2).
  change (mountable g w h x y (-1) 0) with
    (mountable g w h x y (normal Left).1 (normal Left).2).
  change (mountable g w h x y 1 0) with
    (mountable g w h x y (normal Right).1 (normal Right).2).
  rewrite !mountable_axis.
  pose proof (mount_bit_clear _ d Hmt) as Hd.
  rewrite <- not_false_iff_true.
  destruct d;
    destruct (square_mountable g w h x y Up),
      (square_mountable g w h x y Down),
      (square_mountable g w h x y Left),
      (square_mountable g w h x y Right);
    rewrite ?Z.land_lor_distr_l, Hd; simpl; split; intros Hne Heq; done.
Qed.

(** A mounted cell always has its two cells of clearance: the direction
    of the claim that does hold. *)
Lemma square_mountable_clear_ahead g w h x y d :
  square_mountable g w h x y d = true -> clear_ahead g w h x y d = true.
Proof.
  unfold square_mountable. intros H.
  by apply andb_true_iff in H as [H _].
Qed.

Lemma square_mount_bit_iff_witness :
  Z.land (cell (DetectMountPoints 5 5 short_wall) 2 2) (mount_bit Up) <> 0
  <-> square_mountable short_wall 5 5 2 2 Up = true.
Proof.
  apply (square_mount_bit_iff 5 5 short_wall 2 2 Up);
    [ concrete_grid | repeat constructor; vm_compute; discriminate
    | lia | lia | reflexivity | reflexivity | reflexivity ].
Defined.

(** C1, as the spec words it, fails: clearance in front is not enough.  A
    lone square with empty cells all around has two empty cells above it
    and still gets no mount bit, because its lateral neighbours are not
    squares. *)
Lemma square_mount_iff_clear_ahead_fails :
  ~ (forall w h g x y d,
       rect w h g -> 0 <= x < w -> 0 <= y < h ->
       Z.land (cell g x y) kCollisionMask = kCollisionSquare ->
       Z.land (cell g x y) kBreakableTile = 0 ->
       (Z.land (cell (DetectMountPoints w h g) x y) (mount_bit d) <> 0
        <-> clear_ahead g w h x y d = true)).
Proof.
  intros H.
  destruct (H 5 5 lone_square 2 2 Up) as [_ Hset];
    [concrete_grid | lia | lia | reflexivity | reflexivity |].
  apply Hset; reflexivity.
Qed.

(** ** Checks that only read the grid *)

Lemma foldl_check_each {A : Type} (bad : A -> bool) (diag : A -> Diag) l st :
  foldl (check_each bad diag) st l =
  {| check_status := check_status st && forallb (fun a => negb (bad a)) l;
     check_printed := check_printed st ++ List.map diag (List.filter bad l) |}.
Proof.
  revert st. induction l as [|a l IH]; intros st.
  - simpl. rewrite andb_true_r, app_nil_r. by destruct st.
  - simpl. rewrite IH. unfold check_each.
    destruct (bad a); simpl; [|done].
    by rewrite andb_false_r, <- app_assoc.
Qed.

Lemma forallb_negb_filter {A : Type} (bad : A -> bool) l :
  forallb (fun a => negb (bad a)) l = true <-> List.filter bad l = [].
Proof.
  induction l as [|a l IH]; simpl; [done|].
  destruct (bad a); simpl; [split; intros; done|done].
Qed.

Lemma CheckTerminalReactions_eq w h g :
  CheckTerminalReactions w h g =
  {| check_status := forallb (fun p => negb (lonely_terminal w h g p)) (raster w h);
     check_printed :=
       List.map (fun p => TerminalNeedsChain p.2 p.1)
                (List.filter (lonely_terminal w h g) (raster w h)) |}.
Proof.
  unfold CheckTerminalReactions. rewrite raster_loop_run. unfold run_cells.
  transitivity (foldl (check_each (lonely_terminal w h g)
                         (fun p => TerminalNeedsChain p.2 p.1))
                      check_start (raster w h));
    [|by rewrite foldl_check_each].
  apply foldl_ext. intros st [x y].
  unfold CheckTerminalReactions_cell, check_each, lonely_terminal. simpl.
  by destruct (negb (Z.land _ _ =? 0)), (negb (adjacent_to_chain_reaction _ _ _ _ _)).
Qed.

Lemma adjacent_to_chain_reaction_spec w h g x y :
  0 <= x < w -> 0 <= y < h ->
  adjacent_to_chain_reaction w h g x y = true <-> chain_neighbor w h g x y.
Proof.
  intros Hx Hy. unfold adjacent_to_chain_reaction, chain_neighbor.
  rewrite !orb_true_iff, !andb_true_iff, !negb_true_iff, !Z.eqb_neq.
  rewrite !Z.gtb_lt, !Z.ltb_lt. split.
  - intros [[[[Hr Hc]|[Hr Hc]]|[Hr Hc]]|[Hr Hc]].
    + exists x, (y - 1). repeat split; try done; lia.
    + exists x, (y + 1). repeat split; try done; lia.
    + exists (x - 1), y. repeat split; try done; lia.
    + exists (x + 1), y. repeat split; try done; lia.
  - intros (x' & y' & [Hx' Hy'] & Hadj & Hc).
    assert ((x' = x /\ y' = y - 1) \/ (x' = x /\ y' = y + 1)
            \/ (x' = x - 1 /\ y' = y) \/ (x' = x + 1 /\ y' = y))
      as [[-> ->]|[[-> ->]|[[-> ->]|[-> ->]]]] by lia.
    + left; left; left. split; [lia|done].
    + left; left; right. split; [lia|done].
    + left; right. split; [lia|done].
    + right. split; [lia|done].
Qed.

Lemma lonely_terminal_spec w h g x y :
  0 <= x < w -> 0 <= y < h ->
  lonely_terminal w h g (x, y) = true <->
  Z.land (cell g x y) kTerminalReaction <> 0 /\ ~ chain_neighbor w h g x y.
Proof.
  intros Hx Hy. unfold lonely_terminal. simpl.
  rewrite andb_true_iff, !negb_true_iff, Z.eqb_neq.
  rewrite <- (adjacent_to_chain_reaction_spec w h g x y Hx Hy).
  by rewrite not_true_iff_false.
Qed.

(** C5.  [CheckTerminalReactions] succeeds exactly when every cell of the
    grid that carries the terminal-reaction flag has a cell of the grid
    orthogonally next to it that carries the chain-reaction flag; every
    terminal-reaction cell without such a neighbour is reported, and
    nothing else is. *)
Theorem CheckTerminalReactions_correct w h g :
  let r := CheckTerminalReactions w h g in
  (check_status r = true <->
     forall x y, 0 <= x < w -> 0 <= y < h ->
       Z.land (cell g x y) kTerminalReaction <> 0 -> chain_neighbor w h g x y)
  /\ (forall x y, 0 <= x < w -> 0 <= y < h ->
        Z.land (cell g x y) kTerminalReaction <> 0 ->
        ~ chain_neighbor w h g x y ->
        TerminalNeedsChain y x ∈ check_printed r)
  /\ (forall d, d ∈ check_printed r ->
        exists x y, d = TerminalNeedsChain y x /\ 0 <= x < w /\ 0 <= y < h
          /\ Z.land (cell g x y) kTerminalReaction <> 0
          /\ ~ chain_neighbor w h g x y).
Proof.
  intros r. subst r. rewrite CheckTerminalReactions_eq. simpl.
  split; [|split].
  - rewrite forallb_forall. split.
    + intros Hall x y Hx Hy Hterm.
      destruct (adjacent_to_chain_reaction w h g x y) eqn:Hadj.
      { by apply adjacent_to_chain_reaction_spec. }
      assert (In (x, y) (raster w h)) as Hin
        by by apply list_elem_of_In, elem_of_raster.
      specialize (Hall _ Hin). apply negb_true_iff in Hall.
      assert (lonely_terminal w h g (x, y) = true); [|congruence].
      apply lonely_terminal_spec; [done..|]. split; [done|].
      rewrite <- adjacent_to_chain_reaction_spec by done. congruence.
    + intros Hall [x y] Hin.
      apply list_elem_of_In, elem_of_raster in Hin as [Hx Hy].
      apply negb_true_iff, not_true_iff_false.
      intros [Hterm Hnone]%lonely_terminal_spec; [|done..].
      apply Hnone. by apply Hall.
  - intros x y Hx Hy Hterm Hnone.
    apply list_elem_of_In, (in_map (fun p => TerminalNeedsChain p.2 p.1) _ (x, y)).
    apply filter_In. split.
    + by apply list_elem_of_In, elem_of_raster.
    + by apply lonely_terminal_spec.
  - intros d Hd. apply list_elem_of_In, in_map_iff in Hd as ([x y] & <- & Hin).
    apply filter_In in Hin as [Hin Hbad].
    apply list_elem_of_In, elem_of_raster in Hin as [Hx Hy].
    apply lonely_terminal_spec in Hbad as [Hterm Hnone]; [|done..].
    by exists x, y.
Qed.

(** ** Obstacle adjustment *)

Lemma unbreakable_square_bits t :
  Z.land t (Z.lor kBreakableTile kCollisionMask) = kCollisionSquare ->
  Z.land t kCollisionMask = kCollisionSquare /\ Z.land t kBreakableTile = 0.
Proof.
  intros Ht. split.
  - change kCollisionMask with (Z.land (Z.lor kBreakableTile kCollisionMask) kCollisionMask).
    by rewrite Z.land_assoc, Ht.
  - change kBreakableTile with (Z.land (Z.lor kBreakableTile kCollisionMask) kBreakableTile) at 1.
    by rewrite Z.land_assoc, Ht.
Qed.

(** A neighbour is breakable, empty, an unbreakable square, or another
    unbreakable shape. *)
Lemma neighbor_cases g x y dx dy :
  let o := Obstacle.IS_EMPTY_OR_BREAKABLE g x y dx dy in
  let s := Obstacle.IS_UNBREAKABLE_SQUARE g x y dx dy in
  let b := Obstacle.IS_BREAKABLE g x y dx dy in
  (o = true /\ s = false /\ b = true) \/ (o = true /\ s = false /\ b = false)
  \/ (o = false /\ s = true /\ b = false) \/ (o = false /\ s = false /\ b = false).
Proof.
  unfold Obstacle.IS_EMPTY_OR_BREAKABLE, Obstacle.IS_UNBREAKABLE_SQUARE,
    Obstacle.IS_BREAKABLE. cbv zeta.
  generalize (Obstacle.METADATA_BITS g x y dx dy). intros t.
  destruct (Z.land t (Z.lor kBreakableTile kCollisionMask) =? kCollisionSquare)
    eqn:Hs.
  - apply Z.eqb_eq, unbreakable_square_bits in Hs as [-> ->]. simpl. tauto.
  - destruct (Z.land t kCollisionMask =? kCollisionNone),
      (Z.land t kBreakableTile =? 0); simpl; tauto.
Qed.

Lemma collectible_not_breakable t :
  Z.land t (Z.lnot (Z.lor kCollectibleTileMask kTerminalReaction)) = 0 ->
  Z.land t kBreakableTile = 0.
Proof.
  intros Ht.
  rewrite <- (land_lnot_disjoint t (Z.lor kCollectibleTileMask kTerminalReaction))
    by done.
  by rewrite Ht.
Qed.

Ltac neighbor_atoms g x y :=
  let split_cases dx dy :=
    (destruct (neighbor_cases g x y dx dy)
       as [(?&?&?)|[(?&?&?)|[(?&?&?)|(?&?&?)]]]) in
  split_cases (-1) 0; split_cases 1 0; split_cases 0 (-1); split_cases 0 1.

Ltac use_atoms :=
  repeat match goal with
    | H : Obstacle.IS_EMPTY_OR_BREAKABLE _ _ _ _ _ = _ |- _ => rewrite !H
    | H : Obstacle.IS_UNBREAKABLE_SQUARE _ _ _ _ _ = _ |- _ => rewrite !H
    | H : Obstacle.IS_BREAKABLE _ _ _ _ _ = _ |- _ => rewrite !H
    end.

Ltac eval_patterns :=
  unfold wall_pattern, breakable_pattern, wall_at, open_at, breakable_at;
  simpl; use_atoms; simpl.

Ltac resolved_to d :=
  left; exists d; split;
  [ eval_patterns; tauto
  | split;
    [ intros d'; destruct d'; eval_patterns;
      solve [ reflexivity | intros [?|?]; discriminate ]
    | reflexivity ] ].

Ltac rejected :=
  right; split;
  [ intros d; destruct d; eval_patterns; split; reflexivity
  | eexists; split; [|reflexivity]; unfold neighbor_diags; repeat constructor ].


Lemma AdjustObstacles_cell_verdict w h x y st :
  AdjustObstacles_cell w h x y st =
  apply_verdict x y (verdict w h x y (output st))
    (if breakable_bad (cell (output st) x y)
     then report (BreakableNeedsCollision y x) st else st).
Proof.
  unfold AdjustObstacles_cell, verdict, breakable_bad. cbv zeta.
  repeat match goal with
    | |- (if ?c then _ else _) = apply_verdict _ _ (if ?c then _ else _) _ =>
        destruct c
    end; reflexivity.
Qed.

(** The verdict on a collectible cell that overlaps nothing and is off the
    border: either its neighbours fit one pattern, for one side only, and
    the cell is pointed away from that side, or they fit none and one of
    the three diagnostics is reported. *)
Lemma verdict_collectible w h x y g :
  Z.land (cell g x y) kCollectibleTileMask <> 0 ->
  Z.land (cell g x y) (Z.lnot (Z.lor kCollectibleTileMask kTerminalReaction)) = 0 ->
  0 < x < w - 1 -> 0 < y < h - 1 ->
  (exists d,
     (wall_pattern g x y d = true \/ breakable_pattern g x y d = true)
     /\ (forall d',
           wall_pattern g x y d' = true \/ breakable_pattern g x y d' = true ->
           d' = d)
     /\ verdict w h x y g = Point (collectible_bit (opposite d)))
  \/ ((forall d, wall_pattern g x y d = false /\ breakable_pattern g x y d = false)
      /\ exists diag, diag ∈ neighbor_diags x y
           /\ verdict w h x y g = Reject diag).
Proof.
  intros Hcol Hover Hx Hy.
  unfold verdict. cbv zeta.
  rewrite Hover.
  apply Z.eqb_neq in Hcol. rewrite Hcol.
  replace ((x =? 0) || (x =? w - 1) || (y =? 0) || (y =? h - 1)) with false
    by (symmetry; rewrite !orb_false_iff, !Z.eqb_neq; lia).
  cbn [negb andb Z.eqb].
  neighbor_atoms g x y; use_atoms; cbn [Z.b2z Z.add Pos.add Z.eqb Pos.eqb
    Pos.succ negb andb];
    first [ rejected | resolved_to Up | resolved_to Down | resolved_to Left
          | resolved_to Right ].
Qed.


(** The rest of the state of such a pass evolves as if the grid were never
    rewritten, when the body reads the grid through [view] and its own cell
    only. *)
Section PassAux.
Context {St A : Type}.
Variable grid : St -> TileMap.
Variable aux : St -> A.
Variable mk : TileMap -> A -> St.
Variables w h : Z.
Variable body : Z -> Z -> St -> St.
Variable view : Z -> Z.

Hypothesis body_rect : forall x y st,
  rect w h (grid st) -> rect w h (grid (body x y st)).
Hypothesis body_frame : forall x y st x' y',
  (x', y') <> (x, y) -> cell (grid (body x y st)) x' y' = cell (grid st) x' y'.
Hypothesis body_view : forall x y st,
  rect w h (grid st) -> 0 <= x < w -> 0 <= y < h ->
  view (cell (grid (body x y st)) x y) = view (cell (grid st) x y).
Hypothesis body_aux : forall x y st g0,
  rect w h (grid st) -> rect w h g0 -> 0 <= x < w -> 0 <= y < h ->
  same_view view (grid st) g0 -> cell (grid st) x y = cell g0 x y ->
  aux (body x y st) = aux (body x y (mk g0 (aux st))).

Lemma run_aux l st g0 :
  NoDup l -> (forall x y, (x, y) ∈ l -> 0 <= x < w /\ 0 <= y < h) ->
  rect w h (grid st) -> rect w h g0 ->
  same_view view (grid st) g0 ->
  (forall x y, (x, y) ∈ l -> cell (grid st) x y = cell g0 x y) ->
  aux (run_cells body l st) =
  foldl (fun a p => aux (body p.1 p.2 (mk g0 a))) (aux st) l.
Proof.
  revert st. induction l as [|[x y] l IH]; intros st Hnd Hin Hr Hr0 Hv Hc;
    [done|].
  apply NoDup_cons in Hnd as [Hnot Hnd].
  destruct (Hin x y) as [Hx Hy]; [left|].
  rewrite run_cells_cons, IH; try done.
  - simpl. f_equal. apply body_aux; try done. apply Hc. left.
  - intros x' y' Hin'. apply Hin. by right.
  - by apply body_rect.
  - intros x' y'. rewrite <- (Hv x' y').
    by apply (body_same_view grid w h body view).
  - intros x' y' Hin'. rewrite body_frame.
    + apply Hc. by right.
    + intros Heq. simplify_eq. done.
Qed.

Lemma pass_aux st :
  rect w h (grid st) ->
  aux (raster_loop w h body st) =
  foldl (fun a p => aux (body p.1 p.2 (mk (grid st) a))) (aux st) (raster w h).
Proof.
  intros Hr. rewrite raster_loop_run. apply run_aux; try done.
  - apply NoDup_raster.
  - intros x y. apply elem_of_raster.
Qed.
End PassAux.

Lemma keep_view_land t k :
  Z.land k kCollectibleTileMask = 0 -> Z.land t k = Z.land (keep_view t) k.
Proof. intros Hk. unfold keep_view. by rewrite land_lnot_disjoint. Qed.

Lemma keep_view_shape_view g g0 :
  same_view keep_view g g0 -> same_view shape_view g g0.
Proof.
  intros Hv x y. unfold shape_view.
  rewrite (keep_view_land (cell g x y)), (keep_view_land (cell g0 x y)) by done.
  by rewrite (Hv x y).
Qed.

Lemma Obstacle_IS_BREAKABLE_ext g g0 x y dx dy :
  same_view keep_view g g0 ->
  Obstacle.IS_BREAKABLE g x y dx dy = Obstacle.IS_BREAKABLE g0 x y dx dy.
Proof.
  intros Hv. unfold Obstacle.IS_BREAKABLE, Obstacle.METADATA_BITS.
  rewrite (keep_view_land (cell g _ _)), (keep_view_land (cell g0 _ _)) by done.
  by rewrite (Hv _ _).
Qed.

Lemma Obstacle_IS_EMPTY_OR_BREAKABLE_ext g g0 x y dx dy :
  same_view keep_view g g0 ->
  Obstacle.IS_EMPTY_OR_BREAKABLE g x y dx dy
  = Obstacle.IS_EMPTY_OR_BREAKABLE g0 x y dx dy.
Proof.
  intros Hv. unfold Obstacle.IS_EMPTY_OR_BREAKABLE.
  rewrite (Obstacle_IS_BREAKABLE_ext g g0) by done.
  unfold Obstacle.METADATA_BITS.
  rewrite (keep_view_land (cell g _ _)), (keep_view_land (cell g0 _ _)) by done.
  by rewrite (Hv _ _).
Qed.

Lemma Obstacle_IS_UNBREAKABLE_SQUARE_ext g g0 x y dx dy :
  same_view keep_view g g0 ->
  Obstacle.IS_UNBREAKABLE_SQUARE g x y dx dy
  = Obstacle.IS_UNBREAKABLE_SQUARE g0 x y dx dy.
Proof.
  intros Hv. unfold Obstacle.IS_UNBREAKABLE_SQUARE, Obstacle.METADATA_BITS.
  rewrite (keep_view_land (cell g _ _)), (keep_view_land (cell g0 _ _)) by done.
  by rewrite (Hv _ _).
Qed.

Lemma verdict_ext w h x y g g0 :
  same_view keep_view g g0 -> cell g x y = cell g0 x y ->
  verdict w h x y g = verdict w h x y g0.
Proof.
  intros Hv Hc. unfold verdict. rewrite Hc.
  rewrite !(Obstacle_IS_EMPTY_OR_BREAKABLE_ext g g0) by done.
  rewrite !(Obstacle_IS_UNBREAKABLE_SQUARE_ext g g0) by done.
  by rewrite !(Obstacle_IS_BREAKABLE_ext g g0) by done.
Qed.

Lemma verdict_Point w h x y g dir :
  verdict w h x y g = Point dir -> exists d, dir = collectible_bit d.
Proof.
  unfold verdict. cbv zeta.
  repeat match goal with
    | |- (if ?c then _ else _) = _ -> _ => destruct c
    end; intros [=<-];
    first [by exists Up | by exists Down | by exists Left | by exists Right].
Qed.

Lemma output_pre_verdict (b : bool) d st :
  output (if b then report d st else st) = output st.
Proof. by destruct b. Qed.

Lemma output_apply_verdict x y v st :
  output (apply_verdict x y v st) =
  match v with
  | Point dir =>
      set_cell (output st) x y
        (Z.lor (Z.land (cell (output st) x y) (Z.lnot kCollectibleTileMask)) dir)
  | _ => output st
  end.
Proof.
  destruct v; try done. simpl. unfold count_collectible. by case_match.
Qed.

Lemma AdjustObstacles_cell_output w h x y st :
  output (AdjustObstacles_cell w h x y st) =
  match verdict w h x y (output st) with
  | Point dir =>
      set_cell (output st) x y
        (Z.lor (Z.land (cell (output st) x y) (Z.lnot kCollectibleTileMask)) dir)
  | _ => output st
  end.
Proof.
  rewrite AdjustObstacles_cell_verdict, output_apply_verdict.
  by rewrite !output_pre_verdict.
Qed.

Lemma AdjustObstacles_cell_rect w h x y st :
  rect w h (output st) -> rect w h (output (AdjustObstacles_cell w h x y st)).
Proof.
  intros Hr. rewrite AdjustObstacles_cell_output.
  destruct (verdict _ _ _ _ _); try done. by apply rect_set_cell.
Qed.

Lemma AdjustObstacles_cell_frame w h x y st x' y' :
  (x', y') <> (x, y) ->
  cell (output (AdjustObstacles_cell w h x y st)) x' y' = cell (output st) x' y'.
Proof.
  intros Hne. rewrite AdjustObstacles_cell_output.
  destruct (verdict _ _ _ _ _); try done. by apply cell_set_cell_ne.
Qed.

Lemma AdjustObstacles_cell_value w h x y st g0 :
  rect w h (output st) -> 0 <= x < w -> 0 <= y < h ->
  same_view keep_view (output st) g0 -> cell (output st) x y = cell g0 x y ->
  cell (output (AdjustObstacles_cell w h x y st)) x y =
  match verdict w h x y g0 with
  | Point dir => Z.lor (Z.land (cell g0 x y) (Z.lnot kCollectibleTileMask)) dir
  | _ => cell g0 x y
  end.
Proof.
  intros Hr Hx Hy Hv Hc. rewrite AdjustObstacles_cell_output.
  rewrite (verdict_ext w h x y (output st) g0) by done.
  destruct (verdict _ _ _ _ _); try done.
  by rewrite (cell_set_cell_eq w h), Hc.
Qed.

Lemma keep_view_point t d :
  keep_view (Z.lor (Z.land t (Z.lnot kCollectibleTileMask)) (collectible_bit d))
  = keep_view t.
Proof.
  unfold keep_view. rewrite Z.land_lor_distr_l.
  replace (Z.land (collectible_bit d) (Z.lnot kCollectibleTileMask)) with 0
    by by destruct d.
  by rewrite Z.lor_0_r, <- Z.land_assoc, Z.land_diag.
Qed.

Lemma AdjustObstacles_cell_view w h x y st :
  rect w h (output st) -> 0 <= x < w -> 0 <= y < h ->
  keep_view (cell (output (AdjustObstacles_cell w h x y st)) x y)
  = keep_view (cell (output st) x y).
Proof.
  intros Hr Hx Hy.
  rewrite (AdjustObstacles_cell_value w h x y st (output st)) by done.
  destruct (verdict _ _ _ _ _) eqn:Hv; try done.
  apply verdict_Point in Hv as [d ->]. apply keep_view_point.
Qed.

Lemma no_diags_app ds1 ds2 :
  no_diags (ds1 ++ ds2) = no_diags ds1 && no_diags ds2.
Proof. by destruct ds1. Qed.

Lemma no_diags_nil ds : no_diags ds = true <-> ds = [].
Proof. by destruct ds. Qed.

Lemma adjust_step_eq w h g ok c log p :
  adjust_step w h g (ok, c, log) p =
  (ok && no_diags (cell_diags w h g c p),
   c + Z.b2z (resolved w h g p),
   log ++ cell_diags w h g c p).
Proof.
  unfold adjust_step, cell_diags, resolved.
  rewrite AdjustObstacles_cell_verdict. simpl.
  destruct (breakable_bad _), (verdict _ _ _ _ _); simpl;
    unfold count_collectible, adjust_aux; simpl;
    rewrite ?Z.add_0_r, ?app_nil_r, ?andb_true_r, ?andb_false_r,
      <- ?app_assoc; try done;
    by destruct (c + 1 >? kMaxCollectibleObstacles); simpl;
      rewrite ?app_nil_r, ?andb_true_r, ?andb_false_r, <- ?app_assoc.
Qed.

Lemma adjust_fold w h g l ok c log :
  foldl (adjust_step w h g) (ok, c, log) l =
  (ok && no_diags (diags_from w h g c l),
   c + resolved_count w h g l,
   log ++ diags_from w h g c l).
Proof.
  revert ok c log. induction l as [|p l IH]; intros ok c log.
  - unfold resolved_count. simpl.
    by rewrite andb_true_r, Z.add_0_r, app_nil_r.
  - simpl. rewrite adjust_step_eq, IH, no_diags_app, andb_assoc, <- app_assoc.
    f_equal. f_equal. unfold resolved_count. simpl.
    destruct (resolved w h g p); simpl length; simpl Z.b2z; lia.
Qed.

Lemma AdjustObstacles_cell_aux w h x y st g0 :
  same_view keep_view (output st) g0 -> cell (output st) x y = cell g0 x y ->
  adjust_aux (AdjustObstacles_cell w h x y st)
  = adjust_aux (AdjustObstacles_cell w h x y (adjust_state g0 (adjust_aux st))).
Proof.
  intros Hv Hc. rewrite !AdjustObstacles_cell_verdict. simpl.
  rewrite (verdict_ext w h x y (output st) g0), Hc by done.
  destruct st as [g ok c log]. simpl.
  destruct (breakable_bad _), (verdict _ _ _ _ _); simpl; try done;
    unfold count_collectible; simpl; by case_match.
Qed.

Lemma AdjustObstacles_rect w h g :
  rect w h g -> rect w h (output (AdjustObstacles w h g)).
Proof.
  intros Hr. apply (pass_rect output w h (AdjustObstacles_cell w h)); [|done].
  intros; by apply AdjustObstacles_cell_rect.
Qed.

Lemma AdjustObstacles_same_view w h g :
  rect w h g -> same_view keep_view (output (AdjustObstacles w h g)) g.
Proof.
  intros Hr.
  apply (pass_same_view output w h (AdjustObstacles_cell w h) keep_view
           (AdjustObstacles_cell_rect w h) (AdjustObstacles_cell_frame w h)
           (AdjustObstacles_cell_view w h)
           {| output := g; success_status := true;
              collectible_obstacles := 0; printed := [] |}).
  done.
Qed.

Lemma AdjustObstacles_cell_final w h g x y :
  rect w h g -> 0 <= x < w -> 0 <= y < h ->
  cell (output (AdjustObstacles w h g)) x y =
  match verdict w h x y g with
  | Point dir => Z.lor (Z.land (cell g x y) (Z.lnot kCollectibleTileMask)) dir
  | _ => cell g x y
  end.
Proof.
  intros Hr Hx Hy. unfold AdjustObstacles.
  rewrite (pass_cell output w h (AdjustObstacles_cell w h) keep_view
             (AdjustObstacles_cell_rect w h) (AdjustObstacles_cell_frame w h)
             (AdjustObstacles_cell_view w h)); try done.
  - by apply AdjustObstacles_cell_value.
  - intros x0 y0 st st0 Hr1 Hr0 Hx0 Hy0 Hv Heq.
    rewrite (AdjustObstacles_cell_value w h x0 y0 st (output st0)) by done.
    by rewrite (AdjustObstacles_cell_value w h x0 y0 st0 (output st0)).
Qed.

Lemma AdjustObstacles_report w h g :
  rect w h g ->
  let ds := diags_from w h g 0 (raster w h) in
  success_status (AdjustObstacles w h g) = no_diags ds
  /\ collectible_obstacles (AdjustObstacles w h g)
     = resolved_count w h g (raster w h)
  /\ printed (AdjustObstacles w h g) = ds.
Proof.
  intros Hr ds.
  pose proof (pass_aux output adjust_aux adjust_state w h
                (AdjustObstacles_cell w h) keep_view
                (AdjustObstacles_cell_rect w h) (AdjustObstacles_cell_frame w h)
                (AdjustObstacles_cell_view w h)) as Haux.
  specialize (Haux (fun x y st g0 _ _ _ _ => AdjustObstacles_cell_aux w h x y st g0)
                {| output := g; success_status := true;
                   collectible_obstacles := 0; printed := [] |} Hr).
  fold (AdjustObstacles w h g) in Haux.
  change (adjust_aux (AdjustObstacles w h g)
          = foldl (adjust_step w h g) (true, 0, []) (raster w h)) in Haux.
  rewrite adjust_fold in Haux. unfold adjust_aux in Haux.
  by simplify_eq/=.
Qed.

Lemma diags_from_reject w h g c l x y d :
  (x, y) ∈ l -> verdict w h x y g = Reject d -> d ∈ diags_from w h g c l.
Proof.
  intros Hin Hv. revert c. induction l as [|p l IH]; intros c.
  - by apply elem_of_nil in Hin.
  - simpl. apply elem_of_app. apply elem_of_cons in Hin as [<-|Hin].
    + left. unfold cell_diags. simpl. rewrite Hv.
      apply elem_of_app. right. apply list_elem_of_here.
    + right. by apply IH.
Qed.

Lemma collectible_bit_alone t d :
  Z.land (Z.lor (Z.land t (Z.lnot kCollectibleTileMask)) (collectible_bit d))
         kCollectibleTileMask = collectible_bit d.
Proof.
  rewrite Z.land_lor_distr_l, land_lnot_same.
  by destruct d.
Qed.

(** C4, as the code has it.  A collectible cell that overlaps no other
    annotation and is off the border ends with exactly one direction bit
    when its neighbours fit pattern (i) or (ii) for a side [d], and that
    bit names the side opposite to the wall (or to the breakable
    neighbour): a wall below gives Up, above Down, on the right Left, on
    the left Right; its other bits are kept.  When the neighbours fit no
    pattern the cell is left as it is, one of the three neighbour
    diagnostics is printed for it, and the pass fails. *)
Theorem collectible_direction w h g x y :
  rect w h g -> 0 < x < w - 1 -> 0 < y < h - 1 ->
  Z.land (cell g x y) kCollectibleTileMask <> 0 ->
  Z.land (cell g x y) (Z.lnot (Z.lor kCollectibleTileMask kTerminalReaction)) = 0 ->
  let r := AdjustObstacles w h g in
  let t := cell g x y in
  let t' := cell (output r) x y in
  (forall d,
     wall_pattern g x y d = true \/ breakable_pattern g x y d = true ->
     Z.land t' kCollectibleTileMask = collectible_bit (opposite d)
     /\ Z.land t' (Z.lnot kCollectibleTileMask)
        = Z.land t (Z.lnot kCollectibleTileMask))
  /\ ((forall d, wall_pattern g x y d = false /\ breakable_pattern g x y d = false) ->
      t' = t /\ success_status r = false
      /\ exists diag, diag ∈ neighbor_diags x y /\ diag ∈ printed r).
Proof.
  intros Hr Hx Hy Hcol Hover r t t'. subst r t t'.
  rewrite (AdjustObstacles_cell_final w h g x y) by (done || lia).
  destruct (AdjustObstacles_report w h g Hr) as (Hok & _ & Hlog).
  destruct (verdict_collectible w h x y g Hcol Hover Hx Hy)
    as [(d0 & Hpat & Huniq & Hv)|(Hnone & diag & Hdiag & Hv)]; rewrite Hv.
  - split.
    + intros d Hd. apply Huniq in Hd as ->. split.
      * apply collectible_bit_alone.
      * apply keep_view_point.
    + intros Hnone. destruct (Hnone d0) as [Hw Hb].
      destruct Hpat; congruence.
  - split.
    + intros d Hd. destruct (Hnone d) as [Hw Hb]. destruct Hd; congruence.
    + intros _. split; [done|].
      assert (diag ∈ printed (AdjustObstacles w h g)) as Hin.
      { rewrite Hlog. apply (diags_from_reject w h g 0 _ x y); [|done].
        apply elem_of_raster. lia. }
      split; [|by exists diag].
      rewrite Hok, <- Hlog.
      destruct (printed (AdjustObstacles w h g)); [|done].
      by apply elem_of_nil in Hin.
Qed.

Lemma collectible_direction_witness :
  let r := AdjustObstacles 3 3 wall_on_left in
  let t := cell wall_on_left 1 1 in
  let t' := cell (output r) 1 1 in
  (forall d,
     wall_pattern wall_on_left 1 1 d = true
     \/ breakable_pattern wall_on_left 1 1 d = true ->
     Z.land t' kCollectibleTileMask = collectible_bit (opposite d)
     /\ Z.land t' (Z.lnot kCollectibleTileMask)
        = Z.land t (Z.lnot kCollectibleTileMask))
  /\ ((forall d, wall_pattern wall_on_left 1 1 d = false
                 /\ breakable_pattern wall_on_left 1 1 d = false) ->
      t' = t /\ success_status r = false
      /\ exists diag, diag ∈ neighbor_diags 1 1 /\ diag ∈ printed r).
Proof.
  apply (collectible_direction 3 3 wall_on_left 1 1);
    [concrete_grid | lia | lia | vm_compute; discriminate | reflexivity].
Defined.

(** C4, as the spec words it, fails: the direction bit does not point at
    the wall.  With the only wall on the left of the collectible, the cell
    ends with the Right bit. *)
Lemma collectible_points_at_wall_fails :
  ~ (forall w h g x y d,
       rect w h g -> 0 < x < w - 1 -> 0 < y < h - 1 ->
       Z.land (cell g x y) kCollectibleTileMask <> 0 ->
       Z.land (cell g x y)
         (Z.lnot (Z.lor kCollectibleTileMask kTerminalReaction)) = 0 ->
       wall_pattern g x y d = true ->
       Z.land (cell (output (AdjustObstacles w h g)) x y) kCollectibleTileMask
       = collectible_bit d).
Proof.
  intros H.
  specialize (H 3 3 wall_on_left 1 1 Left).
  assert (Z.land (cell (output (AdjustObstacles 3 3 wall_on_left)) 1 1)
            kCollectibleTileMask = kCollectibleTileRight) as Hcode
    by reflexivity.
  rewrite Hcode in H.
  assert (kCollectibleTileRight = collectible_bit Left) as Heq; [|done].
  apply H; [concrete_grid | lia | lia | vm_compute; discriminate
           | reflexivity | reflexivity].
Qed.


(** ** Annotation *)

Lemma tile_steps_whole n : 0 <= n -> tile_steps (n * kTileSize) = n.
Proof.
  intros Hn. unfold tile_steps, kTileSize.
  symmetry. apply Z.div_unique with (r := 31); lia.
Qed.

Lemma quot_tile n : Z.quot (n * kTileSize) kTileSize = n.
Proof. by apply Z.quot_mul. Qed.

Lemma ProcessAnnotations_tile_grid input tx ty st :
  grid (ProcessAnnotations_tile input (tx * kTileSize) (ty * kTileSize) st) =
  set_cell (grid st) tx ty
    (Z.lor (collision_shape (collision_bits (tile_at input tx ty)))
           (special_tags (tile_at input tx ty))).
Proof.
  unfold ProcessAnnotations_tile, special_tags. fold (tile_at input tx ty).
  repeat case_match; simplify_eq/=; rewrite ?quot_tile, ?Z.lor_0_r; done.
Qed.

Lemma special_tags_collision tile :
  Z.land (special_tags tile) kCollisionMask = 0.
Proof. unfold special_tags. by repeat case_match. Qed.

Lemma special_tags_mount tile :
  Z.land (special_tags tile) kMountMask = 0.
Proof. unfold special_tags. by repeat case_match. Qed.

Lemma collision_shape_cases bits :
  collision_shape bits ∈ [kCollisionNone; kCollisionSquare; kCollisionUpLeft;
                          kCollisionUpRight; kCollisionDownLeft;
                          kCollisionDownRight].
Proof.
  unfold collision_shape. repeat case_match; apply list_elem_of_In; simpl; tauto.
Qed.

Lemma collision_shape_unrecognized bits :
  bits ∉ recognized_patterns -> collision_shape bits = 0.
Proof.
  intros Hnot. unfold collision_shape.
  repeat case_match; try done;
    exfalso; apply Hnot; apply list_elem_of_In; simpl;
    repeat match goal with H : (_ =? _) = true |- _ => apply Z.eqb_eq in H end;
    lia.
Qed.

Section Annotate.
Variable input : InputImage.
Variables gw gh : Z.
Hypothesis Hwhole : whole_tiles input gw gh.

Let body := fun tx ty =>
  ProcessAnnotations_tile input (tx * kTileSize) (ty * kTileSize).

Lemma ProcessAnnotations_raster st :
  ProcessAnnotations input st = raster_loop gw gh body st.
Proof.
  destruct Hwhole as (Hw & Hh & Hiw & Hih).
  unfold ProcessAnnotations. by rewrite Hiw, Hih, !tile_steps_whole.
Qed.

Lemma ProcessAnnotations_rect st :
  rect gw gh (grid st) -> rect gw gh (grid (ProcessAnnotations input st)).
Proof.
  rewrite ProcessAnnotations_raster.
  apply (pass_rect grid gw gh body).
  intros x y st0 Hr. unfold body. rewrite ProcessAnnotations_tile_grid.
  by apply rect_set_cell.
Qed.

Lemma ProcessAnnotations_cell st tx ty :
  rect gw gh (grid st) -> 0 <= tx < gw -> 0 <= ty < gh ->
  cell (grid (ProcessAnnotations input st)) tx ty =
  Z.lor (collision_shape (collision_bits (tile_at input tx ty)))
        (special_tags (tile_at input tx ty)).
Proof.
  intros Hr Hx Hy. rewrite ProcessAnnotations_raster.
  rewrite (pass_cell grid gw gh body (fun _ => 0)); try done.
  - unfold body. rewrite ProcessAnnotations_tile_grid.
    by apply (cell_set_cell_eq gw gh).
  - intros x y st0 Hr0. unfold body. rewrite ProcessAnnotations_tile_grid.
    by apply rect_set_cell.
  - intros x y st0 x' y' Hne. unfold body.
    rewrite ProcessAnnotations_tile_grid. by apply cell_set_cell_ne.
  - intros x y st1 st0 Hr1 Hr0 Hx0 Hy0 _ _. unfold body.
    rewrite !ProcessAnnotations_tile_grid.
    by rewrite !(cell_set_cell_eq gw gh).
Qed.
End Annotate.

(** C8.  In an image made of whole tiles, a tile whose occupancy pattern
    is none of the six recognized ones ends, after [ProcessAnnotations],
    with no collision bits, and with exactly the tag bits that the colour
    classification gives any tile: the cell is [shape | tags] for every
    tile, and the shape is 0 here.  The pass has no status and prints
    nothing: it is a total function to the grid and the position lists. *)
Theorem unrecognized_pattern_ignored input gw gh st tx ty :
  whole_tiles input gw gh -> rect gw gh (grid st) ->
  0 <= tx < gw -> 0 <= ty < gh ->
  collision_bits (tile_at input tx ty) ∉ recognized_patterns ->
  let c := cell (grid (ProcessAnnotations input st)) tx ty in
  Z.land c kCollisionMask = kCollisionNone
  /\ c = special_tags (tile_at input tx ty)
  /\ forall input' tx' ty',
       whole_tiles input' gw gh -> 0 <= tx' < gw -> 0 <= ty' < gh ->
       cell (grid (ProcessAnnotations input' st)) tx' ty' =
       Z.lor (collision_shape (collision_bits (tile_at input' tx' ty')))
             (special_tags (tile_at input' tx' ty')).
Proof.
  intros Hwhole Hr Hx Hy Hpat c. subst c.
  rewrite (ProcessAnnotations_cell input gw gh) by done.
  rewrite collision_shape_unrecognized by done.
  rewrite Z.lor_0_l. split; [apply special_tags_collision|].
  split; [done|].
  intros input' tx' ty' Hwhole' Hx' Hy'.
  by apply (ProcessAnnotations_cell input' gw gh).
Qed.

Lemma unrecognized_pattern_ignored_witness :
  let c := cell (grid (ProcessAnnotations top_dot (blank_annotated top_dot))) 0 0 in
  Z.land c kCollisionMask = kCollisionNone
  /\ c = special_tags (tile_at top_dot 0 0)
  /\ forall input' tx' ty',
       whole_tiles input' 1 1 -> 0 <= tx' < 1 -> 0 <= ty' < 1 ->
       cell (grid (ProcessAnnotations input' (blank_annotated top_dot))) tx' ty' =
       Z.lor (collision_shape (collision_bits (tile_at input' tx' ty')))
             (special_tags (tile_at input' tx' ty')).
Proof.
  apply (unrecognized_pattern_ignored top_dot 1 1 (blank_annotated top_dot) 0 0);
    [ repeat split; (lia || reflexivity) | concrete_grid | lia | lia
    | vm_compute; intros H; apply list_elem_of_In in H; simpl in H; lia ].
Defined.


(** ** The metadata layer *)

Lemma CheckStartingPoints_eq l g :
  CheckStartingPoints l g =
  {| check_status := forallb (fun p => negb (bad_start g p)) l;
     check_printed := start_violations g l |}.
Proof.
  unfold CheckStartingPoints, start_violations.
  transitivity (foldl (check_each (bad_start g) start_diag) check_start l);
    [|by rewrite foldl_check_each].
  apply foldl_ext. by intros st [x y].
Qed.

Lemma CheckTeleportPoints_eq l g :
  CheckTeleportPoints l g =
  {| check_status := forallb (fun p => negb (bad_teleport g p)) l;
     check_printed := teleport_violations g l |}.
Proof.
  unfold CheckTeleportPoints, teleport_violations.
  transitivity (foldl (check_each (bad_teleport g) teleport_diag) check_start l);
    [|by rewrite foldl_check_each].
  apply foldl_ext. by intros st [x y].
Qed.

Lemma forallb_no_diags {A : Type} (bad : A -> bool) (diag : A -> Diag) l :
  forallb (fun a => negb (bad a)) l = no_diags (List.map diag (List.filter bad l)).
Proof.
  induction l as [|a l IH]; [done|]. simpl. by destruct (bad a).
Qed.

Lemma filter_ext_bool {A : Type} (f g : A -> bool) l :
  (forall a, f a = g a) -> List.filter f l = List.filter g l.
Proof.
  intros Hfg. induction l as [|a l IH]; [done|]. simpl. by rewrite Hfg, IH.
Qed.

Lemma bad_start_ext g g0 p :
  same_view keep_view g g0 -> bad_start g p = bad_start g0 p.
Proof.
  intros Hv. unfold bad_start.
  rewrite (keep_view_land (cell g _ _)), (keep_view_land (cell g0 _ _)) by done.
  by rewrite (Hv _ _).
Qed.

Lemma bad_teleport_ext g g0 p :
  same_view keep_view g g0 -> bad_teleport g p = bad_teleport g0 p.
Proof.
  intros Hv. unfold bad_teleport.
  rewrite (keep_view_land (cell g _ _)), (keep_view_land (cell g0 _ _)) by done.
  by rewrite (Hv _ _).
Qed.

Lemma lonely_terminal_ext w h g g0 p :
  same_view keep_view g g0 -> lonely_terminal w h g p = lonely_terminal w h g0 p.
Proof.
  intros Hv. unfold lonely_terminal, adjacent_to_chain_reaction.
  rewrite !(keep_view_land (cell g _ _)) by done.
  rewrite !(keep_view_land (cell g0 _ _)) by done.
  by rewrite !(Hv _ _).
Qed.

Lemma CheckStartingPoints_violations l g :
  CheckStartingPoints l g =
  {| check_status := no_diags (start_violations g l);
     check_printed := start_violations g l |}.
Proof.
  rewrite CheckStartingPoints_eq. unfold start_violations.
  by rewrite (forallb_no_diags (bad_start g) start_diag).
Qed.

Lemma CheckTeleportPoints_violations l g :
  CheckTeleportPoints l g =
  {| check_status := no_diags (teleport_violations g l);
     check_printed := teleport_violations g l |}.
Proof.
  rewrite CheckTeleportPoints_eq. unfold teleport_violations.
  by rewrite (forallb_no_diags (bad_teleport g) teleport_diag).
Qed.

Lemma CheckTerminalReactions_violations w h g :
  CheckTerminalReactions w h g =
  {| check_status := no_diags (terminal_violations w h g);
     check_printed := terminal_violations w h g |}.
Proof.
  rewrite CheckTerminalReactions_eq. unfold terminal_violations.
  by rewrite (forallb_no_diags (lonely_terminal w h g)
                (fun p => TerminalNeedsChain p.2 p.1)).
Qed.

Lemma start_violations_ext g g0 l :
  same_view keep_view g g0 -> start_violations g l = start_violations g0 l.
Proof.
  intros Hv. unfold start_violations. f_equal.
  apply filter_ext_bool. intros p. by apply bad_start_ext.
Qed.

Lemma teleport_violations_ext g g0 l :
  same_view keep_view g g0 -> teleport_violations g l = teleport_violations g0 l.
Proof.
  intros Hv. unfold teleport_violations. f_equal.
  apply filter_ext_bool. intros p. by apply bad_teleport_ext.
Qed.

Lemma terminal_violations_ext w h g g0 :
  same_view keep_view g g0 ->
  terminal_violations w h g = terminal_violations w h g0.
Proof.
  intros Hv. unfold terminal_violations. f_equal.
  apply filter_ext_bool. intros p. by apply lonely_terminal_ext.
Qed.

Lemma ResizeOutput_rect gw gh :
  0 <= gw -> 0 <= gh -> rect gw gh (ResizeOutput (gw * kTileSize) (gh * kTileSize)).
Proof.
  intros Hw Hh. unfold ResizeOutput, rect.
  rewrite !Z.div_mul by done. rewrite length_replicate. split; [lia|].
  apply Forall_replicate. rewrite length_replicate. lia.
Qed.

Lemma mounted_grid_rect input gw gh start0 teleport0 throwables0 :
  whole_tiles input gw gh ->
  rect gw gh (mounted_grid input start0 teleport0 throwables0).
Proof.
  intros Hwhole. pose proof Hwhole as (Hw & Hh & Hiw & Hih).
  unfold mounted_grid. rewrite Hiw, Hih, !quot_tile.
  apply DetectMountPoints_rect.
  rewrite <- Hiw, <- Hih. apply (ProcessAnnotations_rect input gw gh Hwhole).
  simpl. rewrite Hiw, Hih. by apply ResizeOutput_rect.
Qed.

Lemma ProcessMetadataImage_positions input start0 teleport0 throwables0 :
  let a := ProcessAnnotations input
             {| grid := ResizeOutput (image_width input) (image_height input);
                start := start0; teleport := teleport0;
                throwables := throwables0 |} in
  let r := ProcessMetadataImage input start0 teleport0 throwables0 in
  m_start r = start a /\ m_teleport r = teleport a
  /\ m_throwables r = throwables a.
Proof.
  unfold ProcessMetadataImage. cbv zeta.
  repeat match goal with
    | |- context [if ?c then _ else _] => destruct c
    end; try done.
Qed.

(** C2, as the code has it.  Each check reports every violation of its
    own rules over the whole grid, but the checks are chained with [&&]:
    what [ProcessMetadataImage] prints is the violations of the first
    check that has any (obstacle placement, then starting positions, then
    teleport stations, then terminal reactions), and nothing of the checks
    after it.  The result is failure exactly when some check has a
    violation.  The violations are those of the grid as mount detection
    leaves it, which the adjustment of collectibles does not alter. *)
Theorem ProcessMetadataImage_reports input gw gh start0 teleport0 throwables0 :
  whole_tiles input gw gh ->
  let r := ProcessMetadataImage input start0 teleport0 throwables0 in
  let g := mounted_grid input start0 teleport0 throwables0 in
  let groups :=
    [ obstacle_violations gw gh g;
      start_violations g (m_start r);
      teleport_violations g (m_teleport r);
      terminal_violations gw gh g ] in
  m_printed r = first_failure groups
  /\ (m_ok r = false <-> exists ds, ds ∈ groups /\ ds <> []).
Proof.
  intros Hwhole r g groups.
  pose proof (mounted_grid_rect input gw gh start0 teleport0 throwables0 Hwhole)
    as Hr.
  pose proof Hwhole as (Hw & Hh & Hiw & Hih).
  assert (m_printed r = first_failure groups
          /\ m_ok r = no_diags (first_failure groups)) as [Hlog Hok].
  { subst r groups g.
    destruct (ProcessMetadataImage_positions input start0 teleport0 throwables0)
      as (Hs & Ht & _).
    cbv zeta in Hs, Ht. rewrite Hs, Ht. unfold ProcessMetadataImage.
    fold (mounted_grid input start0 teleport0 throwables0).
    rewrite Hiw, Hih, !quot_tile. cbv zeta.
    set (g := mounted_grid input start0 teleport0 throwables0) in *.
    destruct (AdjustObstacles_report gw gh g Hr) as (HokA & _ & HlogA).
    pose proof (AdjustObstacles_same_view gw gh g Hr) as Hv.
    rewrite HokA, HlogA. fold (obstacle_violations gw gh g).
    rewrite CheckStartingPoints_violations, CheckTeleportPoints_violations,
      CheckTerminalReactions_violations. simpl.
    rewrite !(start_violations_ext _ g), !(teleport_violations_ext _ g),
      !(terminal_violations_ext gw gh _ g) by done.
    destruct (obstacle_violations gw gh g) as [|d1 ds1]; simpl; [|done].
    destruct (start_violations g _) as [|d2 ds2]; simpl; [|done].
    destruct (teleport_violations g _) as [|d3 ds3]; simpl; [|done].
    by destruct (terminal_violations gw gh g). }
  split; [done|]. rewrite Hok. subst groups. simpl.
  destruct (obstacle_violations gw gh g) eqn:H1;
    [|split; [intros _; eexists; split; [apply list_elem_of_here|done]|done]].
  destruct (start_violations g (m_start r)) eqn:H2;
    [|split; [intros _; eexists; split;
              [apply list_elem_of_further, list_elem_of_here|done]|done]].
  destruct (teleport_violations g (m_teleport r)) eqn:H3;
    [|split; [intros _; eexists; split;
              [do 2 apply list_elem_of_further; apply list_elem_of_here|done]
             |done]].
  destruct (terminal_violations gw gh g) eqn:H4;
    [|split; [intros _; eexists; split;
              [do 3 apply list_elem_of_further; apply list_elem_of_here|done]
             |done]].
  simpl. split; [done|]. intros (ds & Hin & Hne).
  apply list_elem_of_In in Hin. simpl in Hin.
  destruct Hin as [<-|[<-|[<-|[<-|[]]]]]; done.
Qed.

Lemma ProcessMetadataImage_reports_witness :
  let r := ProcessMetadataImage lonely_pair [] [] [] in
  let g := mounted_grid lonely_pair [] [] [] in
  let groups :=
    [ obstacle_violations 3 3 g;
      start_violations g (m_start r);
      teleport_violations g (m_teleport r);
      terminal_violations 3 3 g ] in
  m_printed r = first_failure groups
  /\ (m_ok r = false <-> exists ds, ds ∈ groups /\ ds <> []).
Proof.
  apply (ProcessMetadataImage_reports lonely_pair 3 3 [] [] []).
  repeat split; (lia || reflexivity).
Defined.

Example lonely_pair_run :
  let r := ProcessMetadataImage lonely_pair [] [] [] in
  m_ok r = false
  /\ m_output r = [ [kTerminalReaction; 0; 0];
                    [0; kCollectibleTileMask; 0];
                    [0; 0; 0] ]
  /\ m_printed r = [CollectibleNeedsOneWall 1 1].
Proof. vm_compute. done. Qed.

(** C2, as the spec words it, fails: a violation found by a later check is
    not reported when an earlier check has failed.  In [lonely_pair] the
    collectible in the centre has no wall next to it, so [AdjustObstacles]
    fails, and the terminal-reaction tile in the corner, which has no
    chain-reaction neighbour, is never reported. *)
Lemma later_violation_unreported :
  ~ (forall input start0 teleport0 throwables0 x y,
       let r := ProcessMetadataImage input start0 teleport0 throwables0 in
       let gw := Z.quot (image_width input) kTileSize in
       let gh := Z.quot (image_height input) kTileSize in
       0 <= x < gw -> 0 <= y < gh ->
       lonely_terminal gw gh (m_output r) (x, y) = true ->
       TerminalNeedsChain y x ∈ m_printed r).
Proof.
  intros H.
  specialize (H lonely_pair [] [] [] 0 0). cbv zeta in H.
  destruct lonely_pair_run as (_ & Hout & Hlog).
  cbv zeta in Hout, Hlog. rewrite Hout, Hlog in H.
  assert (TerminalNeedsChain 0 0 ∈ [CollectibleNeedsOneWall 1 1]) as Hin.
  { apply H; [vm_compute; split; congruence..|reflexivity]. }
  apply list_elem_of_In in Hin. simpl in Hin. by destruct Hin.
Qed.

Lemma resolved_count_cons w h g p l :
  resolved_count w h g (p :: l)
  = Z.b2z (resolved w h g p) + resolved_count w h g l.
Proof.
  unfold resolved_count. simpl.
  destruct (resolved w h g p); simpl length; simpl Z.b2z; lia.
Qed.

Lemma resolved_count_nonneg w h g l : 0 <= resolved_count w h g l.
Proof. unfold resolved_count. lia. Qed.

Lemma diags_from_nil w h g c l :
  c <= kMaxCollectibleObstacles ->
  diags_from w h g c l = [] <->
  (forall p, p ∈ l -> cell_violation w h g p = false)
  /\ c + resolved_count w h g l <= kMaxCollectibleObstacles.
Proof.
  revert c. induction l as [|p l IH]; intros c Hc.
  - unfold resolved_count. simpl. split; [|done].
    intros _. split; [|lia]. intros p Hp. by apply elem_of_nil in Hp.
  - simpl. rewrite resolved_count_cons.
    pose proof (resolved_count_nonneg w h g l) as Hpos.
    unfold cell_diags, cell_violation, resolved.
    destruct (verdict w h p.1 p.2 g) eqn:Hv; simpl.
    + rewrite app_nil_r, Z.add_0_r.
      destruct (breakable_bad (cell g p.1 p.2)) eqn:Hb; simpl.
      * split; [done|]. intros [Hall _].
        specialize (Hall p (list_elem_of_here _ _)).
        unfold cell_violation in Hall. by rewrite Hb in Hall.
      * rewrite (IH c Hc). split.
        -- intros [Hall Hle]. split; [|lia]. intros q Hq.
           apply elem_of_cons in Hq as [->|Hq]; [|by apply Hall].
           unfold cell_violation. by rewrite Hb, Hv.
        -- intros [Hall Hle]. split; [|lia]. intros q Hq.
           apply Hall. by right.
    + split.
      * intros Hnil. by apply app_eq_nil in Hnil as [[_ [=]]%app_eq_nil _].
      * intros [Hall _]. specialize (Hall p (list_elem_of_here _ _)).
        unfold cell_violation in Hall. rewrite Hv, orb_true_r in Hall. done.
    + destruct (c + 1 >? kMaxCollectibleObstacles) eqn:Hcap.
      * apply Z.gtb_lt in Hcap. split; [|lia].
        intros Hnil. by apply app_eq_nil in Hnil as [[_ [=]]%app_eq_nil _].
      * assert (c + 1 <= kMaxCollectibleObstacles) as Hc'
          by (rewrite Z.gtb_ltb in Hcap; apply Z.ltb_ge in Hcap; lia).
        rewrite app_nil_r.
        destruct (breakable_bad (cell g p.1 p.2)) eqn:Hb; simpl.
        -- split; [done|]. intros [Hall _].
           specialize (Hall p (list_elem_of_here _ _)).
           unfold cell_violation in Hall. by rewrite Hb in Hall.
        -- rewrite (IH (c + 1) Hc'). split.
           ++ intros [Hall Hle]. split; [|lia]. intros q Hq.
              apply elem_of_cons in Hq as [->|Hq]; [|by apply Hall].
              unfold cell_violation. by rewrite Hb, Hv.
           ++ intros [Hall Hle]. split; [|lia]. intros q Hq.
              apply Hall. by right.
Qed.

(** [AdjustObstacles] has something to report exactly when a cell of the
    grid breaks a placement rule or the collectibles exceed the cap. *)
Lemma obstacle_violations_nil w h g :
  obstacle_violations w h g = [] <->
  (forall x y, 0 <= x < w -> 0 <= y < h -> cell_violation w h g (x, y) = false)
  /\ resolved_count w h g (raster w h) <= kMaxCollectibleObstacles.
Proof.
  unfold obstacle_violations. rewrite diags_from_nil by done.
  rewrite Z.add_0_l. split; intros [Hall Hle]; (split; [|done]).
  - intros x y Hx Hy. apply Hall. by apply elem_of_raster.
  - intros [x y] Hin. apply elem_of_raster in Hin as [Hx Hy]. by apply Hall.
Qed.


(** ** Tile indexing *)


Lemma insert_tile_lookup k tbl :
  (insert_tile k tbl).1 !! k = Some (insert_tile k tbl).2.
Proof.
  unfold insert_tile. destruct (tbl !! k) eqn:Hk; simpl; [done|].
  apply lookup_insert_eq.
Qed.

Lemma insert_tile_mono k k' i tbl :
  tbl !! k = Some i -> (insert_tile k' tbl).1 !! k = Some i.
Proof.
  intros Hk. unfold insert_tile. destruct (tbl !! k') eqn:Hk'; simpl; [done|].
  rewrite lookup_insert_ne; [done|]. congruence.
Qed.

Lemma numbered_empty : numbered ∅ [].
Proof.
  split; [constructor|]. split; [done|].
  intros k i. rewrite lookup_empty. split; [done|]. by intros [_ ?].
Qed.

Lemma numbered_elem tbl ks k :
  numbered tbl ks -> k ∈ ks <-> is_Some (tbl !! k).
Proof.
  intros (Hnd & Hsize & Hlook). split.
  - intros [n Hn]%list_elem_of_lookup. exists (Z.of_nat n).
    apply Hlook. split; [lia|]. by rewrite Nat2Z.id.
  - intros [i [_ Hi]%Hlook]. by apply list_elem_of_lookup_2 in Hi.
Qed.

Lemma numbered_insert tbl ks k :
  numbered tbl ks -> numbered (insert_tile k tbl).1 (see ks k).
Proof.
  intros Hnum. pose proof Hnum as (Hnd & Hsize & Hlook).
  unfold insert_tile, see.
  destruct (tbl !! k) as [i|] eqn:Hk; simpl.
  - rewrite decide_True; [done|]. apply (numbered_elem tbl); [done|]. by exists i.
  - assert (k ∉ ks) as Hnot.
    { intros Hin. apply (numbered_elem tbl) in Hin as [i Hi]; [|done]. congruence. }
    rewrite decide_False by done.
    split; [|split].
    + apply NoDup_app. split; [done|]. split; [|apply NoDup_singleton].
      intros k' Hin Hin'. apply list_elem_of_singleton in Hin'. by subst.
    + rewrite map_size_insert_None by done. rewrite length_app. simpl. lia.
    + intros k' i. destruct (decide (k' = k)) as [->|Hne].
      * rewrite lookup_insert_eq. split.
        -- intros [= <-]. split; [lia|]. rewrite Nat2Z.id, Hsize.
           by rewrite lookup_app_r, Nat.sub_diag.
        -- intros [Hi Hin]. f_equal.
           destruct (decide (Z.to_nat i < length ks)%nat) as [Hlt|Hge].
           ++ rewrite lookup_app_l in Hin by done.
              by apply list_elem_of_lookup_2 in Hin.
           ++ apply lookup_lt_Some in Hin. rewrite length_app in Hin.
              simpl in Hin. lia.
      * rewrite lookup_insert_ne by done. rewrite Hlook. split.
        -- intros [Hi Hin]. split; [done|].
           rewrite lookup_app_l; [done|]. by apply lookup_lt_Some in Hin.
        -- intros [Hi Hin]. split; [done|].
           destruct (decide (Z.to_nat i < length ks)%nat) as [Hlt|Hge].
           ++ by rewrite lookup_app_l in Hin.
           ++ rewrite lookup_app_r in Hin by lia.
              apply list_lookup_singleton_Some in Hin as [_ Heq]. congruence.
Qed.

Lemma intern_stream_app tbl cs1 cs2 :
  intern_stream tbl (cs1 ++ cs2) = intern_stream (intern_stream tbl cs1) cs2.
Proof. apply foldl_app. Qed.

Lemma intern_stream_mono tbl cs k i :
  tbl !! k = Some i -> intern_stream tbl cs !! k = Some i.
Proof.
  revert tbl. induction cs as [|c cs IH]; intros tbl Hk; [done|].
  simpl. apply IH. destruct (IsBlank c); [done|]. by apply insert_tile_mono.
Qed.

Lemma nonblank_app l1 l2 : nonblank (l1 ++ l2) = nonblank l1 ++ nonblank l2.
Proof. apply List.filter_app. Qed.

Lemma intern_stream_numbered tbl ks cs :
  numbered tbl ks ->
  numbered (intern_stream tbl cs) (foldl see ks (nonblank cs)).
Proof.
  revert tbl ks. induction cs as [|c cs IH]; intros tbl ks Hnum; [done|].
  simpl. unfold nonblank. simpl. fold (nonblank cs).
  destruct (IsBlank c); simpl; [by apply IH|].
  apply IH. by apply numbered_insert.
Qed.

Section FirstSeen.
Context {A : Type} `{EqDecision A}.
Implicit Types (l : list A) (a b : A).

Lemma first_seen_snoc l a : first_seen (l ++ [a]) = see (first_seen l) a.
Proof. unfold first_seen. by rewrite foldl_app. Qed.

Lemma first_seen_elem l a : a ∈ first_seen l <-> a ∈ l.
Proof.
  induction l as [|b l IH] using rev_ind; [done|].
  rewrite first_seen_snoc, elem_of_app, list_elem_of_singleton, <- IH.
  unfold see. destruct (decide (b ∈ first_seen l)) as [Hin|Hnot].
  - split; [tauto|]. intros [?| ->]; done.
  - by rewrite elem_of_app, list_elem_of_singleton.
Qed.

Lemma first_seen_NoDup l : NoDup (first_seen l).
Proof.
  induction l as [|b l IH] using rev_ind; [constructor|].
  rewrite first_seen_snoc. unfold see.
  destruct (decide (b ∈ first_seen l)) as [Hin|Hnot]; [done|].
  apply NoDup_app. split; [done|]. split; [|apply NoDup_singleton].
  intros a Ha Ha'. apply list_elem_of_singleton in Ha'. by subst.
Qed.

(** An element listed earlier was seen before the first occurrence of any
    element listed later. *)
Lemma first_seen_order l (i j : nat) a b :
  (i < j)%nat -> first_seen l !! i = Some a -> first_seen l !! j = Some b ->
  exists n, l !! n = Some a /\ b ∉ take (S n) l.
Proof.
  revert i j a b. induction l as [|c l IH] using rev_ind; intros i j a b Hij Hi Hj;
    [done|].
  rewrite first_seen_snoc in Hi, Hj. unfold see in Hi, Hj.
  assert (forall n, l !! n = Some a -> b ∉ take (S n) l ->
            (l ++ [c]) !! n = Some a /\ b ∉ take (S n) (l ++ [c])) as Hkeep.
  { intros n Hn Hb. pose proof (lookup_lt_Some _ _ _ Hn) as Hlt. split.
    - by rewrite lookup_app_l.
    - rewrite take_app_le by lia. done. }
  destruct (decide (c ∈ first_seen l)) as [Hin|Hnot].
  - destruct (IH i j a b Hij Hi Hj) as (n & Hn & Hb). exists n. by apply Hkeep.
  - destruct (decide (j < length (first_seen l))%nat) as [Hlt|Hge].
    + rewrite lookup_app_l in Hi, Hj by lia.
      destruct (IH i j a b Hij Hi Hj) as (n & Hn & Hb). exists n. by apply Hkeep.
    + rewrite lookup_app_r in Hj by lia.
      apply list_lookup_singleton_Some in Hj as [Hj <-].
      rewrite lookup_app_l in Hi by lia.
      assert (a ∈ l) as [n Hn]%list_elem_of_lookup.
      { apply first_seen_elem. by apply list_elem_of_lookup_2 in Hi. }
      exists n. apply Hkeep; [done|].
      intros Hc%elem_of_take. apply Hnot, first_seen_elem.
      by destruct Hc as (m & Hm & _); apply list_elem_of_lookup_2 in Hm.
Qed.
End FirstSeen.

Section Indexing.
Variable input : InputImage.
Variables gw gh : Z.
Hypothesis Hwhole : whole_tiles input gw gh.

Let body := fun tx ty =>
  ProcessImage_tile input (tx * kTileSize) (ty * kTileSize).

Lemma ProcessImage_tile_table tx ty st :
  (body tx ty st).1 =
  if IsBlank (art_tile input (tx, ty)) then st.1
  else (insert_tile (art_tile input (tx, ty)) st.1).1.
Proof.
  unfold body, ProcessImage_tile, art_tile. simpl. by case_match.
Qed.

Lemma ProcessImage_tile_grid tx ty st :
  (body tx ty st).2 =
  set_cell st.2 tx ty
    (if IsBlank (art_tile input (tx, ty)) then kBlankTile
     else (insert_tile (art_tile input (tx, ty)) st.1).2 + 1).
Proof.
  unfold body, ProcessImage_tile, art_tile. simpl.
  case_match; simpl; by rewrite !quot_tile.
Qed.

Lemma run_cells_table l st :
  (run_cells body l st).1 = intern_stream st.1 (art_tile input <$> l).
Proof.
  revert st. induction l as [|[tx ty] l IH]; intros st; [done|].
  rewrite run_cells_cons, IH, ProcessImage_tile_table. done.
Qed.

Lemma run_cells_grid_rect l st :
  rect gw gh st.2 -> rect gw gh (run_cells body l st).2.
Proof.
  apply (run_rect snd gw gh body).
  intros x y st0 Hr. rewrite ProcessImage_tile_grid. by apply rect_set_cell.
Qed.

Lemma run_cells_grid_frame l st tx ty :
  (tx, ty) ∉ l -> cell (run_cells body l st).2 tx ty = cell st.2 tx ty.
Proof.
  apply (run_frame snd body).
  intros x y st0 x' y' Hne. rewrite ProcessImage_tile_grid.
  by apply cell_set_cell_ne.
Qed.

Lemma ProcessImage_run tbl :
  ProcessImage input tbl =
  run_cells body (raster gw gh)
    (tbl, ResizeOutput (gw * kTileSize) (gh * kTileSize)).
Proof.
  destruct Hwhole as (Hw & Hh & Hiw & Hih).
  unfold ProcessImage. rewrite Hiw, Hih, !tile_steps_whole by done.
  apply raster_loop_run.
Qed.

Lemma ProcessImage_table tbl :
  (ProcessImage input tbl).1 = intern_stream tbl (tiles_of gw gh input).
Proof. rewrite ProcessImage_run. apply run_cells_table. Qed.


(** The cell of a tile holds the blank sentinel, or one more than the index
    under which the table holds the tile at the end of the image. *)
Lemma ProcessImage_cell tbl tx ty :
  0 <= tx < gw -> 0 <= ty < gh ->
  let k := art_tile input (tx, ty) in
  let r := ProcessImage input tbl in
  if IsBlank k then cell r.2 tx ty = kBlankTile
  else exists i, r.1 !! k = Some i /\ cell r.2 tx ty = i + 1.
Proof.
  intros Hx Hy k r. subst r.
  destruct Hwhole as (Hw & Hh & Hiw & Hih).
  rewrite ProcessImage_run.
  destruct (raster_split gw gh tx ty Hx Hy) as (l1 & l2 & -> & Hn1 & Hn2).
  rewrite run_cells_app, run_cells_cons.
  set (st1 := run_cells body l1 _).
  assert (rect gw gh st1.2) as Hr1
    by (apply run_cells_grid_rect; by apply ResizeOutput_rect).
  rewrite run_cells_grid_frame, ProcessImage_tile_grid by done.
  rewrite (cell_set_cell_eq gw gh) by done. fold k.
  destruct (IsBlank k) eqn:Hblank; [done|].
  exists (insert_tile k st1.1).2. split; [|done].
  rewrite run_cells_table. apply intern_stream_mono.
  rewrite ProcessImage_tile_table. fold k. rewrite Hblank.
  apply insert_tile_lookup.
Qed.
End Indexing.

Lemma filter_lookup_take {A : Type} (f : A -> bool) l (n' : nat) a :
  List.filter f l !! n' = Some a ->
  exists n, l !! n = Some a
    /\ List.filter f (take (S n) l) = take (S n') (List.filter f l).
Proof.
  revert n'. induction l as [|b l IH]; intros n' Hn'; [done|].
  simpl in Hn'. destruct (f b) eqn:Hb.
  - destruct n' as [|n'].
    + simplify_eq/=. exists 0%nat. split; [done|]. simpl. by rewrite Hb.
    + destruct (IH n' Hn') as (n & Hn & Htake). exists (S n). split; [done|].
      simpl. rewrite Hb. simpl. f_equal. by rewrite <- Htake.
  - destruct (IH n' Hn') as (n & Hn & Htake). exists (S n). split; [done|].
    simpl. rewrite Hb. by rewrite <- Htake.
Qed.

Section Images.
Variables gw gh : Z.

Lemma tile_stream_cons input inputs :
  tile_stream gw gh (input :: inputs)
  = tiles_of gw gh input ++ tile_stream gw gh inputs.
Proof. done. Qed.

Lemma tile_stream_app inputs1 inputs2 :
  tile_stream gw gh (inputs1 ++ inputs2)
  = tile_stream gw gh inputs1 ++ tile_stream gw gh inputs2.
Proof. apply bind_app. Qed.

Lemma ProcessImages_table inputs acc :
  Forall (fun input => whole_tiles input gw gh) inputs ->
  (foldl ProcessImages_step acc inputs).1
  = intern_stream acc.1 (tile_stream gw gh inputs).
Proof.
  intros Hall. revert acc. induction Hall as [|input inputs Hw Hall IH];
    intros acc; [done|].
  rewrite tile_stream_cons, intern_stream_app.
  change (foldl ProcessImages_step acc (input :: inputs))
    with (foldl ProcessImages_step (ProcessImages_step acc input) inputs).
  rewrite IH. simpl. by rewrite (ProcessImage_table input gw gh).
Qed.

Lemma ProcessImages_outputs_prefix inputs acc :
  exists extra, (foldl ProcessImages_step acc inputs).2 = acc.2 ++ extra.
Proof.
  revert acc. induction inputs as [|input inputs IH]; intros acc.
  - exists []. by rewrite app_nil_r.
  - simpl. destruct (IH (ProcessImages_step acc input)) as [extra ->].
    simpl. rewrite <- app_assoc. by eexists.
Qed.

Lemma ProcessImages_output inputs acc (n : nat) input :
  Forall (fun input => whole_tiles input gw gh) inputs ->
  inputs !! n = Some input ->
  (foldl ProcessImages_step acc inputs).2 !! (length acc.2 + n)%nat
  = Some (ProcessImage input
            (intern_stream acc.1 (tile_stream gw gh (take n inputs)))).2.
Proof.
  intros Hall. revert acc n. induction Hall as [|input0 inputs Hw Hall IH];
    intros acc n Hn; [done|].
  destruct n as [|n]; simpl.
  - simplify_eq/=.
    destruct (ProcessImages_outputs_prefix inputs (ProcessImages_step acc input))
      as [extra ->].
    simpl. rewrite <- app_assoc, Nat.add_0_r.
    by rewrite lookup_app_r, Nat.sub_diag.
  - simpl in Hn. specialize (IH (ProcessImages_step acc input0) n Hn).
    simpl in IH. rewrite length_app in IH. simpl in IH.
    replace (length acc.2 + S n)%nat with (length acc.2 + 1 + n)%nat by lia.
    rewrite IH. rewrite (ProcessImage_table input0 gw gh) by done.
    by rewrite intern_stream_app.
Qed.
End Images.

Lemma ProcessImages_numbered gw gh inputs :
  Forall (fun input => whole_tiles input gw gh) inputs ->
  numbered (ProcessImages inputs).1
           (first_seen (nonblank (tile_stream gw gh inputs))).
Proof.
  intros Hall. unfold ProcessImages.
  change (foldl _ (∅, []) inputs) with (foldl ProcessImages_step (∅, []) inputs).
  rewrite (ProcessImages_table gw gh) by done.
  apply intern_stream_numbered, numbered_empty.
Qed.

Lemma nonblank_elem l k : k ∈ nonblank l <-> k ∈ l /\ IsBlank k = false.
Proof.
  unfold nonblank. rewrite !list_elem_of_In, filter_In.
  by rewrite negb_true_iff.
Qed.

(** C3.  After the art layers are processed in order against one table
    that starts empty: (1) each cell of each layer's grid holds the blank
    sentinel if its tile is blank, and otherwise one more than the index
    that the table gives the tile's content, whatever the image and the
    position; (2) equal contents have equal cells and distinct contents
    distinct cells; (3) the indices in the table are exactly 0..n-1, n
    its size, each the index of one non-blank tile of the layers, and
    every non-blank tile has one; (4) no two contents share an index;
    (5) a content with a lower index was seen, in input and raster order,
    before the first occurrence of any content with a higher index. *)
Theorem tile_indices_first_seen gw gh inputs :
  Forall (fun input => whole_tiles input gw gh) inputs ->
  let r := ProcessImages inputs in
  let stream := tile_stream gw gh inputs in
  (forall (n : nat) input out tx ty,
     inputs !! n = Some input -> r.2 !! n = Some out ->
     0 <= tx < gw -> 0 <= ty < gh ->
     let k := art_tile input (tx, ty) in
     if IsBlank k then cell out tx ty = kBlankTile
     else exists i, r.1 !! k = Some i /\ cell out tx ty = i + 1)
  /\ (forall (n1 n2 : nat) input1 input2 out1 out2 tx1 ty1 tx2 ty2,
        inputs !! n1 = Some input1 -> r.2 !! n1 = Some out1 ->
        inputs !! n2 = Some input2 -> r.2 !! n2 = Some out2 ->
        0 <= tx1 < gw -> 0 <= ty1 < gh -> 0 <= tx2 < gw -> 0 <= ty2 < gh ->
        IsBlank (art_tile input1 (tx1, ty1)) = false ->
        IsBlank (art_tile input2 (tx2, ty2)) = false ->
        art_tile input1 (tx1, ty1) = art_tile input2 (tx2, ty2)
        <-> cell out1 tx1 ty1 = cell out2 tx2 ty2)
  /\ (forall i, 0 <= i < Z.of_nat (size r.1) <-> exists k, r.1 !! k = Some i)
  /\ (forall k, is_Some (r.1 !! k) <-> k ∈ stream /\ IsBlank k = false)
  /\ (forall k1 k2 i, r.1 !! k1 = Some i -> r.1 !! k2 = Some i -> k1 = k2)
  /\ (forall k1 k2 i1 i2,
        r.1 !! k1 = Some i1 -> r.1 !! k2 = Some i2 -> i1 < i2 ->
        exists n : nat, stream !! n = Some k1 /\ k2 ∉ take (S n) stream).
Proof.
  intros Hall r stream.
  pose proof (ProcessImages_numbered gw gh inputs Hall) as Hnum.
  fold r stream in Hnum. destruct Hnum as (Hnd & Hsize & Hlook).
  assert (forall k1 k2 i, r.1 !! k1 = Some i -> r.1 !! k2 = Some i -> k1 = k2)
    as Hinj.
  { intros k1 k2 i [_ H1]%Hlook [_ H2]%Hlook. congruence. }
  assert (forall (n : nat) input out tx ty,
     inputs !! n = Some input -> r.2 !! n = Some out ->
     0 <= tx < gw -> 0 <= ty < gh ->
     let k := art_tile input (tx, ty) in
     if IsBlank k then cell out tx ty = kBlankTile
     else exists i, r.1 !! k = Some i /\ cell out tx ty = i + 1) as Hcell.
  { intros n input out tx ty Hin Hout Hx Hy k.
    pose proof (proj1 (Forall_lookup _ _) Hall _ _ Hin) as Hw. simpl in Hw.
    subst r. unfold ProcessImages in *.
    change (foldl _ (∅, []) inputs)
      with (foldl ProcessImages_step (∅, []) inputs) in *.
    pose proof (ProcessImages_output gw gh inputs (∅, []) n input Hall Hin)
      as Hn. simpl in Hn. rewrite Hn in Hout. simplify_eq.
    set (tbl := intern_stream ∅ (tile_stream gw gh (take n inputs))).
    pose proof (ProcessImage_cell input gw gh Hw tbl tx ty Hx Hy) as Hc.
    cbv zeta in Hc. fold k in Hc.
    destruct (IsBlank k); [done|]. destruct Hc as (i & Hi & Hc).
    exists i. split; [|done].
    rewrite (ProcessImages_table gw gh) by done. simpl.
    rewrite <- (take_drop_middle inputs n input Hin), tile_stream_app,
      tile_stream_cons, !intern_stream_app.
    fold tbl. rewrite <- (ProcessImage_table input gw gh Hw).
    by apply intern_stream_mono. }
  split; [exact Hcell|]. split; [|split; [|split; [|split]]].
  - intros n1 n2 input1 input2 out1 out2 tx1 ty1 tx2 ty2
      Hin1 Hout1 Hin2 Hout2 Hx1 Hy1 Hx2 Hy2 Hb1 Hb2.
    pose proof (Hcell n1 input1 out1 tx1 ty1 Hin1 Hout1 Hx1 Hy1) as H1.
    pose proof (Hcell n2 input2 out2 tx2 ty2 Hin2 Hout2 Hx2 Hy2) as H2.
    cbv zeta in H1, H2. rewrite Hb1 in H1. rewrite Hb2 in H2.
    destruct H1 as (i1 & Hi1 & ->), H2 as (i2 & Hi2 & ->). split.
    + intros Heq. rewrite Heq in Hi1. congruence.
    + intros Heq. assert (i1 = i2) as -> by lia. by apply (Hinj _ _ i2).
  - intros i. rewrite Hsize. split.
    + intros Hi.
      destruct (lookup_lt_is_Some_2 (first_seen (nonblank stream)) (Z.to_nat i))
        as [k Hk]; [lia|].
      exists k. apply Hlook. split; [lia|done].
    + intros [k [Hi Hk]%Hlook]. apply lookup_lt_Some in Hk. lia.
  - intros k. rewrite <- nonblank_elem, <- first_seen_elem. split.
    + intros [i [_ Hi]%Hlook]. by apply list_elem_of_lookup_2 in Hi.
    + intros [n Hn]%list_elem_of_lookup. exists (Z.of_nat n).
      apply Hlook. split; [lia|]. by rewrite Nat2Z.id.
  - exact Hinj.
  - intros k1 k2 i1 i2 [Hi1 H1]%Hlook [Hi2 H2]%Hlook Hlt.
    destruct (first_seen_order (nonblank stream) (Z.to_nat i1) (Z.to_nat i2)
                k1 k2) as (n' & Hn' & Hnot); [lia|done|done|].
    destruct (filter_lookup_take (fun k => negb (IsBlank k)) stream n' k1 Hn')
      as (n & Hn & Htake).
    exists n. split; [done|]. intros Hin. apply Hnot.
    fold (nonblank stream) in Htake. rewrite <- Htake.
    apply nonblank_elem. split; [done|].
    assert (k2 ∈ nonblank stream) as [_ Hb]%nonblank_elem; [|done].
    apply first_seen_elem. by apply list_elem_of_lookup_2 in H2.
Qed.

Lemma tile_indices_first_seen_witness :
  let inputs := [clear_layer; twin_layer] in
  let r := ProcessImages inputs in
  let stream := tile_stream 2 1 inputs in
  (forall (n : nat) input out tx ty,
     inputs !! n = Some input -> r.2 !! n = Some out ->
     0 <= tx < 2 -> 0 <= ty < 1 ->
     let k := art_tile input (tx, ty) in
     if IsBlank k then cell out tx ty = kBlankTile
     else exists i, r.1 !! k = Some i /\ cell out tx ty = i + 1)
  /\ (forall (n1 n2 : nat) input1 input2 out1 out2 tx1 ty1 tx2 ty2,
        inputs !! n1 = Some input1 -> r.2 !! n1 = Some out1 ->
        inputs !! n2 = Some input2 -> r.2 !! n2 = Some out2 ->
        0 <= tx1 < 2 -> 0 <= ty1 < 1 -> 0 <= tx2 < 2 -> 0 <= ty2 < 1 ->
        IsBlank (art_tile input1 (tx1, ty1)) = false ->
        IsBlank (art_tile input2 (tx2, ty2)) = false ->
        art_tile input1 (tx1, ty1) = art_tile input2 (tx2, ty2)
        <-> cell out1 tx1 ty1 = cell out2 tx2 ty2)
  /\ (forall i, 0 <= i < Z.of_nat (size r.1) <-> exists k, r.1 !! k = Some i)
  /\ (forall k, is_Some (r.1 !! k) <-> k ∈ stream /\ IsBlank k = false)
  /\ (forall k1 k2 i, r.1 !! k1 = Some i -> r.1 !! k2 = Some i -> k1 = k2)
  /\ (forall k1 k2 i1 i2,
        r.1 !! k1 = Some i1 -> r.1 !! k2 = Some i2 -> i1 < i2 ->
        exists n : nat, stream !! n = Some k1 /\ k2 ∉ take (S n) stream).
Proof.
  apply (tile_indices_first_seen 2 1 [clear_layer; twin_layer]).
  repeat constructor; (lia || reflexivity).
Defined.

(** The scenario of the two layers: one unique tile, and both cells of the
    second layer refer to it. *)
Example two_layers_run :
  let r := ProcessImages [clear_layer; twin_layer] in
  size r.1 = 1%nat /\ r.2 = [ [ [-1; -1] ]; [ [1; 1] ] ].
Proof. vm_compute. done. Qed.

Lemma row_is_blank_odd row :
  (forall (j : nat) a, row !! (2 * j + 1)%nat = Some a -> a = 0) ->
  row_is_blank row = true.
Proof.
  remember (length row) as n eqn:Hn. revert row Hn.
  induction n as [n IH] using lt_wf_ind. intros row -> Hodd.
  destruct row as [|g [|a rest]]; [done..|]. simpl.
  rewrite (Hodd 0%nat a) by done. simpl.
  apply (IH (length rest)); [simpl; lia|done|].
  intros j b Hj. apply (Hodd (S j)).
  by replace (2 * S j + 1)%nat with (S (S (2 * j + 1))) by lia.
Qed.

Lemma transparent_tile_alpha input tx ty bx by_ :
  transparent_tile input tx ty = true ->
  0 <= bx < kTileSize -> 0 <= by_ < kTileSize ->
  alpha_at input (tx * kTileSize + bx) (ty * kTileSize + by_) = 0.
Proof.
  unfold transparent_tile. rewrite forallb_forall. intros Hall Hx Hy.
  specialize (Hall by_). rewrite forallb_forall in Hall.
  apply Z.eqb_eq, Hall; apply list_elem_of_In, elem_of_seqZ; lia.
Qed.

Lemma transparent_tile_IsBlank input tx ty :
  0 <= image_width input -> 0 <= tx -> 0 <= ty ->
  transparent_tile input tx ty = true ->
  IsBlank (art_tile input (tx, ty)) = true.
Proof.
  intros Hw Hx Hy Hclear. unfold IsBlank, art_tile, GetPixels.
  apply forallb_forall. intros row Hrow.
  apply list_elem_of_In, list_elem_of_fmap in Hrow as (i & -> & Hi).
  apply elem_of_seqZ in Hi. apply row_is_blank_odd. intros j a Hj.
  apply lookup_take_Some in Hj as [Hj Hlt]. rewrite lookup_drop in Hj.
  assert (0 <= Z.of_nat j < kTileSize) as Hjx
    by (unfold kTileSize, kBytesPerPixelGA in *; lia).
  pose proof (transparent_tile_alpha input tx ty (Z.of_nat j) i Hclear Hjx) as Ha.
  unfold alpha_at, byte_at in Ha.
  assert (Z.to_nat ((ty * kTileSize + i)
                    * (image_width input * kBytesPerPixelGA)
                    + (tx * kTileSize + Z.of_nat j) * kBytesPerPixelGA + 1)
          = (Z.to_nat ((tx, ty).2 * kTileSize
                       * (image_width input * kBytesPerPixelGA)
                       + (tx, ty).1 * kTileSize * kBytesPerPixelGA
                       + i * (image_width input * kBytesPerPixelGA))
             + (2 * j + 1))%nat) as Hoff
    by (unfold kTileSize, kBytesPerPixelGA in *; simpl; nia).
  rewrite Hoff, Hj in Ha.
  destruct (_ <? 0) eqn:Hneg; [|by apply Ha; lia].
  apply Z.ltb_lt in Hneg. unfold kTileSize, kBytesPerPixelGA in *. nia.
Qed.

(** C7.  In an image of whole tiles, for a tile whose pixels all have
    alpha zero: the loop body of [ProcessImage] at that tile leaves the
    table exactly as it was and writes the blank sentinel into the tile's
    cell, and the grid that [ProcessImage] returns holds the blank
    sentinel there. *)
Theorem blank_tile_not_interned input gw gh tx ty :
  whole_tiles input gw gh -> 0 <= tx < gw -> 0 <= ty < gh ->
  transparent_tile input tx ty = true ->
  (forall tbl out,
     rect gw gh out ->
     let st := ProcessImage_tile input (tx * kTileSize) (ty * kTileSize)
                 (tbl, out) in
     st.1 = tbl /\ cell st.2 tx ty = kBlankTile)
  /\ (forall tbl, cell (ProcessImage input tbl).2 tx ty = kBlankTile).
Proof.
  intros Hwhole Hx Hy Hclear.
  assert (IsBlank (art_tile input (tx, ty)) = true) as Hblank.
  { destruct Hwhole as (Hw & Hh & Hiw & Hih).
    apply transparent_tile_IsBlank; try done; try lia.
    rewrite Hiw. unfold kTileSize. lia. }
  split.
  - intros tbl out Hr st. subst st.
    rewrite (ProcessImage_tile_table input), (ProcessImage_tile_grid input), Hblank.
    split; [done|]. by apply (cell_set_cell_eq gw gh).
  - intros tbl.
    pose proof (ProcessImage_cell input gw gh Hwhole tbl tx ty Hx Hy) as Hc.
    cbv zeta in Hc. by rewrite Hblank in Hc.
Qed.

Lemma blank_tile_not_interned_witness :
  (forall tbl out,
     rect 2 1 out ->
     let st := ProcessImage_tile clear_layer (1 * kTileSize) (0 * kTileSize)
                 (tbl, out) in
     st.1 = tbl /\ cell st.2 1 0 = kBlankTile)
  /\ (forall tbl, cell (ProcessImage clear_layer tbl).2 1 0 = kBlankTile).
Proof.
  apply (blank_tile_not_interned clear_layer 2 1 1 0);
    [ repeat split; (lia || reflexivity) | lia | lia | vm_compute; reflexivity ].
Defined.


(** ** Serialization of an art layer *)

Example three_then_blank_packed :
  WriteTileTable three_then_blank = (43, Some [196613; 7; -40]).
Proof. reflexivity. Qed.

Example three_then_blank_unpacked :
  unpack [196613; 7; -40] = scanned_cells three_then_blank.
Proof. reflexivity. Qed.

Example long_blank_run_aborts :
  WriteTileTable long_blank_run = (49152, None).
Proof. vm_compute. reflexivity. Qed.

Lemma pair_value a b :
  1 <= a <= kMaxTileCount -> 0 <= b < 2 ^ 16 ->
  let v := Z.lor (Z.shiftl a 16) b in
  Z.shiftr v 16 = a /\ Z.land v 0xffff = b /\ 2 ^ 16 <= v /\ int32 v = v.
Proof.
  intros Ha Hb v. unfold kMaxTileCount in Ha.
  assert (Z.shiftr v 16 = a) as Hhi.
  { subst v. rewrite Z.shiftr_lor, Z.shiftr_shiftl_l, Z.sub_diag by lia.
    rewrite (Z.shiftr_div_pow2 b), Z.div_small by lia.
    by rewrite Z.shiftl_0_r, Z.lor_0_r. }
  assert (Z.land v 0xffff = b) as Hlo.
  { subst v. change 0xffff with (Z.ones 16).
    rewrite Z.land_lor_distr_l, !Z.land_ones by lia.
    rewrite Z.shiftl_mul_pow2, Z.mod_mul, Z.mod_small by lia. done. }
  assert (v = a * 2 ^ 16 + b) as Hv.
  { assert (v / 2 ^ 16 = a) as Hdiv
      by (by rewrite <- Z.shiftr_div_pow2 by lia).
    assert (v mod 2 ^ 16 = b) as Hmod
      by (by rewrite <- Z.land_ones by lia).
    pose proof (Z.div_mod v (2 ^ 16)). lia. }
  split; [done|]. split; [done|]. split; [lia|].
  unfold int32. rewrite Hv. rewrite Z.mod_small; lia.
Qed.

Lemma unpack_app l1 l2 : unpack (l1 ++ l2) = unpack l1 ++ unpack l2.
Proof. apply bind_app. Qed.

Lemma unpack_single v : unpack [v] = unpack_entry v.
Proof. unfold unpack. simpl. apply app_nil_r. Qed.

Lemma unpack_entry_run n :
  0 < n -> unpack_entry (- n) = replicate (Z.to_nat n) kBlankTile.
Proof.
  intros Hn. unfold unpack_entry.
  replace (- n <? 0) with true by (symmetry; apply Z.ltb_lt; lia).
  by rewrite Z.opp_involutive.
Qed.

Lemma unpack_entry_index a :
  1 <= a <= kMaxTileCount -> unpack_entry a = [a].
Proof.
  intros Ha. unfold kMaxTileCount in Ha. unfold unpack_entry.
  replace (a <? 0) with false by (symmetry; apply Z.ltb_ge; lia).
  replace (a >=? 2 ^ 16) with false; [done|].
  symmetry. rewrite Z.geb_leb. apply Z.leb_gt. lia.
Qed.

Lemma unpack_entry_pair a b :
  1 <= a <= kMaxTileCount -> 1 <= b <= kMaxTileCount ->
  unpack_entry (int32 (Z.lor (Z.shiftl a 16) b)) = [a; b].
Proof.
  intros Ha Hb.
  destruct (pair_value a b Ha) as (Hhi & Hlo & Hge & ->);
    [unfold kMaxTileCount in Hb; lia|].
  unfold unpack_entry.
  replace (_ <? 0) with false by (symmetry; apply Z.ltb_ge; lia).
  replace (_ >=? 2 ^ 16) with true
    by (symmetry; rewrite Z.geb_leb; apply Z.leb_le; lia).
  by rewrite Hhi, Hlo.
Qed.

Lemma replicate_snoc_blank (n : Z) :
  0 <= n ->
  replicate (Z.to_nat (n + 1)) kBlankTile
  = replicate (Z.to_nat n) kBlankTile ++ [kBlankTile].
Proof.
  intros Hn. replace (Z.to_nat (n + 1)) with (S (Z.to_nat n)) by lia.
  apply replicate_S_end.
Qed.

(** One cell more: unless the assertion fails, the state stays sound and
    stands for the cells so far with the new cell appended. *)
Ltac list_done := simpl; rewrite ?app_nil_r, <- ?app_assoc; simpl; done.

Lemma pack_cell_step st c :
  good_state st -> art_cell c ->
  (c = kBlankTile -> st.2 < kMaxBlankRun) ->
  exists st', pack_cell (Some st) c = Some st' /\ good_state st'
    /\ unpacked_state st' = unpacked_state st ++ [c]
    /\ st'.2 = (if c =? kBlankTile then st.2 + 1 else 0).
Proof.
  destruct st as [[out buf] n]. intros [Hbuf Hn] Hc Hrun. simpl in *.
  unfold pack_cell. destruct (c =? kBlankTile) eqn:Hblank.
  - apply Z.eqb_eq in Hblank. subst c.
    replace (n <? kMaxBlankRun) with true
      by (symmetry; apply Z.ltb_lt; by apply Hrun).
    eexists. split; [done|]. split; [split; simpl; [done|lia]|].
    split; [|done]. unfold unpacked_state. simpl.
    by rewrite replicate_snoc_blank, !app_assoc.
  - apply Z.eqb_neq in Hblank. destruct Hc as [?|Hc]; [done|].
    assert ((c =? 0) = false) as Hc0 by (apply Z.eqb_neq; lia).
    destruct (n >? 0) eqn:Hpos.
    + apply Z.gtb_lt in Hpos. eexists. split; [done|].
      unfold WriteBlankRun, FlushBufferedNonblankValue, Write, WriteNonblankTile,
        unpacked_state, good_state. simpl.
      destruct Hbuf as [->|Hbuf]; simpl.
      * rewrite Hc0. split; [split; [by right|done]|]. split; [|done].
        rewrite unpack_app, unpack_single, unpack_entry_run by done. list_done.
      * replace (buf =? 0) with false by (symmetry; apply Z.eqb_neq; lia).
        simpl. rewrite Hc0.
        split; [split; [by right|done]|]. split; [|done].
        rewrite !unpack_app, !unpack_single, unpack_entry_run,
          unpack_entry_index by done. list_done.
    + assert (n = 0) as -> by (rewrite Z.gtb_ltb in Hpos; apply Z.ltb_ge in Hpos; lia).
      eexists. split; [done|].
      unfold WriteNonblankTile, unpacked_state, good_state. simpl.
      destruct Hbuf as [->|Hbuf]; simpl.
      * rewrite Hc0. split; [split; [by right|done]|]. split; [|done].
        list_done.
      * replace (buf =? 0) with false by (symmetry; apply Z.eqb_neq; lia).
        simpl. split; [split; [by left|done]|]. split; [|done].
        rewrite unpack_app, unpack_single, unpack_entry_pair by done. list_done.
Qed.

Lemma pack_cells_run st cells :
  good_state st -> Forall art_cell cells ->
  runs_within kMaxBlankRun st.2 cells = true ->
  exists st', foldl pack_cell (Some st) cells = Some st' /\ good_state st'
    /\ unpacked_state st' = unpacked_state st ++ cells.
Proof.
  intros Hgood Hcells. revert st Hgood.
  induction Hcells as [|c cells Hc Hcells IH]; intros st Hgood Hruns.
  - exists st. by rewrite app_nil_r.
  - simpl in Hruns.
    destruct (pack_cell_step st c Hgood Hc) as (st1 & Hstep & Hgood1 & Hun & Hn).
    { intros ->. simpl in Hruns. by apply andb_true_iff in Hruns as [?%Z.ltb_lt _]. }
    destruct (IH st1 Hgood1) as (st' & Hfold & Hgood' & Hun').
    { rewrite Hn. destruct (c =? kBlankTile); [|done].
      by apply andb_true_iff in Hruns as [_ ?]. }
    exists st'.
    change (foldl pack_cell (Some st) (c :: cells))
      with (foldl pack_cell (pack_cell (Some st) c) cells).
    rewrite Hstep. split; [done|]. split; [done|].
    by rewrite Hun', Hun, <- app_assoc.
Qed.

Lemma pack_cells_None cells : foldl pack_cell None cells = None.
Proof. by induction cells. Qed.

Lemma pack_cells_abort st cells :
  good_state st -> Forall art_cell cells ->
  runs_within kMaxBlankRun st.2 cells = false ->
  foldl pack_cell (Some st) cells = None.
Proof.
  intros Hgood Hcells. revert st Hgood.
  induction Hcells as [|c cells Hc Hcells IH]; intros st Hgood Hruns; [done|].
  simpl in Hruns.
  destruct (decide (c = kBlankTile -> st.2 < kMaxBlankRun)) as [Hok|Hbad].
  - destruct (pack_cell_step st c Hgood Hc Hok) as (st1 & Hstep & Hgood1 & _ & Hn).
    change (foldl pack_cell (Some st) (c :: cells))
      with (foldl pack_cell (pack_cell (Some st) c) cells).
    rewrite Hstep. apply IH; [done|]. rewrite Hn.
    destruct (c =? kBlankTile) eqn:Hblank; [|done].
    apply andb_false_iff in Hruns as [Hlt|?]; [|done].
    apply Z.eqb_eq in Hblank. apply Z.ltb_ge in Hlt. specialize (Hok Hblank). lia.
  - simpl. destruct st as [t n]. simpl in *.
    destruct (c =? kBlankTile) eqn:Hblank.
    + replace (n <? kMaxBlankRun) with false; [apply pack_cells_None|].
      symmetry. apply Z.ltb_ge. apply Z.eqb_eq in Hblank.
      destruct (decide (n < kMaxBlankRun)); [|lia]. by exfalso; apply Hbad.
    + exfalso. apply Hbad. intros ->. done.
Qed.

Lemma final_flush st :
  good_state st ->
  unpack (written (Flush (if st.2 >? 0 then WriteBlankRun st.2 st.1 else st.1)))
  = unpacked_state st.
Proof.
  destruct st as [[out buf] n]. intros [Hbuf Hn]. simpl in *.
  unfold unpacked_state, Flush, WriteBlankRun, FlushBufferedNonblankValue, Write.
  simpl. destruct (n >? 0) eqn:Hpos.
  - apply Z.gtb_lt in Hpos. destruct Hbuf as [->|Hbuf]; simpl.
    + rewrite unpack_app, unpack_single, unpack_entry_run by done. list_done.
    + replace (buf =? 0) with false by (symmetry; apply Z.eqb_neq; lia). simpl.
      rewrite !unpack_app, !unpack_single, unpack_entry_run,
        unpack_entry_index by done. list_done.
  - assert (n = 0) as -> by (rewrite Z.gtb_ltb in Hpos; apply Z.ltb_ge in Hpos; lia).
    destruct Hbuf as [->|Hbuf]; simpl.
    + list_done.
    + replace (buf =? 0) with false by (symmetry; apply Z.eqb_neq; lia). simpl.
      rewrite unpack_app, unpack_single, unpack_entry_index by done. list_done.
Qed.

(** C6, as the code has it.  For every art layer whose cells are blank or
    1-based indices within the tile limit, and in whose scanned cells no
    run of blank cells is longer than 32767 (the bound that the packer
    asserts), [WriteTileTable] emits a table, and unpacking it yields
    exactly the cells of the layer up to the scan limit. *)
Theorem pack_unpack_roundtrip tiles :
  Forall (Forall art_cell) tiles ->
  runs_within kMaxBlankRun 0 (scanned_cells tiles) = true ->
  exists table,
    (WriteTileTable tiles).2 = Some table
    /\ unpack table = scanned_cells tiles.
Proof.
  intros Hcells Hruns.
  assert (Forall art_cell (scanned_cells tiles)) as Hscan.
  { unfold scanned_cells. apply Forall_concat. by apply Forall_take. }
  destruct (pack_cells_run ({| written := []; value_pair_buffer_ := 0 |}, 0)
              (scanned_cells tiles)) as (st & Hfold & Hgood & Hun);
    [split; simpl; [by left|done]|done|done|].
  unfold WriteTileTable. simpl. rewrite Hfold. destruct st as [t n].
  eexists. split; [done|].
  pose proof (final_flush (t, n) Hgood) as Hflush. simpl in Hflush.
  by rewrite Hflush, Hun.
Qed.

(** Beyond the bound the assertion fails and no table is emitted. *)
Lemma WriteTileTable_aborts tiles :
  Forall (Forall art_cell) tiles ->
  runs_within kMaxBlankRun 0 (scanned_cells tiles) = false ->
  (WriteTileTable tiles).2 = None.
Proof.
  intros Hcells Hruns.
  assert (Forall art_cell (scanned_cells tiles)) as Hscan.
  { unfold scanned_cells. apply Forall_concat. by apply Forall_take. }
  unfold WriteTileTable. simpl.
  rewrite (pack_cells_abort ({| written := []; value_pair_buffer_ := 0 |}, 0));
    try done.
  split; simpl; [by left|done].
Qed.

Lemma pack_unpack_roundtrip_witness :
  exists table,
    (WriteTileTable three_then_blank).2 = Some table
    /\ unpack table = scanned_cells three_then_blank.
Proof.
  apply (pack_unpack_roundtrip three_then_blank).
  - unfold three_then_blank. apply Forall_cons_2; [|apply Forall_nil_2].
    apply Forall_app. split.
    + repeat (apply Forall_cons_2; [right; unfold kMaxTileCount; lia|]).
      apply Forall_nil_2.
    + apply Forall_replicate. by left.
  - reflexivity.
Defined.

Lemma long_blank_run_cells : Forall (Forall art_cell) long_blank_run.
Proof.
  assert (forall n, Forall art_cell (replicate n kBlankTile)) as Hblank
    by (intros n; apply Forall_replicate; by left).
  unfold long_blank_run.
  apply Forall_cons_2; [apply Hblank|].
  apply Forall_cons_2; [apply Hblank|].
  apply Forall_cons_2; [|apply Forall_nil_2].
  apply Forall_app. split; [apply Hblank|].
  apply Forall_cons_2; [|apply Forall_nil_2]. right. unfold kMaxTileCount. lia.
Qed.

(** C6, as the spec words it, fails: not every sequence of art-layer cells
    is packed.  A layer of three rows of 16384 cells whose only tile is the
    last cell has a run of 49151 blank cells; the assertion
    [blank_count < 0x7fff] fails and there is no table to unpack. *)
Lemma long_blank_run_not_packed :
  ~ (forall tiles,
       Forall (Forall art_cell) tiles ->
       exists table,
         (WriteTileTable tiles).2 = Some table
         /\ unpack table = scanned_cells tiles).
Proof.
  intros H. destruct (H long_blank_run long_blank_run_cells) as (table & Htable & _).
  rewrite long_blank_run_aborts in Htable. discriminate Htable.
Qed.

Lemma row_has_tile_blank row :
  Forall (fun c => c = kBlankTile) row -> row_has_tile row = false.
Proof.
  intros Hrow. unfold row_has_tile.
  induction Hrow as [|c row -> Hrow IH]; [done|]. simpl. exact IH.
Qed.

Lemma IndexOfLastRow_from_blank tiles n :
  all_blank tiles -> IndexOfLastRow_from tiles n = 0.
Proof.
  intros Hblank. induction n as [|n IH]; [done|]. simpl.
  rewrite row_has_tile_blank; [done|].
  destruct (tiles !! S n) as [row|] eqn:Hrow; simpl; [|constructor].
  exact (proj1 (Forall_lookup _ _) Hblank _ _ Hrow).
Qed.

Lemma IndexOfLastRow_from_nonneg tiles n : 0 <= IndexOfLastRow_from tiles n.
Proof. induction n as [|n IH]; simpl; [done|]. case_match; lia. Qed.

Lemma IndexOfLastRow_nonneg tiles : 0 <= IndexOfLastRow tiles.
Proof. apply IndexOfLastRow_from_nonneg. Qed.

Lemma pack_blank_cells t n (k : nat) :
  0 <= n <= kMaxBlankRun ->
  foldl pack_cell (Some (t, n)) (replicate k kBlankTile) =
  if n + Z.of_nat k <=? kMaxBlankRun then Some (t, n + Z.of_nat k) else None.
Proof.
  revert n. induction k as [|k IH]; intros n Hn.
  - simpl. rewrite Z.add_0_r.
    by replace (n <=? kMaxBlankRun) with true by (symmetry; apply Z.leb_le; lia).
  - change (foldl pack_cell (Some (t, n)) (replicate (S k) kBlankTile))
      with (foldl pack_cell (pack_cell (Some (t, n)) kBlankTile)
                  (replicate k kBlankTile)).
    unfold pack_cell at 2. rewrite Z.eqb_refl.
    destruct (n <? kMaxBlankRun) eqn:Hlt.
    + apply Z.ltb_lt in Hlt. rewrite IH by lia.
      by replace (n + 1 + Z.of_nat k) with (n + Z.of_nat (S k)) by lia.
    + apply Z.ltb_ge in Hlt. rewrite pack_cells_None.
      by replace (n + Z.of_nat (S k) <=? kMaxBlankRun) with false
        by (symmetry; apply Z.leb_gt; lia).
Qed.

Lemma all_blank_row row :
  Forall (fun c => c = kBlankTile) row -> row = replicate (length row) kBlankTile.
Proof. intros Hrow. induction Hrow as [|c row -> Hrow IH]; simpl; by f_equal. Qed.

(** C10, as the code has it.  For an all-blank art layer of at least one
    row and one column, [IndexOfLastRow] returns 0 and the table declares a
    cell count equal to the grid width; its body is the single entry of a
    blank run of that length when the width is at most 32767, and beyond
    that the packer's assertion fails and there is no body.  For any grid
    of at least one row, the declared count covers at least one row. *)
Theorem all_blank_layer_table w h tiles :
  rect w h tiles -> 0 < w -> 0 < h -> all_blank tiles ->
  IndexOfLastRow tiles = 0
  /\ (WriteTileTable tiles).1 = w
  /\ (w <= kMaxBlankRun -> (WriteTileTable tiles).2 = Some [- w])
  /\ (kMaxBlankRun < w -> (WriteTileTable tiles).2 = None)
  /\ (forall tiles', rect w h tiles' -> w <= (WriteTileTable tiles').1).
Proof.
  intros Hr Hw Hh Hblank.
  assert (IndexOfLastRow tiles = 0) as Hlast
    by by apply IndexOfLastRow_from_blank.
  assert (forall tiles', rect w h tiles' ->
            Z.of_nat (length (default [] (head tiles'))) = w) as Hfront.
  { intros tiles' [Hlen Hrows]. destruct tiles' as [|row rows]; simpl in *; [lia|].
    by apply Forall_cons in Hrows as [? _]. }
  destruct tiles as [|row rows]; [destruct Hr; simpl in *; lia|].
  pose proof (Hfront _ Hr) as Hrow. simpl in Hrow.
  apply Forall_cons in Hblank as [Hrow_blank Hrest].
  assert (scanned_cells (row :: rows) = replicate (length row) kBlankTile)
    as Hscan.
  { unfold scanned_cells. rewrite Hlast.
    change (Z.to_nat (0 + 1)) with 1%nat. cbn [take concat].
    rewrite take_0. simpl. rewrite app_nil_r. by apply all_blank_row. }
  split; [done|]. unfold WriteTileTable.
  rewrite Hlast, Hscan. cbn [fst snd head default].
  rewrite pack_blank_cells by (unfold kMaxBlankRun; lia).
  change (id row) with row. rewrite !Z.add_0_l, !Hrow.
  split; [lia|]. split; [|split].
  - intros Hle.
    replace (w <=? kMaxBlankRun) with true by (symmetry; apply Z.leb_le; lia).
    by replace (w >? 0) with true by (symmetry; apply Z.gtb_lt; lia).
  - intros Hgt.
    by replace (w <=? kMaxBlankRun) with false
      by (symmetry; apply Z.leb_gt; lia).
  - intros tiles' Hr'. simpl. rewrite (Hfront _ Hr').
    pose proof (IndexOfLastRow_nonneg tiles'). nia.
Qed.

Lemma all_blank_layer_table_witness :
  IndexOfLastRow blank_layer = 0
  /\ (WriteTileTable blank_layer).1 = 3
  /\ (3 <= kMaxBlankRun -> (WriteTileTable blank_layer).2 = Some [- 3])
  /\ (kMaxBlankRun < 3 -> (WriteTileTable blank_layer).2 = None)
  /\ (forall tiles', rect 3 2 tiles' -> 3 <= (WriteTileTable tiles').1).
Proof.
  apply (all_blank_layer_table 3 2 blank_layer);
    [concrete_grid | lia | lia | repeat constructor].
Defined.

Example wide_blank_layer_aborts :
  WriteTileTable wide_blank_layer = (32768, None).
Proof. vm_compute. reflexivity. Qed.

(** C10, as the spec words it, fails for very wide layers: the body of an
    all-blank layer is not always a single blank-run entry.  For a single
    row of 32768 blank cells the count 32768 is declared, but the assertion
    [blank_count < 0x7fff] fails at the last cell and no body is
    written. *)
Lemma wide_blank_layer_has_no_body :
  ~ (forall w h tiles,
       rect w h tiles -> 0 < w -> 0 < h -> all_blank tiles ->
       (WriteTileTable tiles).2 = Some [- w]).
Proof.
  intros H. specialize (H 32768 1 wide_blank_layer).
  rewrite wide_blank_layer_aborts in H.
  assert (@None (list Z) = Some [- 32768]) as Habs; [|discriminate Habs].
  apply H; [| lia | lia |].
  - split; [done|]. apply Forall_cons_2; [|apply Forall_nil_2].
    rewrite length_replicate. done.
  - apply Forall_cons_2; [|apply Forall_nil_2]. by apply Forall_replicate.
Qed.


(** ** What annotation guarantees to the later passes *)

Lemma rect_Forall_cells (P : Z -> Prop) w h g :
  rect w h g ->
  (forall x y, 0 <= x < w -> 0 <= y < h -> P (cell g x y)) ->
  Forall (Forall P) g.
Proof.
  intros [Hh Hw] Hcells.
  apply Forall_lookup. intros i row Hrow.
  apply Forall_lookup. intros j c Hc.
  pose proof (proj1 (Forall_lookup _ _) Hw _ _ Hrow) as Hlen. simpl in Hlen.
  pose proof (lookup_lt_Some _ _ _ Hrow) as Hi.
  pose proof (lookup_lt_Some _ _ _ Hc) as Hj.
  specialize (Hcells (Z.of_nat j) (Z.of_nat i)).
  unfold cell in Hcells.
  replace ((Z.of_nat j <? 0) || (Z.of_nat i <? 0)) with false in Hcells
    by (symmetry; apply orb_false_iff; split; apply Z.ltb_ge; lia).
  rewrite !Nat2Z.id, Hrow, Hc in Hcells. apply Hcells; lia.
Qed.

Lemma annotated_shape_bits bits tile :
  Z.land (Z.lor (collision_shape bits) (special_tags tile)) kCollisionMask
  = collision_shape bits.
Proof.
  rewrite Z.land_lor_distr_l, special_tags_collision, Z.lor_0_r.
  unfold collision_shape. by repeat case_match.
Qed.

(** The grid that [ProcessAnnotations] fills holds only the six collision
    shapes, so the unreachable branch of [DetectMountPoints] is never
    taken, and no mount bit is set in it yet. *)
Lemma ProcessAnnotations_shapes input gw gh st :
  whole_tiles input gw gh -> rect gw gh (grid st) ->
  shapes_ok (grid (ProcessAnnotations input st))
  /\ forall tx ty, 0 <= tx < gw -> 0 <= ty < gh ->
       Z.land (cell (grid (ProcessAnnotations input st)) tx ty) kMountMask = 0.
Proof.
  intros Hwhole Hr. split.
  - apply (rect_Forall_cells _ gw gh); [by apply ProcessAnnotations_rect|].
    intros x y Hx Hy. rewrite (ProcessAnnotations_cell input gw gh) by done.
    rewrite annotated_shape_bits. unfold collision_shape.
    by repeat case_match.
  - intros tx ty Hx Hy. rewrite (ProcessAnnotations_cell input gw gh) by done.
    rewrite Z.land_lor_distr_l, special_tags_mount, Z.lor_0_r.
    unfold collision_shape. by repeat case_match.
Qed.

Lemma raster_loop_invariant {S : Type} (P : S -> Prop) w h
    (body : Z -> Z -> S -> S) s :
  P s ->
  (forall x y s, 0 <= x < w -> 0 <= y < h -> P s -> P (body x y s)) ->
  P (raster_loop w h body s).
Proof.
  intros Hs Hbody. rewrite raster_loop_run.
  assert (forall p, p ∈ raster w h -> 0 <= p.1 < w /\ 0 <= p.2 < h) as Hin
    by (intros [x y]; apply elem_of_raster).
  revert s Hs Hin. generalize (raster w h) as l.
  induction l as [|[x y] l IH]; intros s Hs Hin; [done|].
  rewrite run_cells_cons. apply IH.
  - destruct (Hin (x, y)) as [Hx Hy]; [left|]. by apply Hbody.
  - intros p Hp. apply Hin. by right.
Qed.

(** The assertions of the two mount checks hold of every position that
    [ProcessAnnotations] records. *)
Lemma ProcessAnnotations_positions input gw gh st :
  whole_tiles input gw gh ->
  Forall (start_asserts gw gh) (start st) ->
  Forall (teleport_asserts gw gh) (teleport st) ->
  Forall (start_asserts gw gh) (start (ProcessAnnotations input st))
  /\ Forall (teleport_asserts gw gh) (teleport (ProcessAnnotations input st)).
Proof.
  intros Hwhole Hs Ht.
  rewrite (ProcessAnnotations_raster input gw gh Hwhole).
  apply (raster_loop_invariant
           (fun st => Forall (start_asserts gw gh) (start st)
                      /\ Forall (teleport_asserts gw gh) (teleport st)));
    [done|].
  intros tx ty st0 Hx Hy [Hs0 Ht0].
  unfold ProcessAnnotations_tile. cbv zeta.
  destruct (if IsBreakable _ _ _ then _ else _) as [bits thr]. simpl.
  split.
  - destruct (IsStartingPosition _ kRPointX kRPointY); [|done].
    apply Forall_app. split; [done|]. apply Forall_cons_2; [|apply Forall_nil_2].
    unfold start_asserts, kTileSize in *. simpl.
    change (Z.quot 32 2) with 16.
    rewrite !Z.rem_mod_nonneg, !Z.quot_div_nonneg by lia.
    repeat split; Z.div_mod_to_equations; lia.
  - destruct (IsStartingPosition _ kUPointX kUPointY); [|done].
    apply Forall_app. split; [done|]. apply Forall_cons_2; [|apply Forall_nil_2].
    unfold teleport_asserts, kTileSize in *. simpl.
    change (Z.quot 32 2) with 16.
    rewrite !Z.rem_mod_nonneg, !Z.quot_div_nonneg by lia.
    repeat split; Z.div_mod_to_equations; lia.
Qed.


(** * Further properties *)

(** ** Mount detection *)

(** Two grids of the same size with the same cells are the same grid. *)
Lemma rect_ext w h g1 g2 :
  rect w h g1 -> rect w h g2 ->
  (forall x y, 0 <= x < w -> 0 <= y < h -> cell g1 x y = cell g2 x y) ->
  g1 = g2.
Proof.
  intros [Hh1 Hw1] [Hh2 Hw2] Hc.
  apply list_eq_same_length with (Z.to_nat h); [lia | lia |].
  intros i r1 r2 Hi H1 H2.
  pose proof (Forall_lookup_1 _ _ _ _ Hw1 H1) as L1.
  pose proof (Forall_lookup_1 _ _ _ _ Hw2 H2) as L2. simpl in L1, L2.
  apply list_eq_same_length with (Z.to_nat w); [lia | lia |].
  intros j a b Hj Ha Hb.
  specialize (Hc (Z.of_nat j) (Z.of_nat i)).
  unfold cell in Hc. rewrite !Nat2Z.id, H1, H2, Ha, Hb in Hc.
  replace (Z.of_nat j <? 0) with false in Hc by (symmetry; apply Z.ltb_ge; lia).
  replace (Z.of_nat i <? 0) with false in Hc by (symmetry; apply Z.ltb_ge; lia).
  simpl in Hc. apply Hc; lia.
Qed.























(** ** Obstacle adjustment *)

Lemma verdict_Keep_iff w h x y g :
  verdict w h x y g = Keep <-> Z.land (cell g x y) kCollectibleTileMask = 0.
Proof.
  unfold verdict. cbv zeta.
  destruct (Z.eqb_spec (Z.land (cell g x y) kCollectibleTileMask) 0) as [E|E];
    [done|].
  split; [|done]. repeat case_match; done.
Qed.

(** X6. Obstacle adjustment only rewrites collectible direction bits.  In
    every cell the bits outside [kCollectibleTileMask] are after
    [AdjustObstacles] what they were before, whether the pass succeeds or
    not; a cell without collectible bits is not changed at all; and the
    grid keeps its size. *)
Theorem AdjustObstacles_changes_collectible_bits_only w h g x y :
  rect w h g ->
  rect w h (output (AdjustObstacles w h g))
  /\ Z.land (cell (output (AdjustObstacles w h g)) x y)
            (Z.lnot kCollectibleTileMask)
     = Z.land (cell g x y) (Z.lnot kCollectibleTileMask)
  /\ (Z.land (cell g x y) kCollectibleTileMask = 0 ->
      cell (output (AdjustObstacles w h g)) x y = cell g x y).
Proof.
  intros Hr. split; [by apply AdjustObstacles_rect|]. split.
  - apply (AdjustObstacles_same_view w h g Hr x y).
  - intros Hc.
    destruct (decide (0 <= x < w /\ 0 <= y < h)) as [[Hx Hy]|Hout].
    + rewrite AdjustObstacles_cell_final by done.
      apply (verdict_Keep_iff w h) in Hc. by rewrite Hc.
    + rewrite (cell_outside w h (output (AdjustObstacles w h g))),
        (cell_outside w h g); auto using AdjustObstacles_rect.
Qed.

Lemma AdjustObstacles_changes_collectible_bits_only_witness :
  rect 3 3 (output (AdjustObstacles 3 3 wall_on_left))
  /\ Z.land (cell (output (AdjustObstacles 3 3 wall_on_left)) 1 1)
            (Z.lnot kCollectibleTileMask)
     = Z.land (cell wall_on_left 1 1) (Z.lnot kCollectibleTileMask)
  /\ (Z.land (cell wall_on_left 1 1) kCollectibleTileMask = 0 ->
      cell (output (AdjustObstacles 3 3 wall_on_left)) 1 1
      = cell wall_on_left 1 1).
Proof.
  apply (AdjustObstacles_changes_collectible_bits_only 3 3 wall_on_left 1 1).
  concrete_grid.
Defined.

(** X7. When obstacle adjustment succeeds.  [AdjustObstacles] returns
    success exactly when it prints nothing, and that is exactly when no
    cell of the grid breaks a placement rule (a breakable tile without
    collision bits or reaction flag, or a collectible the loop rejects)
    and the collectibles that get a direction number at most
    [kMaxCollectibleObstacles]; the counter it keeps is the number of those
    collectibles. *)
Theorem AdjustObstacles_success_iff w h g :
  rect w h g ->
  (success_status (AdjustObstacles w h g) = true
   <-> printed (AdjustObstacles w h g) = [])
  /\ (success_status (AdjustObstacles w h g) = true
      <-> (forall x y, 0 <= x < w -> 0 <= y < h ->
             cell_violation w h g (x, y) = false)
          /\ resolved_count w h g (raster w h) <= kMaxCollectibleObstacles)
  /\ collectible_obstacles (AdjustObstacles w h g)
     = resolved_count w h g (raster w h).
Proof.
  intros Hr.
  destruct (AdjustObstacles_report w h g Hr) as (Hok & Hcount & Hlog).
  cbv zeta in Hok, Hlog. rewrite Hok, Hlog, Hcount.
  split; [apply no_diags_nil|]. split; [|done].
  rewrite no_diags_nil. apply obstacle_violations_nil.
Qed.

Lemma AdjustObstacles_success_iff_witness :
  (success_status (AdjustObstacles 3 3 wall_on_left) = true
   <-> printed (AdjustObstacles 3 3 wall_on_left) = [])
  /\ (success_status (AdjustObstacles 3 3 wall_on_left) = true
      <-> (forall x y, 0 <= x < 3 -> 0 <= y < 3 ->
             cell_violation 3 3 wall_on_left (x, y) = false)
          /\ resolved_count 3 3 wall_on_left (raster 3 3)
             <= kMaxCollectibleObstacles)
  /\ collectible_obstacles (AdjustObstacles 3 3 wall_on_left)
     = resolved_count 3 3 wall_on_left (raster 3 3).
Proof. apply (AdjustObstacles_success_iff 3 3 wall_on_left). concrete_grid. Defined.

Lemma diags_from_breakable w h g c l x y :
  (x, y) ∈ l -> breakable_bad (cell g x y) = true ->
  BreakableNeedsCollision y x ∈ diags_from w h g c l.
Proof.
  revert c. induction l as [|p l IH]; intros c Hin Hb.
  - by apply elem_of_nil in Hin.
  - simpl. apply elem_of_app.
    apply elem_of_cons in Hin as [<-|Hin]; [left|right; by apply IH].
    unfold cell_diags. simpl. rewrite Hb. apply elem_of_app. left.
    apply list_elem_of_here.
Qed.

Lemma no_diags_elem d ds : d ∈ ds -> no_diags ds = false.
Proof. destruct ds; [intros H; by apply elem_of_nil in H | done]. Qed.

(** X8. A breakable tile needs something to break.  If a cell of the grid
    has the breakable flag but no collision bits and neither reaction
    flag, [AdjustObstacles] fails and prints the diagnostic of that cell,
    wherever the cell is and whatever else is wrong. *)
Theorem breakable_without_collision_rejected w h g x y :
  rect w h g -> 0 <= x < w -> 0 <= y < h ->
  Z.land (cell g x y) kBreakableTile <> 0 ->
  Z.land (cell g x y)
         (Z.lor (Z.lor kCollisionMask kChainReaction) kTerminalReaction) = 0 ->
  success_status (AdjustObstacles w h g) = false
  /\ BreakableNeedsCollision y x ∈ printed (AdjustObstacles w h g).
Proof.
  intros Hr Hx Hy Hb Hc.
  destruct (AdjustObstacles_report w h g Hr) as (Hok & _ & Hlog).
  cbv zeta in Hok, Hlog. rewrite Hok, Hlog.
  assert (BreakableNeedsCollision y x ∈ diags_from w h g 0 (raster w h)) as Hin.
  { apply diags_from_breakable; [by apply elem_of_raster|].
    unfold breakable_bad. rewrite Hc.
    by destruct (Z.eqb_spec (Z.land (cell g x y) kBreakableTile) 0). }
  split; [by apply (no_diags_elem _ _ Hin) | done].
Qed.

Lemma breakable_without_collision_rejected_witness :
  success_status (AdjustObstacles 3 3 loose_breakable) = false
  /\ BreakableNeedsCollision 1 1 ∈ printed (AdjustObstacles 3 3 loose_breakable).
Proof.
  apply (breakable_without_collision_rejected 3 3 loose_breakable 1 1);
    [concrete_grid | lia | lia | vm_compute; discriminate | reflexivity].
Defined.

(** X9. Collectibles keep to themselves and off the border.  A cell with
    collectible bits that also has any bit other than the terminal
    reaction flag is reported as an overlap; one without such bits that
    lies in the first or last row or column of the grid is reported as too
    close to the edge, before any neighbour is looked at.  Either way
    [AdjustObstacles] fails and the cell is left as it was. *)
Theorem collectible_overlap_or_edge_rejected w h g x y :
  rect w h g -> 0 <= x < w -> 0 <= y < h ->
  Z.land (cell g x y) kCollectibleTileMask <> 0 ->
  Z.land (cell g x y) (Z.lnot (Z.lor kCollectibleTileMask kTerminalReaction)) <> 0
  \/ x = 0 \/ x = w - 1 \/ y = 0 \/ y = h - 1 ->
  success_status (AdjustObstacles w h g) = false
  /\ (if Z.land (cell g x y)
           (Z.lnot (Z.lor kCollectibleTileMask kTerminalReaction)) =? 0
      then CollectibleNearEdge y x else CollectibleOverlap y x)
     ∈ printed (AdjustObstacles w h g)
  /\ cell (output (AdjustObstacles w h g)) x y = cell g x y.
Proof.
  intros Hr Hx Hy Hc Hbad.
  set (d := if Z.land (cell g x y)
                 (Z.lnot (Z.lor kCollectibleTileMask kTerminalReaction)) =? 0
            then CollectibleNearEdge y x else CollectibleOverlap y x).
  assert (verdict w h x y g = Reject d) as Hv.
  { unfold verdict, d. cbv zeta.
    destruct (Z.eqb_spec (Z.land (cell g x y) kCollectibleTileMask) 0); [done|].
    destruct (Z.eqb_spec (Z.land (cell g x y)
                (Z.lnot (Z.lor kCollectibleTileMask kTerminalReaction))) 0)
      as [E|E]; [|done]. simpl.
    destruct Hbad as [Hbad|Hedge]; [done|].
    replace ((x =? 0) || (x =? w - 1) || (y =? 0) || (y =? h - 1)) with true;
      [done|].
    symmetry. rewrite !orb_true_iff, !Z.eqb_eq. tauto. }
  destruct (AdjustObstacles_report w h g Hr) as (Hok & _ & Hlog).
  cbv zeta in Hok, Hlog. rewrite Hok, Hlog.
  assert (d ∈ diags_from w h g 0 (raster w h)) as Hin
    by (apply (diags_from_reject w h g 0 _ x y); [by apply elem_of_raster|done]).
  split; [by apply (no_diags_elem _ _ Hin)|]. split; [done|].
  rewrite AdjustObstacles_cell_final by done. by rewrite Hv.
Qed.

Lemma collectible_overlap_or_edge_rejected_witness :
  success_status (AdjustObstacles 3 3 corner_collectible) = false
  /\ (if Z.land (cell corner_collectible 0 0)
           (Z.lnot (Z.lor kCollectibleTileMask kTerminalReaction)) =? 0
      then CollectibleNearEdge 0 0 else CollectibleOverlap 0 0)
     ∈ printed (AdjustObstacles 3 3 corner_collectible)
  /\ cell (output (AdjustObstacles 3 3 corner_collectible)) 0 0
     = cell corner_collectible 0 0.
Proof.
  apply (collectible_overlap_or_edge_rejected 3 3 corner_collectible 0 0);
    [concrete_grid | lia | lia | vm_compute; discriminate | right; left; reflexivity].
Defined.


(** ** Ghost cleanup, the whole pass *)

Lemma RemoveGhosts_rect w h g : rect w h g -> rect w h (RemoveGhosts w h g).2.
Proof.
  unfold RemoveGhosts. simpl.
  apply (pass_rect (fun g : TileMap => g) w h RemoveGhosts_cell).
  intros; by apply RemoveGhosts_cell_rect.
Qed.

Lemma RemoveGhosts_value w h g x y :
  rect w h g ->
  cell (RemoveGhosts w h g).2 x y =
  if Z.land (cell g x y) kGhostCollisionTile =? 0 then cell g x y
  else Z.land (cell g x y) (Z.lnot (Z.lor kGhostCollisionTile kCollisionMask)).
Proof.
  intros Hr.
  destruct (decide (0 <= x < w /\ 0 <= y < h)) as [[Hx Hy]|Hout].
  - rewrite (RemoveGhosts_cell_final w h) by done.
    by apply (RemoveGhosts_cell_eq w h).
  - rewrite (cell_outside w h (RemoveGhosts w h g).2), (cell_outside w h g);
      auto using RemoveGhosts_rect.
Qed.

Lemma RemoveGhosts_keeps w h g x y k :
  rect w h g -> Z.land k (Z.lor kGhostCollisionTile kCollisionMask) = 0 ->
  Z.land (cell (RemoveGhosts w h g).2 x y) k = Z.land (cell g x y) k.
Proof.
  intros Hr Hk. rewrite RemoveGhosts_value by done.
  destruct (_ =? 0); [done|]. by apply land_lnot_disjoint.
Qed.

Lemma RemoveGhosts_no_ghost w h g x y :
  rect w h g -> Z.land (cell (RemoveGhosts w h g).2 x y) kGhostCollisionTile = 0.
Proof.
  intros Hr. rewrite RemoveGhosts_value by done.
  destruct (Z.eqb_spec (Z.land (cell g x y) kGhostCollisionTile) 0); [done|].
  by apply land_lnot_within.
Qed.

(** X10. Ghost cleanup is idempotent, and leaves no ghost behind: after
    [RemoveGhosts] no cell carries the ghost flag, so running the pass
    again changes nothing. *)
Theorem RemoveGhosts_idempotent w h g :
  rect w h g ->
  (forall x y, Z.land (cell (RemoveGhosts w h g).2 x y) kGhostCollisionTile = 0)
  /\ (RemoveGhosts w h (RemoveGhosts w h g).2).2 = (RemoveGhosts w h g).2.
Proof.
  intros Hr. split; [intros; by apply RemoveGhosts_no_ghost|].
  pose proof (RemoveGhosts_rect w h g Hr) as Hr1.
  apply (rect_ext w h); [by apply RemoveGhosts_rect | done |].
  intros x y _ _.
  rewrite (RemoveGhosts_value w h (RemoveGhosts w h g).2) by done.
  by rewrite RemoveGhosts_no_ghost.
Qed.

Lemma RemoveGhosts_idempotent_witness :
  (forall x y, Z.land (cell (RemoveGhosts 2 1 ghost_row).2 x y)
                      kGhostCollisionTile = 0)
  /\ (RemoveGhosts 2 1 (RemoveGhosts 2 1 ghost_row).2).2
     = (RemoveGhosts 2 1 ghost_row).2.
Proof. apply (RemoveGhosts_idempotent 2 1 ghost_row). concrete_grid. Defined.

(** ** The metadata layer, when it is accepted *)

(** What a successful run of [ProcessMetadataImage] went through. *)
Lemma ProcessMetadataImage_success input gw gh start0 teleport0 throwables0 :
  whole_tiles input gw gh ->
  let r := ProcessMetadataImage input start0 teleport0 throwables0 in
  let g0 := mounted_grid input start0 teleport0 throwables0 in
  let g := output (AdjustObstacles gw gh g0) in
  m_ok r = true ->
  success_status (AdjustObstacles gw gh g0) = true
  /\ check_status (CheckStartingPoints (m_start r) g) = true
  /\ check_status (CheckTeleportPoints (m_teleport r) g) = true
  /\ check_status (CheckTerminalReactions gw gh g) = true
  /\ m_output r = (RemoveGhosts gw gh g).2
  /\ m_printed r = [].
Proof.
  intros Hwhole r g0 g.
  pose proof (mounted_grid_rect input gw gh start0 teleport0 throwables0 Hwhole)
    as Hr.
  pose proof Hwhole as (Hw & Hh & Hiw & Hih).
  subst r g g0.
  destruct (ProcessMetadataImage_positions input start0 teleport0 throwables0)
    as (Hs & Ht & _).
  cbv zeta in Hs, Ht. rewrite Hs, Ht. unfold ProcessMetadataImage.
  fold (mounted_grid input start0 teleport0 throwables0).
  rewrite Hiw, Hih, !quot_tile. cbv zeta.
  set (g0 := mounted_grid input start0 teleport0 throwables0) in *.
  destruct (AdjustObstacles_report gw gh g0 Hr) as (HokA & _ & HlogA).
  cbv zeta in HokA, HlogA.
  destruct (success_status (AdjustObstacles gw gh g0)) eqn:EA; simpl; [|done].
  symmetry in HokA. apply no_diags_nil in HokA. rewrite HlogA, HokA.
  set (g := output (AdjustObstacles gw gh g0)).
  rewrite CheckStartingPoints_violations, CheckTeleportPoints_violations,
    CheckTerminalReactions_violations. simpl.
  destruct (no_diags (start_violations g _)) eqn:E1; simpl; [|done].
  apply no_diags_nil in E1. rewrite E1.
  destruct (no_diags (teleport_violations g _)) eqn:E2; simpl; [|done].
  apply no_diags_nil in E2. rewrite E2.
  destruct (no_diags (terminal_violations gw gh g)) eqn:E3; simpl; [|done].
  apply no_diags_nil in E3. rewrite E3. done.
Qed.

Lemma success_no_reject w h g x y :
  rect w h g -> 0 <= x < w -> 0 <= y < h ->
  success_status (AdjustObstacles w h g) = true ->
  is_reject (verdict w h x y g) = false.
Proof.
  intros Hr Hx Hy Hok.
  destruct (AdjustObstacles_report w h g Hr) as (HokA & _ & _).
  cbv zeta in HokA. rewrite Hok in HokA. symmetry in HokA.
  apply no_diags_nil, obstacle_violations_nil in HokA as [Hall _].
  specialize (Hall x y Hx Hy). unfold cell_violation in Hall.
  by apply orb_false_iff in Hall as [_ Hall].
Qed.

Lemma success_collectible_bits w h g x y :
  rect w h g -> 0 <= x < w -> 0 <= y < h ->
  success_status (AdjustObstacles w h g) = true ->
  Z.land (cell (output (AdjustObstacles w h g)) x y) kCollectibleTileMask
  = match verdict w h x y g with Point dir => dir | _ => 0 end
  /\ (resolved w h g (x, y) = true
      <-> Z.land (cell (output (AdjustObstacles w h g)) x y)
                 kCollectibleTileMask <> 0).
Proof.
  intros Hr Hx Hy Hok.
  pose proof (success_no_reject w h g x y Hr Hx Hy Hok) as Hrej.
  rewrite AdjustObstacles_cell_final by done. unfold resolved. simpl.
  destruct (verdict w h x y g) as [| |dir] eqn:Hv; [|done|].
  - apply verdict_Keep_iff in Hv. rewrite Hv. by split.
  - apply verdict_Point in Hv as [d ->]. rewrite collectible_bit_alone.
    split; [done|]. split; [intros _|done]. by destruct d.
Qed.

(** X11. The grid of an accepted metadata layer.  When
    [ProcessMetadataImage] returns success it has printed nothing, and in
    the grid it leaves no cell carries the ghost flag and every cell has
    either no collectible bit or exactly one, the bit of a single
    direction. *)
Theorem accepted_metadata_grid input gw gh start0 teleport0 throwables0 x y :
  whole_tiles input gw gh ->
  let r := ProcessMetadataImage input start0 teleport0 throwables0 in
  m_ok r = true ->
  m_printed r = []
  /\ rect gw gh (m_output r)
  /\ Z.land (cell (m_output r) x y) kGhostCollisionTile = 0
  /\ (Z.land (cell (m_output r) x y) kCollectibleTileMask = 0
      \/ exists d, Z.land (cell (m_output r) x y) kCollectibleTileMask
                   = collectible_bit d).
Proof.
  intros Hwhole r Hok.
  pose proof (mounted_grid_rect input gw gh start0 teleport0 throwables0 Hwhole)
    as Hr0.
  destruct (ProcessMetadataImage_success input gw gh start0 teleport0
              throwables0 Hwhole Hok) as (HA & _ & _ & _ & Hout & Hlog).
  fold r in Hout, Hlog. rewrite Hout.
  set (g0 := mounted_grid input start0 teleport0 throwables0) in *.
  pose proof (AdjustObstacles_rect gw gh g0 Hr0) as Hr.
  split; [done|]. split; [by apply RemoveGhosts_rect|].
  split; [by apply RemoveGhosts_no_ghost|].
  rewrite RemoveGhosts_keeps by done.
  destruct (decide (0 <= x < gw /\ 0 <= y < gh)) as [[Hx Hy]|Hout'].
  - destruct (success_collectible_bits gw gh g0 x y Hr0 Hx Hy HA) as [-> _].
    destruct (verdict gw gh x y g0) as [| |dir] eqn:Hv; [by left..|].
    right. by apply verdict_Point in Hv.
  - left. by rewrite (cell_outside gw gh).
Qed.

Lemma accepted_metadata_grid_witness :
  let r := ProcessMetadataImage walled_item [] [] [] in
  m_printed r = []
  /\ rect 3 3 (m_output r)
  /\ Z.land (cell (m_output r) 1 1) kGhostCollisionTile = 0
  /\ (Z.land (cell (m_output r) 1 1) kCollectibleTileMask = 0
      \/ exists d, Z.land (cell (m_output r) 1 1) kCollectibleTileMask
                   = collectible_bit d).
Proof.
  apply (accepted_metadata_grid walled_item 3 3 [] [] [] 1 1);
    [repeat split; (lia || reflexivity) | vm_compute; reflexivity].
Defined.

Lemma RemoveGhosts_mounts w h g x y :
  rect w h g ->
  Z.land (cell (RemoveGhosts w h g).2 x y) kMountMask
  = Z.land (cell g x y) kMountMask.
Proof. intros Hr. by apply RemoveGhosts_keeps. Qed.

(** X12. What validation guarantees of the grid that is written.  When
    [ProcessMetadataImage] returns success, in the final grid (after ghost
    removal) the tile of every recorded starting position has mount bits
    right or left-and-right, the tile of every recorded teleport station
    has mount bits up or up-and-down, and every cell with the terminal
    reaction flag has a neighbour with the chain reaction flag. *)
Theorem accepted_metadata_positions input gw gh start0 teleport0 throwables0 :
  whole_tiles input gw gh ->
  let r := ProcessMetadataImage input start0 teleport0 throwables0 in
  m_ok r = true ->
  (forall p, p ∈ m_start r -> bad_start (m_output r) p = false)
  /\ (forall p, p ∈ m_teleport r -> bad_teleport (m_output r) p = false)
  /\ (forall x y, 0 <= x < gw -> 0 <= y < gh ->
        Z.land (cell (m_output r) x y) kTerminalReaction <> 0 ->
        chain_neighbor gw gh (m_output r) x y).
Proof.
  intros Hwhole r Hok.
  pose proof (mounted_grid_rect input gw gh start0 teleport0 throwables0 Hwhole)
    as Hr0.
  destruct (ProcessMetadataImage_success input gw gh start0 teleport0
              throwables0 Hwhole Hok) as (_ & HS & HT & HR & Hout & _).
  fold r in HS, HT, Hout. rewrite Hout.
  set (g0 := mounted_grid input start0 teleport0 throwables0) in *.
  pose proof (AdjustObstacles_rect gw gh g0 Hr0) as Hr.
  set (g := output (AdjustObstacles gw gh g0)) in *.
  rewrite CheckStartingPoints_eq in HS. rewrite CheckTeleportPoints_eq in HT.
  rewrite CheckTerminalReactions_eq in HR. simpl in HS, HT, HR.
  rewrite forallb_forall in HS, HT, HR.
  split; [|split].
  - intros p Hp. apply list_elem_of_In in Hp. specialize (HS p Hp).
    apply negb_true_iff in HS. unfold bad_start in *. cbv zeta in *.
    by rewrite RemoveGhosts_mounts.
  - intros p Hp. apply list_elem_of_In in Hp. specialize (HT p Hp).
    apply negb_true_iff in HT. unfold bad_teleport in *. cbv zeta in *.
    by rewrite RemoveGhosts_mounts.
  - intros x y Hx Hy Hterm.
    rewrite RemoveGhosts_keeps in Hterm by done.
    assert ((x, y) ∈ raster gw gh) as Hin by by apply elem_of_raster.
    apply list_elem_of_In in Hin. specialize (HR _ Hin).
    apply negb_true_iff in HR.
    unfold lonely_terminal in HR. simpl in HR.
    destruct (Z.eqb_spec (Z.land (cell g x y) kTerminalReaction) 0) as [E|_];
      [done|]. simpl in HR. apply negb_false_iff in HR.
    apply adjacent_to_chain_reaction_spec in HR
      as (x' & y' & Hin' & Hadj & Hc); [|done..].
    exists x', y'. split; [done|]. split; [done|].
    by rewrite RemoveGhosts_keeps.
Qed.

Lemma accepted_metadata_positions_witness :
  let r := ProcessMetadataImage walled_item [] [] [] in
  (forall p, p ∈ m_start r -> bad_start (m_output r) p = false)
  /\ (forall p, p ∈ m_teleport r -> bad_teleport (m_output r) p = false)
  /\ (forall x y, 0 <= x < 3 -> 0 <= y < 3 ->
        Z.land (cell (m_output r) x y) kTerminalReaction <> 0 ->
        chain_neighbor 3 3 (m_output r) x y).
Proof.
  apply (accepted_metadata_positions walled_item 3 3 [] [] []);
    [repeat split; (lia || reflexivity) | vm_compute; reflexivity].
Defined.

(** ** Map statistics *)










(** ** Starting positions and teleport stations *)



(** ** Colour classes *)

Lemma land_lor_sum p a b :
  Z.land a b = 0 -> Z.land p (Z.lor a b) = Z.land p a + Z.land p b.
Proof.
  intros Hab. rewrite Z.land_lor_distr_r.
  rewrite <- Z.lxor_lor, <- Z.add_nocarry_lxor; [done|..];
    rewrite Z.land_assoc, (Z.land_comm (Z.land p a) p), Z.land_assoc,
      Z.land_diag, <- Z.land_assoc, Hab; apply Z.land_0_r.
Qed.

(** The bits of [p] from bit [a] up to bit [b], as remainders. *)
Lemma land_bit_range p a b d :
  0 <= a -> 0 <= b -> Z.lor d (Z.ones a) = Z.ones b -> Z.land d (Z.ones a) = 0 ->
  Z.land p d = p mod 2 ^ b - p mod 2 ^ a.
Proof.
  intros Ha Hb Hor Hand.
  rewrite <- (Z.land_ones p b), <- (Z.land_ones p a) by done.
  rewrite <- Hor, land_lor_sum by done. lia.
Qed.

Lemma channel_masks p :
  Z.land p 0x0000ff = p mod 2 ^ 8
  /\ Z.land p 0x00ff00 = p mod 2 ^ 16 - p mod 2 ^ 8
  /\ Z.land p 0xff0000 = p mod 2 ^ 24 - p mod 2 ^ 16
  /\ Z.land p kChannelTopBits
     = (p mod 2 ^ 8 - p mod 2 ^ 7) + (p mod 2 ^ 16 - p mod 2 ^ 15)
       + (p mod 2 ^ 24 - p mod 2 ^ 23).
Proof.
  split; [apply (Z.land_ones p 8); lia|].
  split; [by apply land_bit_range|].
  split; [by apply land_bit_range|].
  change kChannelTopBits with (Z.lor (Z.lor 0x80 0x8000) 0x800000).
  rewrite !land_lor_sum by done.
  by rewrite (land_bit_range p 7 8 0x80), (land_bit_range p 15 16 0x8000),
    (land_bit_range p 23 24 0x800000).
Qed.

(** The remainders of [p] by the powers of two at the channel boundaries,
    and how they are related. *)
Ltac channel_facts p :=
  change (2 ^ 7) with 128 in *; change (2 ^ 8) with 256 in *;
  change (2 ^ 15) with 32768 in *; change (2 ^ 16) with 65536 in *;
  change (2 ^ 23) with 8388608 in *; change (2 ^ 24) with 16777216 in *;
  pose proof (Z.mod_pos_bound p 128 eq_refl);
  pose proof (Z.mod_pos_bound p 256 eq_refl);
  pose proof (Z.mod_pos_bound p 32768 eq_refl);
  pose proof (Z.mod_pos_bound p 65536 eq_refl);
  pose proof (Z.mod_pos_bound p 8388608 eq_refl);
  pose proof (Z.mod_pos_bound p 16777216 eq_refl);
  pose proof (Z.div_mod p 128 ltac:(done));
  pose proof (Z.div_mod p 256 ltac:(done));
  pose proof (Z.div_mod p 32768 ltac:(done));
  pose proof (Z.div_mod p 65536 ltac:(done));
  pose proof (Z.div_mod p 8388608 ltac:(done));
  pose proof (Z.div_mod p 16777216 ltac:(done)).

Lemma color_class_bits p (hr hg hb : bool) :
  (if hr then Z.land p 0x0000ff >? 0x00007f else Z.land p 0x0000ff <? 0x000080)
  && (if hg then Z.land p 0x00ff00 >? 0x007f00 else Z.land p 0x00ff00 <? 0x008000)
  && (if hb then Z.land p 0xff0000 >? 0x7f0000 else Z.land p 0xff0000 <? 0x800000)
  = (Z.land p kChannelTopBits
     =? (if hr then 0x80 else 0) + (if hg then 0x8000 else 0)
        + (if hb then 0x800000 else 0)).
Proof.
  destruct (channel_masks p) as (-> & -> & -> & ->).
  rewrite !Z.gtb_ltb.
  channel_facts p.
  destruct hr, hg, hb;
    repeat match goal with
      | |- context [?a <? ?b] => destruct (Z.ltb_spec a b)
      | |- context [?a =? ?b] => destruct (Z.eqb_spec a b)
      end; simpl; try reflexivity; exfalso; lia.
Qed.

Lemma color_classes_top_bits block bx by_ :
  let top := Z.land (metadata_pixel block bx by_) kChannelTopBits in
  color_classes block bx by_
  = [ top =? 0x000080; top =? 0x008000; top =? 0x800000;
      top =? 0x008080; top =? 0x808000; top =? 0x800080 ].
Proof.
  unfold color_classes, IsBreakable, IsCollectible, IsStartingPosition,
    IsThrowableTile, IsChainReactionTrigger, IsChainReactionEffect.
  cbv zeta. set (p := metadata_pixel block bx by_).
  by rewrite (color_class_bits p true false false),
    (color_class_bits p false true false),
    (color_class_bits p false false true),
    (color_class_bits p true true false),
    (color_class_bits p false true true),
    (color_class_bits p true false true).
Qed.

Lemma top_bits_cases p :
  let top := Z.land p kChannelTopBits in
  top = 0 \/ top = 0x80 \/ top = 0x8000 \/ top = 0x8080
  \/ top = 0x800000 \/ top = 0x800080 \/ top = 0x808000
  \/ top = kChannelTopBits.
Proof.
  cbv zeta. destruct (channel_masks p) as (_ & _ & _ & ->).
  unfold kChannelTopBits. channel_facts p. lia.
Qed.

Lemma color_classes_exclusive block bx by_ :
  (length (List.filter id (color_classes block bx by_)) <= 1)%nat.
Proof.
  rewrite color_classes_top_bits.
  pose proof (top_bits_cases (metadata_pixel block bx by_)) as Hcases.
  cbv zeta in Hcases. unfold kChannelTopBits in *.
  destruct Hcases as [->|[->|[->|[->|[->|[->|[->| ->]]]]]]]; simpl; lia.
Qed.

(** X16. The colour of an annotation pixel is read off the top bit of each
    of its three colour channels.  Each of the six colour predicates holds
    exactly when [pixel & 0x808080] is the value of its colour (red 0x80,
    green 0x8000, blue 0x800000, yellow, cyan and magenta their sums); so
    at most one of them holds for a pixel, and none does exactly when the
    three top bits are all clear (dark) or all set (light). *)
Theorem color_class_by_top_bits block bx by_ :
  let top := Z.land (metadata_pixel block bx by_) kChannelTopBits in
  color_classes block bx by_
  = [ top =? 0x000080; top =? 0x008000; top =? 0x800000;
      top =? 0x008080; top =? 0x808000; top =? 0x800080 ]
  /\ (length (List.filter id (color_classes block bx by_)) <= 1)%nat
  /\ (List.filter id (color_classes block bx by_) = []
      <-> top = 0 \/ top = kChannelTopBits).
Proof.
  intros top.
  split; [apply color_classes_top_bits|].
  split; [apply color_classes_exclusive|].
  rewrite color_classes_top_bits. fold top.
  pose proof (top_bits_cases (metadata_pixel block bx by_)) as Hcases.
  cbv zeta in Hcases. fold top in Hcases. unfold kChannelTopBits in *.
  destruct Hcases as [->|[->|[->|[->|[->|[->|[->| ->]]]]]]]; simpl;
    split; (done || (intros [?|?]; done) || tauto).
Qed.

Lemma throwable_not_others tile :
  IsThrowableTile tile kCPointX kCPointY = true ->
  IsBreakable tile kCPointX kCPointY = false
  /\ IsCollectible tile kCPointX kCPointY = false.
Proof.
  intros Ht. pose proof (color_classes_exclusive tile kCPointX kCPointY) as H.
  unfold color_classes in H. rewrite Ht in H.
  destruct (IsBreakable tile kCPointX kCPointY),
    (IsCollectible tile kCPointX kCPointY),
    (IsStartingPosition tile kCPointX kCPointY); simpl in H; try done; lia.
Qed.

(** ** Position lists *)

Lemma filter_map_bind {A B : Type} (c : A -> bool) (f : A -> B) l :
  l ≫= (fun a => if c a then [f a] else []) = List.map f (List.filter c l).
Proof.
  induction l as [|a l IH]; [done|].
  rewrite bind_cons, IH. simpl. by destruct (c a).
Qed.

Lemma run_cells_collect {St A : Type} (proj : St -> list A)
    (body : Z -> Z -> St -> St) (sel : Z * Z -> list A) l st :
  (forall x y st, proj (body x y st) = proj st ++ sel (x, y)) ->
  proj (run_cells body l st) = proj st ++ (l ≫= sel).
Proof.
  intros Hbody. revert st. induction l as [|[x y] l IH]; intros st.
  - simpl. by rewrite app_nil_r.
  - rewrite run_cells_cons, IH, bind_cons. simpl.
    by rewrite Hbody, app_assoc.
Qed.

(** X17. The position lists are filled in raster order.  On an image of
    whole tiles [ProcessAnnotations] appends to each list, after what it
    held, one position per marked tile in the order of the scan: the middle
    of the right edge of every tile that is blue at its right sample point,
    the middle of the top edge of every tile that is blue at its top sample
    point, and the centre of every tile that is yellow at its centre. *)
Theorem ProcessAnnotations_position_lists input gw gh st :
  whole_tiles input gw gh ->
  let a := ProcessAnnotations input st in
  let marked (c : MetadataBlock -> bool) :=
    List.filter (fun p => c (tile_at input p.1 p.2)) (raster gw gh) in
  start a
  = start st
    ++ List.map start_of
         (marked (fun tile => IsStartingPosition tile kRPointX kRPointY))
  /\ teleport a
     = teleport st
       ++ List.map teleport_of
            (marked (fun tile => IsStartingPosition tile kUPointX kUPointY))
  /\ throwables a
     = throwables st
       ++ List.map throwable_of
            (marked (fun tile => IsThrowableTile tile kCPointX kCPointY)).
Proof.
  intros Hwhole a marked. subst a marked.
  rewrite (ProcessAnnotations_raster input gw gh Hwhole), raster_loop_run.
  rewrite <- !filter_map_bind. repeat split.
  - apply (run_cells_collect start). intros x y st0.
    unfold ProcessAnnotations_tile, tile_at, start_of. cbv zeta. simpl.
    destruct (IsStartingPosition _ kRPointX kRPointY);
      repeat case_match; simpl; by rewrite ?app_nil_r.
  - apply (run_cells_collect teleport). intros x y st0.
    unfold ProcessAnnotations_tile, tile_at, teleport_of. cbv zeta. simpl.
    destruct (IsStartingPosition _ kUPointX kUPointY);
      repeat case_match; simpl; by rewrite ?app_nil_r.
  - apply (run_cells_collect throwables). intros x y st0.
    unfold ProcessAnnotations_tile, tile_at, throwable_of. cbv zeta.
    cbn [fst snd].
    set (tile := {| source := input; block_x := x * kTileSize;
                    block_y := y * kTileSize |}).
    destruct (IsThrowableTile tile kCPointX kCPointY) eqn:Ht.
    + destruct (throwable_not_others tile Ht) as [Hb Hc].
      by rewrite Hb, Hc.
    + repeat case_match; simpl; rewrite ?app_nil_r; congruence.
Qed.

Lemma ProcessAnnotations_position_lists_witness :
  let a := ProcessAnnotations start_and_ball (blank_annotated start_and_ball) in
  let marked (c : MetadataBlock -> bool) :=
    List.filter (fun p => c (tile_at start_and_ball p.1 p.2)) (raster 2 1) in
  start a
  = start (blank_annotated start_and_ball)
    ++ List.map start_of
         (marked (fun tile => IsStartingPosition tile kRPointX kRPointY))
  /\ teleport a
     = teleport (blank_annotated start_and_ball)
       ++ List.map teleport_of
            (marked (fun tile => IsStartingPosition tile kUPointX kUPointY))
  /\ throwables a
     = throwables (blank_annotated start_and_ball)
       ++ List.map throwable_of
            (marked (fun tile => IsThrowableTile tile kCPointX kCPointY)).
Proof.
  apply (ProcessAnnotations_position_lists start_and_ball 2 1
           (blank_annotated start_and_ball)).
  repeat split; (lia || reflexivity).
Defined.

(** ** Annotated cells *)

Lemma special_tags_cases tile : special_tags tile ∈ annotation_tags.
Proof.
  unfold special_tags, annotation_tags.
  repeat case_match; set_solver.
Qed.

(** X18. What annotation can write.  In an image of whole tiles, every
    cell of the grid after [ProcessAnnotations] is one of the six collision
    shapes combined with one of nine tag values: nothing, breakable, ghost,
    collectible (all four direction bits) with or without terminal
    reaction, chain or terminal reaction, each of the two with or without
    breakable.  In particular no mount bit is set, collectible bits come
    all four together, and a ghost cell is not marked breakable. *)
Theorem annotated_cell_values input gw gh st tx ty :
  whole_tiles input gw gh -> rect gw gh (grid st) ->
  0 <= tx < gw -> 0 <= ty < gh ->
  let t := cell (grid (ProcessAnnotations input st)) tx ty in
  (exists shape tags,
      shape ∈ annotation_shapes /\ tags ∈ annotation_tags
      /\ t = Z.lor shape tags)
  /\ Z.land t kMountMask = 0
  /\ (Z.land t kCollectibleTileMask = 0
      \/ Z.land t kCollectibleTileMask = kCollectibleTileMask)
  /\ (Z.land t kGhostCollisionTile <> 0 -> Z.land t kBreakableTile = 0).
Proof.
  intros Hwhole Hr Hx Hy t.
  assert (exists shape tags,
            shape ∈ annotation_shapes /\ tags ∈ annotation_tags
            /\ t = Z.lor shape tags) as Hex.
  { subst t. rewrite (ProcessAnnotations_cell input gw gh Hwhole) by done.
    eexists _, _. split; [apply collision_shape_cases|].
    split; [apply special_tags_cases|done]. }
  split; [done|].
  destruct Hex as (shape & tags & Hs & Ht & ->).
  unfold annotation_shapes in Hs. unfold annotation_tags in Ht.
  repeat (apply elem_of_cons in Hs as [->|Hs]);
    [..|by apply elem_of_nil in Hs];
    repeat (apply elem_of_cons in Ht as [->|Ht]);
    try (by apply elem_of_nil in Ht);
    vm_compute; (split; [done|]); split; (tauto || (by left) || (by right)).
Qed.

Lemma annotated_cell_values_witness :
  let t := cell (grid (ProcessAnnotations walled_item
                         (blank_annotated walled_item))) 1 1 in
  (exists shape tags,
      shape ∈ annotation_shapes /\ tags ∈ annotation_tags
      /\ t = Z.lor shape tags)
  /\ Z.land t kMountMask = 0
  /\ (Z.land t kCollectibleTileMask = 0
      \/ Z.land t kCollectibleTileMask = kCollectibleTileMask)
  /\ (Z.land t kGhostCollisionTile <> 0 -> Z.land t kBreakableTile = 0).
Proof.
  apply (annotated_cell_values walled_item 3 3 (blank_annotated walled_item) 1 1);
    [ repeat split; (lia || reflexivity)
    | split; [reflexivity | repeat constructor] | lia | lia ].
Defined.


(** ** The tile table across layers *)









(** ** The blank test is exact *)

Lemma row_is_blank_alpha row (j : nat) a :
  row_is_blank row = true -> row !! (2 * j + 1)%nat = Some a -> a = 0.
Proof.
  revert row. induction j as [|j IH]; intros row Hrow Hj;
    destruct row as [|g [|b rest]]; try done; simpl in Hrow;
    apply andb_true_iff in Hrow as [Hb Hrest].
  - simpl in Hj. injection Hj as <-. by apply Z.eqb_eq.
  - apply (IH rest Hrest).
    by replace (2 * S j + 1)%nat with (S (S (2 * j + 1))) in Hj by lia.
Qed.

Lemma IsBlank_transparent input tx ty :
  0 <= image_width input -> 0 <= tx -> 0 <= ty ->
  IsBlank (art_tile input (tx, ty)) = true ->
  transparent_tile input tx ty = true.
Proof.
  intros Hw Hx Hy Hblank. unfold transparent_tile.
  apply forallb_forall. intros i Hi. apply forallb_forall. intros bx Hbx.
  apply list_elem_of_In, elem_of_seqZ in Hi.
  apply list_elem_of_In, elem_of_seqZ in Hbx. apply Z.eqb_eq.
  unfold IsBlank in Hblank. rewrite forallb_forall in Hblank.
  unfold art_tile, GetPixels in Hblank. cbv zeta in Hblank.
  set (row := take (Z.to_nat (kTileSize * kBytesPerPixelGA))
                (drop (Z.to_nat ((tx, ty).2 * kTileSize
                                 * (image_width input * kBytesPerPixelGA)
                                 + (tx, ty).1 * kTileSize * kBytesPerPixelGA
                                 + i * (image_width input * kBytesPerPixelGA)))
                      (pixels input))).
  assert (row_is_blank row = true) as Hrow.
  { apply Hblank, list_elem_of_In, list_elem_of_fmap. exists i.
    split; [done|]. by apply elem_of_seqZ. }
  unfold alpha_at, byte_at.
  destruct (_ <? 0) eqn:Hneg; [done|].
  destruct (pixels input !! _) as [a|] eqn:Ha; [|done]. simpl.
  apply (row_is_blank_alpha row (Z.to_nat bx) a Hrow).
  subst row. rewrite lookup_take_lt, lookup_drop
    by (unfold kTileSize, kBytesPerPixelGA in *; lia).
  rewrite <- Ha. f_equal.
  unfold kTileSize, kBytesPerPixelGA in *. simpl. nia.
Qed.

(** X21. The blank test is exact.  The tile of a gray-alpha image at tile
    coordinates [(tx, ty)] is blank for [IsBlank] exactly when the alpha
    byte of each of its 32 by 32 pixels is zero; so in an image of whole
    tiles a tile with a single pixel of non-zero alpha is never given the
    blank sentinel: [ProcessImage] enters it in the table and writes its
    index plus one. *)
Theorem IsBlank_exact input gw gh tx ty tbl :
  whole_tiles input gw gh -> 0 <= tx < gw -> 0 <= ty < gh ->
  IsBlank (art_tile input (tx, ty)) = transparent_tile input tx ty
  /\ (forall bx by_, 0 <= bx < kTileSize -> 0 <= by_ < kTileSize ->
        alpha_at input (tx * kTileSize + bx) (ty * kTileSize + by_) <> 0 ->
        exists i, (ProcessImage input tbl).1 !! art_tile input (tx, ty) = Some i
                  /\ cell (ProcessImage input tbl).2 tx ty = i + 1).
Proof.
  intros Hwhole Hx Hy.
  assert (0 <= image_width input) as Hw
    by (destruct Hwhole as (? & ? & -> & _); unfold kTileSize; lia).
  assert (IsBlank (art_tile input (tx, ty)) = transparent_tile input tx ty)
    as Heq.
  { destruct (transparent_tile input tx ty) eqn:Ht.
    - apply transparent_tile_IsBlank; (done || lia).
    - destruct (IsBlank (art_tile input (tx, ty))) eqn:Hb; [|done].
      rewrite IsBlank_transparent in Ht; (done || lia). }
  split; [done|]. intros bx by_ Hbx Hby Halpha.
  pose proof (ProcessImage_cell input gw gh Hwhole tbl tx ty Hx Hy) as Hcell.
  cbv zeta in Hcell. rewrite Heq in Hcell.
  destruct (transparent_tile input tx ty) eqn:Ht; [|done].
  by rewrite (transparent_tile_alpha input tx ty bx by_ Ht) in Halpha.
Qed.

Lemma IsBlank_exact_witness :
  IsBlank (art_tile twin_layer (1, 0)) = transparent_tile twin_layer 1 0
  /\ (forall bx by_, 0 <= bx < kTileSize -> 0 <= by_ < kTileSize ->
        alpha_at twin_layer (1 * kTileSize + bx) (0 * kTileSize + by_) <> 0 ->
        exists i, (ProcessImage twin_layer ∅).1 !! art_tile twin_layer (1, 0)
                  = Some i
                  /\ cell (ProcessImage twin_layer ∅).2 1 0 = i + 1).
Proof.
  apply (IsBlank_exact twin_layer 2 1 1 0 ∅);
    [repeat split; (lia || reflexivity) | lia | lia].
Defined.

(** ** The rows that are written *)

Lemma row_has_tile_false row :
  row_has_tile row = false -> Forall (fun c => c = kBlankTile) row.
Proof.
  unfold row_has_tile. induction row as [|c row IH]; [done|]. simpl.
  intros H. apply orb_false_iff in H as [Hc Hrow].
  apply negb_false_iff, Z.eqb_eq in Hc. by constructor; [|apply IH].
Qed.

Lemma row_has_tile_true row :
  row_has_tile row = true -> exists c, c ∈ row /\ c <> kBlankTile.
Proof.
  unfold row_has_tile. intros H. apply existsb_exists in H as (c & Hin & Hc).
  exists c. split; [by apply list_elem_of_In|].
  by apply negb_true_iff, Z.eqb_neq in Hc.
Qed.

Lemma IndexOfLastRow_from_spec tiles n :
  let r := IndexOfLastRow_from tiles n in
  0 <= r <= Z.of_nat n
  /\ (forall i : nat, r < Z.of_nat i -> (i <= n)%nat ->
        row_has_tile (default [] (tiles !! i)) = false)
  /\ (0 < r -> row_has_tile (default [] (tiles !! Z.to_nat r)) = true).
Proof.
  induction n as [|n IH]; cbv zeta.
  - simpl. split; [lia|]. split; [intros; lia|lia].
  - cbn [IndexOfLastRow_from].
    destruct (row_has_tile (default [] (tiles !! S n))) eqn:Hrow.
    + split; [lia|]. split; [intros; lia|]. intros _. by rewrite Nat2Z.id.
    + destruct IH as (Hr & Hafter & Hat). split; [lia|]. split; [|done].
      intros i Hi Hle. destruct (decide (i = S n)) as [->|Hne]; [done|].
      apply Hafter; lia.
Qed.

(** X22. [IndexOfLastRow] finds the last row with a tile.  Its result [r]
    is a row index of the map (0 for an empty map); every row below row
    [r] holds blank cells only; and unless [r] is 0, row [r] has a cell
    that is not blank.  Row 0 is never looked at. *)
Theorem IndexOfLastRow_correct tiles :
  let r := IndexOfLastRow tiles in
  0 <= r
  /\ (tiles <> [] -> r < Z.of_nat (length tiles))
  /\ (forall (i : nat) row, r < Z.of_nat i -> tiles !! i = Some row ->
        Forall (fun c => c = kBlankTile) row)
  /\ (0 < r -> exists row c, tiles !! Z.to_nat r = Some row
                             /\ c ∈ row /\ c <> kBlankTile).
Proof.
  intros r. subst r. unfold IndexOfLastRow.
  destruct (IndexOfLastRow_from_spec tiles (length tiles - 1))
    as (Hr & Hafter & Hat). cbv zeta in Hr, Hafter, Hat.
  split; [lia|]. split; [|split].
  - intros Hne. destruct tiles; [done|]. simpl length in *. lia.
  - intros i row Hi Hrow. apply row_has_tile_false.
    pose proof (lookup_lt_Some _ _ _ Hrow) as Hlt.
    specialize (Hafter i Hi ltac:(lia)). by rewrite Hrow in Hafter.
  - intros Hpos. specialize (Hat Hpos).
    destruct (tiles !! Z.to_nat _) as [row|] eqn:Hrow; [|done].
    apply row_has_tile_true in Hat as (c & Hc & Hne). by exists row, c.
Qed.

Lemma concat_blank_rows w rows :
  Forall (fun row : list Z => Z.of_nat (length row) = w
                              /\ Forall (fun c => c = kBlankTile) row) rows ->
  concat rows = replicate (length rows * Z.to_nat w) kBlankTile.
Proof.
  induction rows as [|row rows IH]; intros Hrows; [done|].
  apply Forall_cons in Hrows as [[Hlen Hblank] Hrows].
  simpl. rewrite replicate_add, IH by done. f_equal.
  rewrite (all_blank_row row Hblank) at 1. f_equal. lia.
Qed.

Lemma length_concat_rows w (rows : list (list Z)) :
  Forall (fun row : list Z => Z.of_nat (length row) = w) rows ->
  Z.of_nat (length (concat rows)) = Z.of_nat (length rows) * w.
Proof.
  induction rows as [|row rows IH]; intros Hrows; [done|].
  apply Forall_cons in Hrows as [Hlen Hrows].
  simpl concat. rewrite length_app. simpl length. specialize (IH Hrows). lia.
Qed.

(** X23. Trimming the trailing rows loses nothing.  For a layer of [h > 0]
    rows of [w] cells, the cell count that [WriteTileTable] puts in the
    header is the number of cells it scans, [w] times a number of rows
    between 1 and [h]; and the cells of the layer are the scanned cells
    followed by blank cells only. *)
Theorem trimmed_rows_are_blank w h tiles :
  rect w h tiles -> 0 < h ->
  let n := IndexOfLastRow tiles + 1 in
  1 <= n <= h
  /\ (WriteTileTable tiles).1 = n * w
  /\ Z.of_nat (length (scanned_cells tiles)) = n * w
  /\ concat tiles
     = scanned_cells tiles ++ replicate (Z.to_nat ((h - n) * w)) kBlankTile.
Proof.
  intros [Hh Hw] Hpos n.
  destruct (IndexOfLastRow_correct tiles) as (Hr0 & Hlt & Hafter & _).
  cbv zeta in Hr0, Hlt, Hafter.
  assert (tiles <> []) as Hne by (intros ->; simpl in Hh; lia).
  specialize (Hlt Hne).
  assert (0 <= w) as Hw0.
  { destruct tiles as [|row tiles]; [done|].
    apply Forall_cons in Hw as [<- _]. lia. }
  split; [subst n; lia|]. split; [|split].
  - unfold WriteTileTable. simpl. fold n.
    destruct tiles as [|row tiles]; [done|].
    apply Forall_cons in Hw as [<- _]. done.
  - unfold scanned_cells. fold n.
    rewrite (length_concat_rows w) by by apply Forall_take.
    rewrite length_take_le by (subst n; lia). subst n. lia.
  - unfold scanned_cells. fold n.
    rewrite <- (take_drop (Z.to_nat n) tiles) at 1. rewrite concat_app.
    f_equal. rewrite (concat_blank_rows w).
    + f_equal. rewrite length_drop. subst n. nia.
    + apply Forall_lookup_2. intros i row Hrow.
      rewrite lookup_drop in Hrow. split.
      * by apply (Forall_lookup_1 _ _ _ _ Hw Hrow).
      * apply (Hafter (Z.to_nat n + i)%nat); [subst n; lia|done].
Qed.

Lemma trimmed_rows_are_blank_witness :
  let n := IndexOfLastRow top_heavy + 1 in
  1 <= n <= 2
  /\ (WriteTileTable top_heavy).1 = n * 2
  /\ Z.of_nat (length (scanned_cells top_heavy)) = n * 2
  /\ concat top_heavy
     = scanned_cells top_heavy ++ replicate (Z.to_nat ((2 - n) * 2)) kBlankTile.
Proof.
  apply (trimmed_rows_are_blank 2 2 top_heavy); [concrete_grid | lia].
Defined.

(** ** When packing fails *)

Lemma runs_within_false L r cells :
  0 <= r <= L ->
  runs_within L r cells = false <->
  (exists (k : nat) post,
      cells = replicate k kBlankTile ++ post /\ L < r + Z.of_nat k)
  \/ (exists pre post,
        cells = pre ++ replicate (Z.to_nat (L + 1)) kBlankTile ++ post).
Proof.
  revert r. induction cells as [|c cells IH]; intros r Hr.
  - simpl. split; [done|].
    intros [(k & post & Heq & Hk)|(pre & post & Heq)].
    + destruct k; [lia|done].
    + destruct pre; [|done]. simpl in Heq.
      by replace (Z.to_nat (L + 1)) with (S (Z.to_nat L)) in Heq by lia.
  - cbn [runs_within]. destruct (Z.eqb_spec c kBlankTile) as [->|Hc].
    + destruct (Z.ltb_spec r L) as [Hlt|Hge]; simpl.
      * rewrite (IH (r + 1)) by lia. split.
        -- intros [(k & post & -> & Hk)|(pre & post & ->)].
           ++ left. exists (S k), post. split; [done|lia].
           ++ right. by exists (kBlankTile :: pre), post.
        -- intros [(k & post & Heq & Hk)|(pre & post & Heq)].
           ++ left. destruct k as [|k]; [lia|]. simpl in Heq.
              injection Heq as ->. exists k, post. split; [done|lia].
           ++ destruct pre as [|p pre]; simpl in Heq.
              ** replace (Z.to_nat (L + 1)) with (S (Z.to_nat L)) in Heq by lia.
                 simpl in Heq. injection Heq as ->. left.
                 exists (Z.to_nat L), post. split; [done|lia].
              ** injection Heq as _ ->. right. by exists pre, post.
      * split; [|done]. intros _. left. exists 1%nat, cells.
        split; [done|lia].
    + rewrite (IH 0) by lia. split.
      * intros [(k & post & -> & Hk)|(pre & post & ->)].
        -- right. exists [c], (replicate (k - Z.to_nat (L + 1)) kBlankTile ++ post).
           simpl. f_equal. rewrite app_assoc, <- replicate_add.
           do 2 f_equal. lia.
        -- right. by exists (c :: pre), post.
      * intros [(k & post & Heq & Hk)|(pre & post & Heq)].
        -- destruct k as [|k]; [lia|]. simpl in Heq. by injection Heq as -> _.
        -- destruct pre as [|p pre]; simpl in Heq.
           ++ replace (Z.to_nat (L + 1)) with (S (Z.to_nat L)) in Heq by lia.
              simpl in Heq. by injection Heq as -> _.
           ++ injection Heq as _ ->. right. by exists pre, post.
Qed.

Lemma three_then_blank_art : Forall (Forall art_cell) three_then_blank.
Proof.
  unfold three_then_blank. apply Forall_cons_2; [|apply Forall_nil_2].
  apply Forall_app. split.
  - repeat apply Forall_cons_2; try apply Forall_nil_2;
      right; unfold kMaxTileCount; lia.
  - apply Forall_replicate. by left.
Qed.

(** X24. Packing fails exactly on an over-long run of blank cells.  For a
    layer whose cells are blank or indices within the tile limit,
    [WriteTileTable] hits its assertion, and writes no table, exactly when
    the cells it scans contain [kMaxBlankRun + 1] = 32768 blank cells in a
    row; rows do not break a run. *)
Theorem WriteTileTable_fails_iff tiles :
  Forall (Forall art_cell) tiles ->
  (WriteTileTable tiles).2 = None
  <-> exists pre post,
        scanned_cells tiles
        = pre ++ replicate (Z.to_nat (kMaxBlankRun + 1)) kBlankTile ++ post.
Proof.
  intros Hcells.
  assert (Forall art_cell (scanned_cells tiles)) as Hscan.
  { unfold scanned_cells. apply Forall_concat. by apply Forall_take. }
  assert ((WriteTileTable tiles).2 = None
          <-> runs_within kMaxBlankRun 0 (scanned_cells tiles) = false) as ->.
  { split.
    - intros Hnone.
      destruct (runs_within kMaxBlankRun 0 (scanned_cells tiles)) eqn:Hruns;
        [|done].
      destruct (pack_cells_run ({| written := []; value_pair_buffer_ := 0 |}, 0)
                  (scanned_cells tiles)) as (st & Hfold & _);
        [split; simpl; [by left|done]|done|done|].
      unfold WriteTileTable in Hnone. simpl in Hnone. rewrite Hfold in Hnone.
      by destruct st.
    - by apply WriteTileTable_aborts. }
  rewrite (runs_within_false kMaxBlankRun 0) by (unfold kMaxBlankRun; lia).
  split; [|intros H; by right].
  intros [(k & post & Heq & Hk)|H]; [|done].
  exists [], (replicate (k - Z.to_nat (kMaxBlankRun + 1)) kBlankTile ++ post).
  rewrite Heq, app_nil_l, app_assoc, <- replicate_add. do 2 f_equal. lia.
Qed.

Lemma WriteTileTable_fails_iff_witness :
  (WriteTileTable three_then_blank).2 = None
  <-> exists pre post,
        scanned_cells three_then_blank
        = pre ++ replicate (Z.to_nat (kMaxBlankRun + 1)) kBlankTile ++ post.
Proof.
  apply (WriteTileTable_fails_iff three_then_blank). apply three_then_blank_art.
Defined.

(** ** The shape of the packed table *)

Lemma int32_range z : - 2 ^ 31 <= int32 z < 2 ^ 31.
Proof.
  unfold int32. pose proof (Z.mod_pos_bound (z + 2 ^ 31) (2 ^ 32) eq_refl). lia.
Qed.

Lemma pack_cell_shape st c st' :
  good_state st -> st.2 <= kMaxBlankRun -> art_cell c ->
  Forall table_entry (written st.1) ->
  pack_cell (Some st) c = Some st' ->
  good_state st' /\ st'.2 <= kMaxBlankRun
  /\ Forall table_entry (written st'.1) /\ pending st' <= pending st + 1.
Proof.
  destruct st as [[out buf] n]. intros [Hbuf Hn] Hmax Hc Hout. simpl in *.
  unfold pack_cell, pending. simpl.
  destruct (Z.eqb_spec c kBlankTile) as [->|Hblank].
  - destruct (Z.ltb_spec n kMaxBlankRun) as [Hlt|]; [|done].
    intros [= <-]. simpl. split; [split; simpl; [done|lia]|].
    split; [lia|]. split; [done|].
    replace (n + 1 >? 0) with true by (symmetry; apply Z.gtb_lt; lia).
    destruct (n >? 0); lia.
  - destruct Hc as [?|Hc]; [done|].
    assert ((c =? 0) = false) as Hc0 by (apply Z.eqb_neq; lia).
    assert (table_entry (- n) \/ n = 0) as Hrun
      by (destruct (decide (n = 0)); [by right|left; left; lia]).
    assert (forall b, 1 <= b <= kMaxTileCount ->
              table_entry (int32 (Z.lor (Z.shiftl b 16) c))) as Hpair.
    { intros b Hb. right. right.
      destruct (pair_value b c Hb) as (_ & _ & Hlo & Hint);
        [unfold kMaxTileCount in *; lia|]. cbv zeta in Hlo, Hint.
      pose proof (int32_range (Z.lor (Z.shiftl b 16) c)). rewrite Hint in *.
      lia. }
    destruct (Z.gtb_spec n 0) as [Hpos|Hzero].
    + destruct Hrun as [Hrun|?]; [|lia].
      unfold WriteBlankRun, FlushBufferedNonblankValue, Write, WriteNonblankTile.
      simpl. destruct Hbuf as [->|Hbuf]; simpl.
      * intros [= <-]. simpl. rewrite Hc0.
        split; [split; simpl; [by right|done]|]. split; [done|].
        split; [apply Forall_app; split; [done|by apply Forall_singleton]|].
        rewrite length_app. simpl. lia.
      * replace (buf =? 0) with false by (symmetry; apply Z.eqb_neq; lia).
        simpl. intros [= <-]. simpl. rewrite Hc0.
        split; [split; simpl; [by right|done]|]. split; [done|]. split.
        -- rewrite <- app_assoc. apply Forall_app. split; [done|].
           apply Forall_cons_2; [by right; left|by apply Forall_singleton].
        -- rewrite !length_app. simpl. lia.
    + assert (n = 0) as -> by lia.
      unfold WriteNonblankTile. simpl. destruct Hbuf as [->|Hbuf]; simpl.
      * intros [= <-]. simpl. rewrite Hc0.
        split; [split; simpl; [by right|done]|]. split; [done|].
        split; [done|lia].
      * replace (buf =? 0) with false by (symmetry; apply Z.eqb_neq; lia).
        intros [= <-]. simpl.
        split; [split; simpl; [by left|done]|]. split; [done|]. split.
        -- apply Forall_app. split; [done|]. apply Forall_singleton.
           by apply Hpair.
        -- rewrite length_app. simpl. lia.
Qed.

Lemma pack_cells_shape cells st st' :
  good_state st -> st.2 <= kMaxBlankRun -> Forall art_cell cells ->
  Forall table_entry (written st.1) ->
  foldl pack_cell (Some st) cells = Some st' ->
  good_state st' /\ st'.2 <= kMaxBlankRun
  /\ Forall table_entry (written st'.1)
  /\ pending st' <= pending st + Z.of_nat (length cells).
Proof.
  revert st. induction cells as [|c cells IH]; intros st Hgood Hmax Hcells Hout.
  - simpl. intros [= <-]. repeat split; (done || apply Hgood || lia).
  - apply Forall_cons in Hcells as [Hc Hcells].
    change (foldl pack_cell (Some st) (c :: cells))
      with (foldl pack_cell (pack_cell (Some st) c) cells).
    destruct (pack_cell (Some st) c) as [st1|] eqn:Hstep;
      [|by rewrite pack_cells_None].
    destruct (pack_cell_shape st c st1 Hgood Hmax Hc Hout Hstep)
      as (Hgood1 & Hmax1 & Hout1 & Hpend1).
    intros Hfold.
    destruct (IH st1 Hgood1 Hmax1 Hcells Hout1 Hfold)
      as (Hgood' & Hmax' & Hout' & Hpend').
    repeat split; (done || apply Hgood' || (simpl length; lia)).
Qed.

(** X25. The shape of a packed table.  When [WriteTileTable] writes the
    table of a layer whose cells are blank or indices within the tile
    limit, every entry is a negated run length between 1 and 32767, a
    single index, or a pair of at least 2^16 that fits a signed 32-bit
    [int]; no entry is 0; and the table has at most as many entries as
    cells were scanned. *)
Theorem packed_table_shape tiles table :
  Forall (Forall art_cell) tiles ->
  (WriteTileTable tiles).2 = Some table ->
  Forall table_entry table
  /\ Forall (fun v => v <> 0) table
  /\ (length table <= length (scanned_cells tiles))%nat.
Proof.
  intros Hcells Htable.
  assert (Forall art_cell (scanned_cells tiles)) as Hscan.
  { unfold scanned_cells. apply Forall_concat. by apply Forall_take. }
  unfold WriteTileTable in Htable. simpl in Htable.
  destruct (foldl pack_cell _ _) as [[t n]|] eqn:Hfold; [|done].
  destruct (pack_cells_shape (scanned_cells tiles)
              ({| written := []; value_pair_buffer_ := 0 |}, 0) (t, n))
    as ([Hbuf Hn] & Hmax & Hout & Hpend);
    [ split; simpl; [by left|done] | simpl; unfold kMaxBlankRun; lia | done
    | by apply Forall_nil_2 | done | ].
  unfold pending in Hpend. simpl in *. injection Htable as <-.
  assert (Forall table_entry
            (written (Flush (if n >? 0 then WriteBlankRun n t else t)))
          /\ Z.of_nat (length (written
                (Flush (if n >? 0 then WriteBlankRun n t else t))))
             <= Z.of_nat (length (scanned_cells tiles))) as [Hall Hlen].
  { destruct t as [out buf]. simpl in *.
    unfold Flush, WriteBlankRun, FlushBufferedNonblankValue, Write.
    destruct (Z.gtb_spec n 0) as [Hpos|Hzero]; simpl.
    - destruct Hbuf as [->|Hbuf]; simpl.
      + split; [|rewrite length_app; simpl in *; lia].
        apply Forall_app. split; [done|]. apply Forall_singleton. left. lia.
      + replace (buf =? 0) with false in *
          by (symmetry; apply Z.eqb_neq; lia). simpl.
        split; [|rewrite !length_app; simpl in *; lia].
        rewrite <- app_assoc. apply Forall_app. split; [done|].
        apply Forall_cons_2; [by right; left|].
        apply Forall_singleton. left. lia.
    - destruct Hbuf as [->|Hbuf]; simpl; [split; [done|simpl in *; lia]|].
      replace (buf =? 0) with false in *
        by (symmetry; apply Z.eqb_neq; lia). simpl.
      split; [|rewrite length_app; simpl in *; lia].
      apply Forall_app. split; [done|]. apply Forall_singleton.
      by right; left. }
  split; [done|]. split; [|lia].
  eapply Forall_impl; [exact Hall|]. intros v Hv ->.
  unfold table_entry, kMaxBlankRun, kMaxTileCount in Hv. lia.
Qed.

Lemma packed_table_shape_witness :
  Forall table_entry three_then_blank_table
  /\ Forall (fun v => v <> 0) three_then_blank_table
  /\ (length three_then_blank_table
      <= length (scanned_cells three_then_blank))%nat.
Proof.
  apply (packed_table_shape three_then_blank three_then_blank_table);
    [apply three_then_blank_art | reflexivity].
Defined.


(** ** The image table *)

Lemma for_loop_S {St : Type} (n : nat) (body : Z -> St -> St) s :
  for_loop (Z.of_nat (S n)) body s
  = body (Z.of_nat n) (for_loop (Z.of_nat n) body s).
Proof.
  unfold for_loop. replace (Z.of_nat (S n)) with (Z.of_nat n + 1) by lia.
  rewrite seqZ_app, foldl_app by lia. done.
Qed.

Section CopyRows.
Variables (zoff : Z -> Z) (zrow : Z -> list Z) (len rows : nat).
Hypothesis row_len :
  forall y : nat, (y < rows)%nat -> length (zrow (Z.of_nat y)) = len.
Hypothesis off_step :
  forall y y' : nat, (y < y')%nat -> (y' < rows)%nat ->
    (Z.to_nat (zoff (Z.of_nat y)) + len
     <= Z.to_nat (zoff (Z.of_nat y')))%nat.

Lemma copy_rows_length (n : nat) buf :
  length (for_loop (Z.of_nat n)
            (fun y px => memcpy px (zoff y) (zrow y)) buf)
  = length buf.
Proof.
  induction n as [|n IH]; [done|].
  rewrite for_loop_S. unfold memcpy at 1. by rewrite length_inserts.
Qed.

Lemma copy_rows_miss (n : nat) buf (p : nat) :
  (n <= rows)%nat ->
  (forall y : nat, (y < n)%nat ->
     ~ (Z.to_nat (zoff (Z.of_nat y)) <= p
        < Z.to_nat (zoff (Z.of_nat y)) + len)%nat) ->
  for_loop (Z.of_nat n) (fun y px => memcpy px (zoff y) (zrow y)) buf !! p
  = buf !! p.
Proof.
  induction n as [|n IH]; intros Hn Hmiss; [done|].
  rewrite for_loop_S. unfold memcpy at 1.
  specialize (Hmiss n ltac:(lia)) as Hlast.
  destruct (decide (p < Z.to_nat (zoff (Z.of_nat n)))%nat).
  - rewrite list_lookup_inserts_lt by done.
    apply IH; [lia|]. intros y Hy. apply Hmiss. lia.
  - rewrite list_lookup_inserts_ge by (rewrite row_len by lia; lia).
    apply IH; [lia|]. intros y Hy. apply Hmiss. lia.
Qed.

Lemma copy_rows_hit (n : nat) buf (p y : nat) :
  (n <= rows)%nat -> (y < n)%nat ->
  (Z.to_nat (zoff (Z.of_nat y)) <= p
   < Z.to_nat (zoff (Z.of_nat y)) + len)%nat ->
  (p < length buf)%nat ->
  for_loop (Z.of_nat n) (fun y px => memcpy px (zoff y) (zrow y)) buf !! p
  = zrow (Z.of_nat y) !! (p - Z.to_nat (zoff (Z.of_nat y)))%nat.
Proof.
  induction n as [|n IH]; intros Hn Hy Hp Hbuf; [lia|].
  rewrite for_loop_S. unfold memcpy at 1.
  destruct (decide (y = n)) as [->|Hne].
  - rewrite list_lookup_inserts; [done|rewrite row_len by lia; lia|].
    by rewrite copy_rows_length.
  - pose proof (off_step y n ltac:(lia) ltac:(lia)).
    rewrite list_lookup_inserts_lt by lia. apply IH; (done || lia).
Qed.
End CopyRows.

Lemma index_split i :
  0 <= i ->
  0 <= Z.quot i kTilesPerRow /\ 0 <= Z.rem i kTilesPerRow < kTilesPerRow
  /\ i = Z.quot i kTilesPerRow * kTilesPerRow + Z.rem i kTilesPerRow.
Proof.
  unfold kTilesPerRow. intros Hi. Z.to_euclidean_division_equations. lia.
Qed.

Lemma atlas_offset_inj i r j i' r' j' :
  0 <= i -> 0 <= i' ->
  0 <= r < kTileSize -> 0 <= r' < kTileSize ->
  0 <= j < kTileSize * kBytesPerPixelGA ->
  0 <= j' < kTileSize * kBytesPerPixelGA ->
  atlas_offset i r j = atlas_offset i' r' j' -> i = i' /\ r = r' /\ j = j'.
Proof.
  intros Hi Hi' Hr Hr' Hj Hj'. unfold atlas_offset, kBytesPerRow.
  destruct (index_split i Hi) as (Hq & Hm & Heq).
  destruct (index_split i' Hi') as (Hq' & Hm' & Heq').
  revert Heq Heq'.
  generalize dependent (Z.quot i kTilesPerRow).
  generalize dependent (Z.rem i kTilesPerRow).
  generalize dependent (Z.quot i' kTilesPerRow).
  generalize dependent (Z.rem i' kTilesPerRow).
  unfold kTilesPerRow, kTileSize, kBytesPerPixelGA in *. intros. lia.
Qed.

Lemma atlas_offset_bound i n r j :
  0 <= i < n -> 0 <= r < kTileSize -> 0 <= j < kTileSize * kBytesPerPixelGA ->
  0 <= atlas_offset i r j
  < kTileSize * kTilesPerRow * atlas_height n * kBytesPerPixelGA.
Proof.
  intros Hi Hr Hj. unfold atlas_offset, atlas_height, kBytesPerRow.
  destruct (index_split i ltac:(lia)) as (Hq & Hm & Heq).
  assert (Z.quot i kTilesPerRow + 1 <= Z.quot (n + kTilesPerRow - 1) kTilesPerRow)
    as Hrows
    by (unfold kTilesPerRow in *; Z.to_euclidean_division_equations; lia).
  revert Heq Hrows.
  generalize dependent (Z.quot i kTilesPerRow).
  generalize dependent (Z.rem i kTilesPerRow).
  generalize dependent (Z.quot (n + kTilesPerRow - 1) kTilesPerRow).
  unfold kTilesPerRow, kTileSize, kBytesPerPixelGA in *. intros. nia.
Qed.

Lemma copy_tile_length buf e : length (copy_tile buf e) = length buf.
Proof. unfold copy_tile. cbv zeta. apply copy_rows_length. Qed.

Lemma tile_shaped_row k (y : nat) :
  tile_shaped k -> (y < length k)%nat ->
  length (default [] (k !! Z.to_nat (Z.of_nat y)))
  = Z.to_nat (kTileSize * kBytesPerPixelGA).
Proof.
  intros [_ Hrows] Hy. rewrite Nat2Z.id.
  destruct (lookup_lt_is_Some_2 k y Hy) as [row Hrow]. rewrite Hrow. simpl.
  pose proof (Forall_lookup_1 _ _ _ _ Hrows Hrow) as Hlen. simpl in Hlen. lia.
Qed.

Lemma copy_tile_rows_step i (y y' : nat) :
  0 <= i -> (y < y')%nat ->
  (Z.to_nat ((Z.quot i kTilesPerRow * kTileSize + Z.of_nat y) * kBytesPerRow
             + Z.rem i kTilesPerRow * kTileSize * kBytesPerPixelGA)
   + Z.to_nat (kTileSize * kBytesPerPixelGA)
   <= Z.to_nat ((Z.quot i kTilesPerRow * kTileSize + Z.of_nat y') * kBytesPerRow
                + Z.rem i kTilesPerRow * kTileSize * kBytesPerPixelGA))%nat.
Proof.
  intros Hi Hy. destruct (index_split i Hi) as (Hq & Hm & _).
  generalize dependent (Z.quot i kTilesPerRow).
  generalize dependent (Z.rem i kTilesPerRow).
  unfold kBytesPerRow, kTilesPerRow, kTileSize, kBytesPerPixelGA. intros. nia.
Qed.

Lemma copy_tile_miss buf k i (p : nat) :
  tile_shaped k -> 0 <= i ->
  (forall r j, 0 <= r < kTileSize -> 0 <= j < kTileSize * kBytesPerPixelGA ->
     p <> Z.to_nat (atlas_offset i r j)) ->
  copy_tile buf (k, i) !! p = buf !! p.
Proof.
  intros Hk Hi Hmiss. unfold copy_tile. cbv zeta. cbn [fst snd].
  apply (copy_rows_miss _ _ (Z.to_nat (kTileSize * kBytesPerPixelGA))
           (length k)); [|done|].
  - intros y Hy. by apply tile_shaped_row.
  - intros y Hy [Hlo Hhi]. destruct Hk as [Hlen _].
    destruct (index_split i Hi) as (Hq & Hm & _).
    apply (Hmiss (Z.of_nat y)
             (Z.of_nat p
              - ((Z.quot i kTilesPerRow * kTileSize + Z.of_nat y) * kBytesPerRow
                 + Z.rem i kTilesPerRow * kTileSize * kBytesPerPixelGA)));
      [lia| |].
    + revert Hlo Hhi.
      generalize dependent (Z.quot i kTilesPerRow).
      generalize dependent (Z.rem i kTilesPerRow).
      unfold kBytesPerRow, kTilesPerRow, kTileSize, kBytesPerPixelGA.
      intros. nia.
    + unfold atlas_offset. lia.
Qed.

Lemma copy_tile_hit buf k i r j :
  tile_shaped k -> 0 <= i ->
  0 <= r < kTileSize -> 0 <= j < kTileSize * kBytesPerPixelGA ->
  (Z.to_nat (atlas_offset i r j) < length buf)%nat ->
  copy_tile buf (k, i) !! Z.to_nat (atlas_offset i r j)
  = default [] (k !! Z.to_nat r) !! Z.to_nat j.
Proof.
  intros Hk Hi Hr Hj Hbuf. unfold copy_tile. cbv zeta. cbn [fst snd].
  pose proof Hk as [Hlen _].
  destruct (index_split i Hi) as (Hq & Hm & _).
  assert (Z.to_nat (atlas_offset i r j)
          = (Z.to_nat ((Z.quot i kTilesPerRow * kTileSize
                        + Z.of_nat (Z.to_nat r)) * kBytesPerRow
                       + Z.rem i kTilesPerRow * kTileSize * kBytesPerPixelGA)
             + Z.to_nat j)%nat) as Hoff.
  { unfold atlas_offset. rewrite Z2Nat.id by lia.
    revert Hbuf.
    generalize dependent (Z.quot i kTilesPerRow).
    generalize dependent (Z.rem i kTilesPerRow).
    unfold kBytesPerRow, kTilesPerRow, kTileSize, kBytesPerPixelGA in *.
    intros. nia. }
  rewrite (copy_rows_hit
             (fun y => (Z.quot i kTilesPerRow * kTileSize + y) * kBytesPerRow
                       + Z.rem i kTilesPerRow * kTileSize * kBytesPerPixelGA)
             (fun y => default [] (k !! Z.to_nat y))
             (Z.to_nat (kTileSize * kBytesPerPixelGA)) (length k)
             (fun y Hy => tile_shaped_row k y Hk Hy)
             (fun y y' Hy _ => copy_tile_rows_step i y y' Hi Hy)
             (length k) buf (Z.to_nat (atlas_offset i r j)) (Z.to_nat r));
    [ | lia | lia | | done].
  - rewrite Hoff. rewrite Z2Nat.id by lia. f_equal. lia.
  - rewrite Hoff. unfold kTileSize, kBytesPerPixelGA in *. lia.
Qed.

Lemma atlas_fold_miss order buf (p : nat) :
  Forall (fun e : Pixels * Z => tile_shaped e.1 /\ 0 <= e.2) order ->
  (forall e r j, e ∈ order ->
     0 <= r < kTileSize -> 0 <= j < kTileSize * kBytesPerPixelGA ->
     p <> Z.to_nat (atlas_offset e.2 r j)) ->
  foldl copy_tile buf order !! p = buf !! p.
Proof.
  revert buf. induction order as [|[k i] order IH]; intros buf Hall Hmiss;
    [done|].
  apply Forall_cons in Hall as [[Hk Hi] Hall]. simpl in Hk, Hi.
  cbn [foldl]. rewrite IH; [|done|].
  - apply copy_tile_miss; [done..|]. intros r j Hr Hj.
    apply (Hmiss (k, i) r j); [apply list_elem_of_here|done..].
  - intros e r j He. apply Hmiss. by apply list_elem_of_further.
Qed.

Lemma atlas_fold_hit order buf k i r j :
  NoDup (order.*2) ->
  Forall (fun e : Pixels * Z => tile_shaped e.1 /\ 0 <= e.2) order ->
  (k, i) ∈ order ->
  0 <= r < kTileSize -> 0 <= j < kTileSize * kBytesPerPixelGA ->
  (Z.to_nat (atlas_offset i r j) < length buf)%nat ->
  foldl copy_tile buf order !! Z.to_nat (atlas_offset i r j)
  = default [] (k !! Z.to_nat r) !! Z.to_nat j.
Proof.
  revert buf. induction order as [|[k' i'] order IH];
    intros buf Hnd Hall Hin Hr Hj Hbuf; [by apply elem_of_nil in Hin|].
  rewrite fmap_cons in Hnd. apply NoDup_cons in Hnd as [Hfresh Hnd].
  apply Forall_cons in Hall as [[Hk Hi] Hall]. simpl in Hk, Hi, Hfresh.
  cbn [foldl]. apply elem_of_cons in Hin as [[= <- <-]|Hin].
  - rewrite atlas_fold_miss; [by apply copy_tile_hit|done|].
    intros [k2 i2] r2 j2 He Hr2 Hj2 Heq. simpl in Heq.
    specialize (proj1 (Forall_forall _ _) Hall (k2, i2) He) as [_ Hi2].
    simpl in Hi2.
    assert (0 <= atlas_offset i r j /\ 0 <= atlas_offset i2 r2 j2) as [Ha Hb].
    { unfold atlas_offset.
      destruct (index_split i Hi) as (? & ? & _).
      destruct (index_split i2 Hi2) as (? & ? & _).
      unfold kBytesPerRow, kTilesPerRow, kTileSize, kBytesPerPixelGA in *.
      nia. }
    destruct (atlas_offset_inj i r j i2 r2 j2) as (-> & _); try done; [lia|].
    apply Hfresh. apply list_elem_of_fmap. by exists (k2, i2).
  - apply IH; try done. by rewrite copy_tile_length.
Qed.

Lemma atlas_fold_length order buf :
  length (foldl copy_tile buf order) = length buf.
Proof.
  revert buf. induction order as [|e order IH]; intros buf; [done|].
  cbn [foldl]. by rewrite IH, copy_tile_length.
Qed.

(** The block of the image at the position of an index holds the tile of
    that index. *)
Lemma atlas_block order count k i :
  NoDup (order.*2) ->
  Forall (fun e : Pixels * Z => tile_shaped e.1 /\ 0 <= e.2 < count) order ->
  (k, i) ∈ order ->
  art_tile (atlas order count)
           (Z.rem i kTilesPerRow, Z.quot i kTilesPerRow) = k.
Proof.
  intros Hnd Hall Hin.
  pose proof (proj1 (Forall_forall _ _) Hall (k, i) Hin) as [Hk Hi].
  simpl in Hk, Hi. pose proof Hk as [Hlen Hrows].
  assert (Forall (fun e : Pixels * Z => tile_shaped e.1 /\ 0 <= e.2) order)
    as Hall' by (eapply Forall_impl; [exact Hall|]; intros e [? ?]; split; [done|lia]).
  unfold art_tile, atlas, GetPixels. cbv zeta. cbn [fst snd pixels image_width].
  set (buf := replicate
                (Z.to_nat (kTileSize * kTilesPerRow * atlas_height count
                           * kBytesPerPixelGA)) 0).
  set (P := foldl copy_tile buf order).
  assert (length P
          = Z.to_nat (kTileSize * kTilesPerRow * atlas_height count
                      * kBytesPerPixelGA)) as Hsize
    by (subst P buf; by rewrite atlas_fold_length, length_replicate).
  assert (forall r j, 0 <= r < kTileSize ->
            0 <= j < kTileSize * kBytesPerPixelGA ->
            P !! Z.to_nat (atlas_offset i r j)
            = default [] (k !! Z.to_nat r) !! Z.to_nat j) as Hbytes.
  { intros r j Hr Hj. apply atlas_fold_hit; try done.
    pose proof (atlas_offset_bound i count r j Hi Hr Hj).
    subst buf. rewrite length_replicate. lia. }
  destruct (index_split i ltac:(lia)) as (Hq & Hm & _).
  apply list_eq_same_length with (Z.to_nat kTileSize);
    [lia | by rewrite length_fmap, length_seqZ |].
  intros r row1 row2 Hr Hrow1 Hrow2.
  rewrite list_lookup_fmap, lookup_seqZ_lt in Hrow1 by lia.
  simpl in Hrow1. injection Hrow1 as <-.
  pose proof (Forall_lookup_1 _ _ _ _ Hrows Hrow2) as Hlen2. simpl in Hlen2.
  assert (0 <= Z.of_nat r < kTileSize) as Hr' by lia.
  assert (forall j : nat, (j < Z.to_nat (kTileSize * kBytesPerPixelGA))%nat ->
            (Z.to_nat (Z.quot i kTilesPerRow * kTileSize
                       * (kTileSize * kTilesPerRow * kBytesPerPixelGA)
                       + Z.rem i kTilesPerRow * kTileSize * kBytesPerPixelGA
                       + (0 + Z.of_nat r)
                         * (kTileSize * kTilesPerRow * kBytesPerPixelGA))
             + j)%nat
            = Z.to_nat (atlas_offset i (Z.of_nat r) (Z.of_nat j))) as Hoff.
  { intros j Hj. unfold atlas_offset, kBytesPerRow.
    generalize dependent (Z.quot i kTilesPerRow).
    generalize dependent (Z.rem i kTilesPerRow).
    unfold kTilesPerRow, kTileSize, kBytesPerPixelGA in *. intros. lia. }
  apply list_eq_same_length with (Z.to_nat (kTileSize * kBytesPerPixelGA));
    [lia | |].
  - rewrite length_take, length_drop.
    pose proof (Hoff (Z.to_nat (kTileSize * kBytesPerPixelGA) - 1)%nat
                  ltac:(unfold kTileSize, kBytesPerPixelGA; lia)) as Hlast.
    pose proof (atlas_offset_bound i count (Z.of_nat r)
                  (Z.of_nat (Z.to_nat (kTileSize * kBytesPerPixelGA) - 1))
                  Hi Hr'
                  ltac:(unfold kTileSize, kBytesPerPixelGA; lia)) as Hbound.
    unfold kTileSize, kBytesPerPixelGA in *. lia.
  - intros j a b Hj Ha Hb.
    rewrite lookup_take_lt, lookup_drop in Ha by lia.
    rewrite (Hoff j Hj) in Ha.
    rewrite Hbytes in Ha by (unfold kTileSize, kBytesPerPixelGA in *; lia).
    rewrite !Nat2Z.id, Hrow2 in Ha. simpl in Ha. congruence.
Qed.


Lemma numbered_index tbl ks k i :
  numbered tbl ks -> tbl !! k = Some i -> 0 <= i < Z.of_nat (size tbl).
Proof.
  intros (_ & Hsize & Hnum) Hk. apply Hnum in Hk as [Hi Hks].
  apply lookup_lt_Some in Hks. lia.
Qed.

Lemma numbered_inj tbl ks k1 k2 i :
  numbered tbl ks -> tbl !! k1 = Some i -> tbl !! k2 = Some i -> k1 = k2.
Proof.
  intros (_ & _ & Hnum) H1 H2.
  apply Hnum in H1 as [_ H1]. apply Hnum in H2 as [_ H2]. congruence.
Qed.

(** Whatever the order in which the table is visited, each tile of a
    table that numbers its tiles is found in the image at the block of
    its index. *)
Lemma atlas_numbered tiles ks order k i :
  numbered tiles ks ->
  (forall k i, tiles !! k = Some i -> tile_shaped k) ->
  order ≡ₚ map_to_list tiles ->
  tiles !! k = Some i ->
  art_tile (atlas order (Z.of_nat (size tiles)))
           (Z.rem i kTilesPerRow, Z.quot i kTilesPerRow) = k.
Proof.
  intros Hnum Hshape Hperm Hk.
  assert (forall e, e ∈ order <-> tiles !! e.1 = Some e.2) as Hin.
  { intros [k' i']. rewrite Hperm. apply elem_of_map_to_list. }
  apply atlas_block.
  - rewrite Hperm. apply NoDup_fmap_2_strong; [|apply NoDup_map_to_list].
    intros [k1 i1] [k2 i2] H1 H2 Heq. simpl in Heq. subst i2.
    apply elem_of_map_to_list in H1, H2.
    by rewrite (numbered_inj tiles ks k1 k2 i1 Hnum H1 H2).
  - apply Forall_forall. intros [k' i'] He. apply Hin in He. simpl in *.
    split; [by apply (Hshape k' i')|by apply (numbered_index tiles ks k')].
  - by apply Hin.
Qed.

Lemma art_tile_shaped input gw gh tx ty :
  whole_tiles input gw gh -> full_buffer input ->
  0 <= tx < gw -> 0 <= ty < gh ->
  tile_shaped (art_tile input (tx, ty)).
Proof.
  intros (Hgw & Hgh & Hw & Hh) Hfull Hx Hy. unfold full_buffer in Hfull.
  unfold tile_shaped, art_tile, GetPixels. cbv zeta. cbn [fst snd].
  rewrite length_fmap, length_seqZ. split; [unfold kTileSize; lia|].
  apply Forall_fmap, Forall_forall. intros r Hr. apply elem_of_seqZ in Hr.
  simpl. rewrite length_take, length_drop.
  rewrite Hw, Hh in *. unfold kTileSize, kBytesPerPixelGA in *. nia.
Qed.

Lemma ProcessImages_keys gw gh inputs k i :
  Forall (fun input => whole_tiles input gw gh) inputs ->
  (ProcessImages inputs).1 !! k = Some i ->
  exists input tx ty,
    input ∈ inputs /\ 0 <= tx < gw /\ 0 <= ty < gh
    /\ k = art_tile input (tx, ty).
Proof.
  intros Hwhole Hk.
  pose proof (ProcessImages_numbered gw gh inputs Hwhole) as Hnum.
  assert (k ∈ first_seen (nonblank (tile_stream gw gh inputs))) as Hin
    by (apply (numbered_elem _ _ _ Hnum); by exists i).
  apply first_seen_elem, nonblank_elem in Hin as [Hin _].
  unfold tile_stream in Hin. apply list_elem_of_bind in Hin
    as (input & Htile & Hinput).
  unfold tiles_of in Htile. apply list_elem_of_fmap in Htile
    as ([tx ty] & -> & Hp).
  apply elem_of_raster in Hp as [Hx Hy]. by exists input, tx, ty.
Qed.

(** X26. Every tile can be read back from the image table.  For layers of
    whole tiles whose buffers hold all their pixels, the image that
    [WriteOutputImageTable] builds from the table of [ProcessImage] holds,
    for every tile of the table, the rows of that tile in the 32 by 32
    block at column [index % kTilesPerRow] and row
    [index / kTilesPerRow], whatever the order in which the table is
    visited: the blocks of different indices do not overlap and none
    leaves the image. *)
Theorem image_table_round_trip gw gh inputs order k i :
  Forall (fun input => whole_tiles input gw gh /\ full_buffer input) inputs ->
  let tiles := (ProcessImages inputs).1 in
  order ≡ₚ map_to_list tiles ->
  tiles !! k = Some i ->
  art_tile (atlas order (Z.of_nat (size tiles)))
           (Z.rem i kTilesPerRow, Z.quot i kTilesPerRow) = k
  /\ art_tile (WriteOutputImageTable tiles)
              (Z.rem i kTilesPerRow, Z.quot i kTilesPerRow) = k.
Proof.
  intros Hinputs tiles Hperm Hk.
  assert (Forall (fun input => whole_tiles input gw gh) inputs) as Hwhole
    by (eapply Forall_impl; [exact Hinputs|]; by intros input [? ?]).
  pose proof (ProcessImages_numbered gw gh inputs Hwhole) as Hnum.
  assert (forall k i, tiles !! k = Some i -> tile_shaped k) as Hshape.
  { intros k' i' Hk'.
    destruct (ProcessImages_keys gw gh inputs k' i' Hwhole Hk')
      as (input & tx & ty & Hin & Hx & Hy & ->).
    destruct (proj1 (Forall_forall _ _) Hinputs input Hin) as [Hw Hfull].
    by apply (art_tile_shaped input gw gh). }
  split.
  - by apply (atlas_numbered tiles _ order k i Hnum).
  - by apply (atlas_numbered tiles _ (map_to_list tiles) k i Hnum).
Qed.

Lemma image_table_round_trip_witness :
  let tiles := (ProcessImages [two_tile_layer]).1 in
  art_tile (atlas (map_to_list tiles) (Z.of_nat (size tiles)))
           (Z.rem 1 kTilesPerRow, Z.quot 1 kTilesPerRow)
  = art_tile two_tile_layer (1, 0)
  /\ art_tile (WriteOutputImageTable tiles)
              (Z.rem 1 kTilesPerRow, Z.quot 1 kTilesPerRow)
     = art_tile two_tile_layer (1, 0).
Proof.
  apply (image_table_round_trip 2 1 [two_tile_layer]
           (map_to_list (ProcessImages [two_tile_layer]).1)
           (art_tile two_tile_layer (1, 0)) 1);
    [ repeat constructor; (lia || reflexivity) | reflexivity
    | vm_compute; reflexivity ].
Defined.

(** X27. The image table is exactly tall enough.  For a table of [n]
    tiles the image is [kTilesPerRow] tiles wide and
    [atlas_height n] pixels high: the block of every index below [n] lies
    inside it, the block of the last index lies in its last row of tiles,
    and it has at least [n] pixels, as the source asserts. *)
Theorem image_table_height n :
  0 <= n ->
  (forall i, 0 <= i < n ->
     0 <= Z.rem i kTilesPerRow * kTileSize
     /\ Z.rem i kTilesPerRow * kTileSize + kTileSize <= kTileSize * kTilesPerRow
     /\ 0 <= Z.quot i kTilesPerRow * kTileSize
     /\ Z.quot i kTilesPerRow * kTileSize + kTileSize <= atlas_height n)
  /\ (0 < n -> Z.quot (n - 1) kTilesPerRow * kTileSize + kTileSize
               = atlas_height n)
  /\ (n = 0 -> atlas_height n = 0)
  /\ n <= kTileSize * kTilesPerRow * atlas_height n.
Proof.
  intros Hn. unfold atlas_height, kTilesPerRow, kTileSize.
  repeat split; intros; Z.to_euclidean_division_equations; lia.
Qed.

Lemma image_table_height_witness :
  (forall i, 0 <= i < 61 ->
     0 <= Z.rem i kTilesPerRow * kTileSize
     /\ Z.rem i kTilesPerRow * kTileSize + kTileSize <= kTileSize * kTilesPerRow
     /\ 0 <= Z.quot i kTilesPerRow * kTileSize
     /\ Z.quot i kTilesPerRow * kTileSize + kTileSize <= atlas_height 61)
  /\ (0 < 61 -> Z.quot (61 - 1) kTilesPerRow * kTileSize + kTileSize
                = atlas_height 61)
  /\ (61 = 0 -> atlas_height 61 = 0)
  /\ 61 <= kTileSize * kTilesPerRow * atlas_height 61.
Proof. apply (image_table_height 61). lia. Defined.


(** ** File names and layer names *)

Lemma rfind_None c s : rfind c s = None <-> c ∉ s.
Proof.
  induction s as [|a s IH]; simpl.
  - split; [intros _ H; by apply elem_of_nil in H|done].
  - destruct (rfind c s) as [n|]; simpl.
    + split; [done|]. intros Hnot. exfalso.
      assert (c ∉ s) as Hs by (intros H; apply Hnot; by right).
      by apply IH in Hs.
    + destruct (Ascii.eqb_spec a c) as [->|Hne].
      * split; [done|]. intros Hnot. exfalso. apply Hnot. by left.
      * split; [|done]. intros _ Hin.
        apply elem_of_cons in Hin as [->|Hin]; [done|].
        by apply (proj1 IH).
Qed.

Lemma rfind_last c s1 s2 :
  c ∉ s2 -> rfind c (s1 ++ c :: s2) = Some (length s1).
Proof.
  intros Hnot. induction s1 as [|a s1 IH]; simpl.
  - apply rfind_None in Hnot. rewrite Hnot.
    by rewrite (proj2 (Ascii.eqb_eq c c) eq_refl).
  - by rewrite IH.
Qed.

Lemma rfind_Some c s n :
  rfind c s = Some n ->
  s = take n s ++ c :: drop (S n) s /\ c ∉ drop (S n) s.
Proof.
  revert n. induction s as [|a s IH]; intros n; simpl; [done|].
  destruct (rfind c s) as [m|] eqn:Hm.
  - intros [= <-]. destruct (IH m eq_refl) as [Heq Hnot]. simpl.
    split; [by rewrite <- Heq|done].
  - destruct (Ascii.eqb_spec a c) as [->|Hne]; [|done].
    intros [= <-]. simpl. rewrite drop_0. split; [done|].
    by apply rfind_None.
Qed.

Lemma starts_with_spec needle s :
  starts_with needle s = true <-> exists rest, s = needle ++ rest.
Proof.
  revert s. induction needle as [|a needle IH]; intros s; simpl.
  - split; [by exists s|done].
  - destruct s as [|b s].
    + split; [done|]. by intros [rest ?].
    + rewrite andb_true_iff, Ascii.eqb_eq, IH. split.
      * intros [-> [rest ->]]. by exists rest.
      * intros [rest [= -> ->]]. split; [done|]. by exists rest.
Qed.

Lemma find_spec needle s :
  is_Some (find needle s) <-> exists before after, s = before ++ needle ++ after.
Proof.
  induction s as [|b s IH]; simpl.
  - destruct (starts_with needle []) eqn:Hp.
    + split; [|by eexists]. intros _.
      apply starts_with_spec in Hp as [rest Hrest]. by exists [], rest.
    + split; [by intros [? ?]|]. intros (before & after & Heq). exfalso.
      symmetry in Heq. apply app_eq_nil in Heq as [-> Heq]. simpl in Heq.
      assert (starts_with needle [] = true) as Hp'
        by (apply starts_with_spec; by exists after).
      congruence.
  - destruct (starts_with needle (b :: s)) eqn:Hp.
    + split; [|by eexists]. intros _.
      apply starts_with_spec in Hp as [rest Hrest]. by exists [], rest.
    + rewrite fmap_is_Some, IH. split.
      * intros (before & after & ->). by exists (b :: before), after.
      * intros (before & after & Heq). destruct before as [|b' before].
        -- exfalso. simpl in Heq.
           assert (starts_with needle (b :: s) = true) as Hp'
             by (apply starts_with_spec; by exists after).
           congruence.
        -- injection Heq as -> ->. by exists before, after.
Qed.

Lemma IsMetadataFile_spec filename :
  IsMetadataFile filename = true
  <-> exists before after, filename = before ++ kMetadata ++ after.
Proof.
  rewrite <- find_spec. unfold IsMetadataFile.
  destruct (find kMetadata filename); split; (done || by eexists || idtac);
    by intros [? ?].
Qed.

Lemma GenerateLayerName_part filename :
  exists before after,
    filename = before ++ GenerateLayerName filename ++ after.
Proof.
  unfold GenerateLayerName. cbv zeta.
  set (cut := match rfind "."%char filename with
              | Some d => take d filename
              | None => filename
              end).
  assert (exists after, filename = cut ++ after) as [after Hcut].
  { subst cut. destruct (rfind "."%char filename) as [d|].
    - exists (drop d filename). by rewrite take_drop.
    - exists []. by rewrite app_nil_r. }
  destruct (rfind "/"%char cut) as [s|].
  - exists (take (s + 1) cut), after.
    by rewrite app_assoc, take_drop.
  - by exists [], after.
Qed.

(** X28. The layer name is the base name without its extension.  For a
    path of a directory part, a slash, a stem without slash, a dot and an
    extension without dot, [GenerateLayerName] returns the stem; the same
    without the directory part.  For every file name, the layer name has no
    slash and is a contiguous part of the file name. *)
Theorem GenerateLayerName_stem dir stem ext filename :
  "/"%char ∉ stem -> "."%char ∉ ext ->
  GenerateLayerName (dir ++ "/"%char :: stem ++ "."%char :: ext) = stem
  /\ GenerateLayerName (stem ++ "."%char :: ext) = stem
  /\ ("/"%char ∉ GenerateLayerName filename)
  /\ exists before after,
       filename = before ++ GenerateLayerName filename ++ after.
Proof.
  intros Hstem Hext. repeat split.
  - unfold GenerateLayerName. cbv zeta.
    replace (dir ++ "/"%char :: stem ++ "."%char :: ext)
      with ((dir ++ "/"%char :: stem) ++ "."%char :: ext)
      by (by rewrite <- app_assoc).
    rewrite rfind_last, take_app_length, rfind_last by done.
    replace (length dir + 1)%nat with (length (dir ++ ["/"%char]))
      by (rewrite length_app; simpl; lia).
    replace (dir ++ "/"%char :: stem) with ((dir ++ ["/"%char]) ++ stem)
      by (by rewrite <- app_assoc).
    by rewrite drop_app_length.
  - unfold GenerateLayerName. cbv zeta.
    rewrite rfind_last, take_app_length by done.
    by rewrite (proj2 (rfind_None "/"%char stem) Hstem).
  - unfold GenerateLayerName. cbv zeta.
    destruct (rfind "/"%char _) as [s|] eqn:Hs.
    + apply rfind_Some in Hs as [_ Hnot].
      by replace (s + 1)%nat with (S s) by lia.
    + by apply rfind_None.
  - apply GenerateLayerName_part.
Qed.

Lemma GenerateLayerName_stem_witness :
  GenerateLayerName
    (["w"; "o"; "r"; "l"; "d"]%char
     ++ "/"%char :: kMetadata ++ "."%char :: ["p"; "n"; "g"]%char)
  = kMetadata
  /\ GenerateLayerName (kMetadata ++ "."%char :: ["p"; "n"; "g"]%char)
     = kMetadata
  /\ ("/"%char ∉ GenerateLayerName metadata_path)
  /\ exists before after,
       metadata_path = before ++ GenerateLayerName metadata_path ++ after.
Proof.
  apply (GenerateLayerName_stem ["w"; "o"; "r"; "l"; "d"]%char kMetadata
           ["p"; "n"; "g"]%char metadata_path);
    apply rfind_None; reflexivity.
Defined.

(** X29. Which files are metadata.  [IsMetadataFile] holds exactly of the
    names that contain the characters [metadata] in a row.  Since the
    layer name is a part of the file name, a layer that
    [WriteOutputIndices] writes as metadata (by its layer name) was
    processed as metadata by [main] (by its file name); and a file whose
    stem contains the marker is metadata under both names. *)
Theorem IsMetadataFile_names filename dir stem ext :
  (IsMetadataFile filename = true
   <-> exists before after, filename = before ++ kMetadata ++ after)
  /\ (IsMetadataFile (GenerateLayerName filename) = true ->
      IsMetadataFile filename = true)
  /\ ("/"%char ∉ stem -> "."%char ∉ ext -> IsMetadataFile stem = true ->
      IsMetadataFile (dir ++ "/"%char :: stem ++ "."%char :: ext) = true
      /\ IsMetadataFile
           (GenerateLayerName (dir ++ "/"%char :: stem ++ "."%char :: ext))
         = true).
Proof.
  split; [apply IsMetadataFile_spec|]. split.
  - rewrite !IsMetadataFile_spec. intros (before & after & Hname).
    destruct (GenerateLayerName_part filename) as (pre & post & Hpart).
    rewrite Hname in Hpart. exists (pre ++ before), (after ++ post).
    rewrite Hpart at 1. by rewrite <- !app_assoc.
  - intros Hstem Hext Hmeta.
    assert (GenerateLayerName (dir ++ "/"%char :: stem ++ "."%char :: ext)
            = stem) as Hname.
    { unfold GenerateLayerName. cbv zeta.
      replace (dir ++ "/"%char :: stem ++ "."%char :: ext)
        with ((dir ++ "/"%char :: stem) ++ "."%char :: ext)
        by (by rewrite <- app_assoc).
      rewrite rfind_last, take_app_length, rfind_last by done.
      replace (length dir + 1)%nat with (length (dir ++ ["/"%char]))
        by (rewrite length_app; simpl; lia).
      replace (dir ++ "/"%char :: stem) with ((dir ++ ["/"%char]) ++ stem)
        by (by rewrite <- app_assoc).
      by rewrite drop_app_length. }
    rewrite Hname. split; [|done].
    apply IsMetadataFile_spec in Hmeta as (before & after & ->).
    apply IsMetadataFile_spec.
    exists (dir ++ "/"%char :: before), (after ++ "."%char :: ext).
    by rewrite <- !app_assoc.
Qed.

Lemma IsMetadataFile_names_witness :
  IsMetadataFile metadata_path = true
  /\ IsMetadataFile (GenerateLayerName metadata_path) = true.
Proof.
  apply (proj2 (proj2 (IsMetadataFile_names metadata_path
                         ["w"; "o"; "r"; "l"; "d"]%char kMetadata
                         ["p"; "n"; "g"]%char)));
    [apply rfind_None; reflexivity | apply rfind_None; reflexivity
    | reflexivity].
Defined.
